(** * litai-spex: the deployment pipeline

    A shallow embedding of the deployment core of the litai-spex CLI:

    - [utils/fileScanner.js]: [matchesPattern], [scanDirectory],
      [getRemoteDirectories];
    - [utils/sshDeployer.js]: the [SSHDeployer] class;
    - [utils/config.js]: [loadConfig], [mergeWithCliOptions],
      [validateConfig];
    - [commands/deploy.js]: [deployCommand];

    and of the commands around it:

    - [commands/create-project.js]: [createProjectCommand];
    - [commands/scan.js]: [generateMask], [generateIPRange],
      [trySSHConnection] and the batch loop of [scanCommand];
    - [commands/ping.js]: [trySSHConnection], [pingCommand];
    - [commands/init.js]: [initCommand].

    JavaScript strings are modelled by [string]; a code unit is an [ascii],
    so the development speaks about strings whose code units are below 256.
    Functions of Node's own library ([String.prototype.split], [path.dirname],
    [RegExp], ...) are modelled next to the code that calls them.

    Code with effects runs in the monad [M]: its state is the [connected]
    flag of the deployer together with the history of what the run did to
    the outside, and it ends normally, by an exception, or by
    [process.exit].  What the outside answers (the remote session provider,
    the local file system) is given by an environment; an answer may depend
    on the whole history.  Output to the console is not modelled. *)

From Stdlib Require Import Bool Arith Lia List Ascii String ZArith.
From Stdlib Require Import Permutation Sorted.
From Stdlib Require DecimalString DecimalNat.
Import ListNotations.

Local Open Scope string_scope.
Local Open Scope bool_scope.

(** ** JavaScript strings *)

Module JsString.

(** [s.startsWith(p)]. *)
Fixpoint startsWith (p s : string) : bool :=
  match p, s with
  | EmptyString, _ => true
  | String _ _, EmptyString => false
  | String a p', String b s' => Ascii.eqb a b && startsWith p' s'
  end.

(** [s.includes(sub)]: [sub] occurs in [s] at some index. *)
Fixpoint includes (s sub : string) : bool :=
  startsWith sub s ||
  match s with
  | EmptyString => false
  | String _ s' => includes s' sub
  end.

(** [s.replace(/c/g, by)] for a one-character pattern [c]: every occurrence
    of [c] is replaced, from left to right. *)
Fixpoint replaceAll (c : ascii) (by_ : string) (s : string) : string :=
  match s with
  | EmptyString => EmptyString
  | String a s' =>
      if Ascii.eqb a c then by_ ++ replaceAll c by_ s'
      else String a (replaceAll c by_ s')
  end.

(** [s.split(sep)] for a one-character separator: the pieces between the
    separators, always at least one piece ([''.split('/')] is [['']]). *)
Fixpoint split (sep : ascii) (s : string) : list string :=
  match s with
  | EmptyString => [EmptyString]
  | String a s' =>
      if Ascii.eqb a sep then EmptyString :: split sep s'
      else match split sep s' with
           | [] => [String a EmptyString]
           | piece :: pieces => String a piece :: pieces
           end
  end.

(** JavaScript truthiness of a string: the empty string is falsy. *)
Definition nonEmpty (s : string) : bool :=
  match s with EmptyString => false | String _ _ => true end.

(** A value that is either [undefined] or a string; only a non-empty
    string is truthy. *)
Definition truthy (v : option string) : bool :=
  match v with Some s => nonEmpty s | None => false end.

(** [a || b] on such values. *)
Definition or_else (a b : option string) : option string :=
  if truthy a then a else b.

(** [xs.includes(x)] on an array of strings. *)
Definition Array_includes (xs : list string) (x : string) : bool :=
  existsb (String.eqb x) xs.

End JsString.

Import JsString.

(** ** Regular expressions: the fragment [matchesPattern] can build

  [new RegExp(src)] without flags.  The fragment covers ordinary
  characters, [.], a postfix [*], and the assertions [^] and [$].  Every
  other syntax character ([\ + ? ( ) [ ] { } |]) and a [*] with nothing to
  repeat make [RegExp_new] answer [None]: JavaScript either throws a
  [SyntaxError] there or gives the character a meaning outside the
  fragment. *)

Module RegExp.

Inductive atom : Type :=
| Char (c : ascii)        (* an ordinary character, matching itself *)
| Dot.                    (* [.]: any character but a line terminator *)

Inductive term : Type :=
| Begin                   (* [^] *)
| End_                    (* [$] *)
| One (a : atom)
| Star (a : atom).        (* [a*] *)

Definition t : Type := list term.

Definition isSyntaxCharacter (c : ascii) : bool :=
  existsb (Ascii.eqb c)
          (list_ascii_of_string "^$\.*+?()[]{}|").

Definition isLineTerminator (c : ascii) : bool :=
  Ascii.eqb c "010" || Ascii.eqb c "013".

Definition flush (pending : option atom) : t :=
  match pending with Some a => [One a] | None => [] end.

(** The parser reads [src] from left to right; [pending] is the atom just
    read, which a following [*] turns into a repetition. *)
Fixpoint parse (pending : option atom) (src : string) : option t :=
  match src with
  | EmptyString => Some (flush pending)
  | String c rest =>
      if Ascii.eqb c "*" then
        match pending with
        | Some a => option_map (cons (Star a)) (parse None rest)
        | None => None
        end
      else
        option_map (app (flush pending))
          (if Ascii.eqb c "^" then option_map (cons Begin) (parse None rest)
           else if Ascii.eqb c "$" then option_map (cons End_) (parse None rest)
           else if Ascii.eqb c "." then parse (Some Dot) rest
           else if isSyntaxCharacter c then None
           else parse (Some (Char c)) rest)
  end.

Definition RegExp_new (src : string) : option t := parse None src.

Definition atomMatches (a : atom) (c : ascii) : bool :=
  match a with
  | Char c' => Ascii.eqb c' c
  | Dot => negb (isLineTerminator c)
  end.

(** [matchFrom r atStart s]: [r] matches a prefix of [s]; [atStart] says
    whether [s] starts at index 0 of the input (what [^] asserts, there
    being no [m] flag). *)
Fixpoint matchFrom (r : t) (atStart : bool) (s : string) {struct r} : bool :=
  match r with
  | [] => true
  | Begin :: r' => atStart && matchFrom r' atStart s
  | End_ :: r' => negb (nonEmpty s) && matchFrom r' atStart s
  | One a :: r' =>
      match s with
      | EmptyString => false
      | String c s' => atomMatches a c && matchFrom r' false s'
      end
  | Star a :: r' =>
      (fix star (atStart : bool) (s : string) {struct s} : bool :=
         matchFrom r' atStart s ||
         match s with
         | EmptyString => false
         | String c s' => atomMatches a c && star false s'
         end) atStart s
  end.

Fixpoint search (r : t) (atStart : bool) (s : string) : bool :=
  matchFrom r atStart s ||
  match s with
  | EmptyString => false
  | String _ s' => search r false s'
  end.

(** [regex.test(s)]: there is a match starting at some index of [s]. *)
Definition test (r : t) (s : string) : bool := search r true s.

End RegExp.

(** ** utils/fileScanner.js: matchesPattern *)

Module PatternMatcher.

(** The callback of [patterns.some(...)].  [None]: the pattern compiles to
    a regular expression outside the modelled fragment. *)
Definition matchesOne (filename pattern : string) : option bool :=
  if includes pattern "*" then
    match RegExp.RegExp_new ("^" ++ replaceAll "*" ".*" pattern ++ "$") with
    | Some regex => Some (RegExp.test regex filename)
    | None => None
    end
  else Some (String.eqb filename pattern).

(** [xs.some(f)]: stops at the first element for which [f] is true. *)
Fixpoint Array_some {A : Type} (f : A -> option bool) (xs : list A) : option bool :=
  match xs with
  | [] => Some false
  | x :: xs' =>
      match f x with
      | Some true => Some true
      | Some false => Array_some f xs'
      | None => None
      end
  end.

Definition matchesPattern (filename : string) (patterns : list string) : option bool :=
  Array_some (matchesOne filename) patterns.

(** The matcher as the specification words it: every character of the
    pattern but [*] stands for itself, [*] stands for zero or more
    characters of any kind, and the whole file name has to be consumed. *)
Fixpoint globMatches (pattern : string) (filename : string) {struct pattern} : bool :=
  match pattern with
  | EmptyString => negb (nonEmpty filename)
  | String p pattern' =>
      if Ascii.eqb p "*" then
        (fix star (s : string) {struct s} : bool :=
           globMatches pattern' s ||
           match s with
           | EmptyString => false
           | String _ s' => star s'
           end) filename
      else
        match filename with
        | EmptyString => false
        | String c filename' => Ascii.eqb p c && globMatches pattern' filename'
        end
  end.

Definition specMatches (filename : string) (patterns : list string) : bool :=
  existsb (fun p => globMatches p filename) patterns.

(** Patterns and file names on which the two matchers can be compared: a
    pattern made of [*] and of characters that mean nothing to [RegExp], a
    file name without line terminators. *)
Definition literalPattern (pattern : string) : bool :=
  forallb (fun c => Ascii.eqb c "*" || negb (RegExp.isSyntaxCharacter c))
          (list_ascii_of_string pattern).

Definition singleLine (filename : string) : bool :=
  forallb (fun c => negb (RegExp.isLineTerminator c)) (list_ascii_of_string filename).

(** The regular expression [new RegExp] makes of such a pattern (after the
    leading [^]). *)
Fixpoint compiled (pattern : string) : RegExp.t :=
  match pattern with
  | EmptyString => [RegExp.End_]
  | String c pattern' =>
      (if Ascii.eqb c "*" then RegExp.Star RegExp.Dot else RegExp.One (RegExp.Char c))
      :: compiled pattern'
  end.

End PatternMatcher.

Import PatternMatcher.


(** ** Node's [path] module (POSIX flavour), as far as the scanner uses it *)

Module Path.

Definition isSlash (c : ascii) : bool := Ascii.eqb c "/".

(** The backwards loop of [path.dirname]: [revTail] holds the characters at
    the indices [i], [i-1], ..., 1; the answer is the index [end], if the
    loop sets it. *)
Fixpoint dirnameScan (revTail : list ascii) (i : nat) (matchedSlash : bool) : option nat :=
  match revTail with
  | [] => None
  | c :: more =>
      if isSlash c then
        if matchedSlash then dirnameScan more (i - 1) true else Some i
      else dirnameScan more (i - 1) false
  end.

(** [path.dirname(p)]. *)
Definition dirname (p : string) : string :=
  match p with
  | EmptyString => "."
  | String c0 tail =>
      let hasRoot := isSlash c0 in
      match dirnameScan (rev (list_ascii_of_string tail)) (String.length tail) true with
      | None => if hasRoot then "/" else "."
      | Some end_ =>
          if hasRoot && Nat.eqb end_ 1 then "//" else substring 0 end_ p
      end
  end.

Fixpoint endsWithSlash (s : string) : bool :=
  match s with
  | EmptyString => false
  | String c EmptyString => isSlash c
  | String _ s' => endsWithSlash s'
  end.

Definition withSlash (dir : string) : string :=
  if endsWithSlash dir then dir else dir ++ "/".

(** [path.join(dir, item)] for a normalized absolute [dir], as
    [process.cwd()] gives it and as [path.join] itself returns it, and the
    name [item] of one of its entries: the two joined by one separator.
    Node normalizes the joined path; for such arguments there is nothing to
    normalize.  For another [dir] (a relative one, one with [.] or [..]
    inside) the local path Node returns differs from this one, so what is
    said below about local paths is said for normalized absolute
    directories only. *)
Definition join (dir item : string) : string := withSlash dir ++ item.

Fixpoint stripPrefix (p s : string) : option string :=
  match p, s with
  | EmptyString, _ => Some s
  | String _ _, EmptyString => None
  | String a p', String b s' => if Ascii.eqb a b then stripPrefix p' s' else None
  end.

(** [path.relative(from, to)] for a path [to] that lies below the directory
    [from], the only way [scanDirectory] calls it: what follows [from] and
    its separator.  (For other arguments Node climbs with [..]; the model
    answers [to] there.) *)
Definition relative (from to : string) : string :=
  match stripPrefix from to with
  | Some (String c rest) => if isSlash c then rest else String c rest
  | Some EmptyString => EmptyString
  | None => to
  end.

End Path.

(** ** utils/fileScanner.js: scanDirectory and getRemoteDirectories *)

Module FileScanner.

(** The local file system below a directory: the entries [fs.readdirSync]
    lists, in its order, each with its name and with what
    [fs.statSync(...).isDirectory()] answers for it. *)
#[warnings="-register-all"]
Inductive node : Type :=
| File (name : string)
| Dir (name : string) (children : list node).

Definition nameOf (n : node) : string :=
  match n with File name => name | Dir name _ => name end.

Record ExcludeConfig : Type := {
  excludeDirectories : list string;
  excludeFiles : list string;
  excludePatterns : list string
}.

(** [{ local, remote }] *)
Record FileEntry : Type := {
  local_ : string;
  remote : string
}.

(** [files.push(...more)] after a call that may have thrown. *)
Definition pushAll (files : option (list FileEntry)) (more : option (list FileEntry))
  : option (list FileEntry) :=
  match files, more with
  | Some fs, Some ms => Some (fs ++ ms)%list
  | _, _ => None
  end.

(** One turn of the [for (const item of items)] loop of [scanDirectory]:
    the entries that the item [n] contributes.  [None]: [matchesPattern]
    left the modelled fragment of regular expressions. *)
Fixpoint scanItem (excludeConfig : ExcludeConfig) (baseDir dir : string) (n : node)
  {struct n} : option (list FileEntry) :=
  let item := nameOf n in
  let fullPath := Path.join dir item in
  let relativePath := Path.relative baseDir fullPath in
  match n with
  | Dir _ children =>
      if Array_includes (excludeDirectories excludeConfig) item then Some []
      else
        (fix scanItems (items : list node) : option (list FileEntry) :=
           match items with
           | [] => Some []
           | child :: rest =>
               match scanItem excludeConfig baseDir fullPath child with
               | Some subFiles => pushAll (Some subFiles) (scanItems rest)
               | None => None
               end
           end) children
  | File _ =>
      if Array_includes (excludeFiles excludeConfig) item then Some []
      else
        match matchesPattern item (excludePatterns excludeConfig) with
        | Some true => Some []
        | Some false =>
            Some [ {| local_ := fullPath;
                      remote := replaceAll "\" "/" relativePath |} ]
        | None => None
        end
  end.

(** [scanDirectory(dir, excludeConfig, baseDir)], [items] being the content
    of [dir]. *)
Fixpoint scanDirectory (items : list node) (dir : string)
  (excludeConfig : ExcludeConfig) (baseDir : string) : option (list FileEntry) :=
  match items with
  | [] => Some []
  | n :: rest =>
      match scanItem excludeConfig baseDir dir n with
      | Some found => pushAll (Some found) (scanDirectory rest dir excludeConfig baseDir)
      | None => None
      end
  end.

(** A [Set] of strings keeps its elements in insertion order; [add] of an
    element already present changes nothing. *)
Definition Set_add (x : string) (s : list string) : list string :=
  if Array_includes s x then s else (s ++ [x])%list.

(** The inner loop of [getRemoteDirectories]: [for (const part of parts)]. *)
Fixpoint addParents (parts : list string) (current : string) (dirs : list string)
  : list string :=
  match parts with
  | [] => dirs
  | part :: rest =>
      let current' := if nonEmpty current then current ++ "/" ++ part else part in
      addParents rest current' (Set_add current' dirs)
  end.

(** The outer loop: [for (const file of files)]. *)
Fixpoint collectDirs (files : list FileEntry) (dirs : list string) : list string :=
  match files with
  | [] => dirs
  | file :: rest =>
      let dir := Path.dirname (remote file) in
      if nonEmpty dir && negb (String.eqb dir ".") then
        collectDirs rest (addParents (split "/" dir) "" dirs)
      else collectDirs rest dirs
  end.

(** [Array.prototype.sort(compare)], which is stable: [x] goes in front of
    the first element that [compare] does not put before it. *)
Fixpoint sortInsert {A : Type} (compare : A -> A -> Z) (x : A) (sorted : list A) : list A :=
  match sorted with
  | [] => [x]
  | y :: rest =>
      if (compare x y <=? 0)%Z then x :: y :: rest
      else y :: sortInsert compare x rest
  end.

Definition Array_sort {A : Type} (compare : A -> A -> Z) (xs : list A) : list A :=
  fold_right (sortInsert compare) [] xs.

Definition depth (a : string) : Z := Z.of_nat (List.length (split "/" a)).

Definition byDepth (a b : string) : Z := (depth a - depth b)%Z.

Definition getRemoteDirectories (files : list FileEntry) : list string :=
  Array_sort byDepth (collectDirs files []).

(** [d] is an ancestor directory of the path [p]: [p] goes on below [d]. *)
Definition ancestorOf (d p : string) : bool := startsWith (d ++ "/") p.

(** The order [getRemoteDirectories] sorts by. *)
Definition shallower (a b : string) : Prop := (depth a <= depth b)%Z.

(** A remote path as the scanner makes it: relative to the source
    directory, every segment a name (not empty, not [.]). *)
Definition relativePath (p : string) : bool :=
  forallb (fun segment => nonEmpty segment && negb (String.eqb segment "."))
          (split "/" p).

(** The scan as the specification words it: every file of the tree, named
    by the path of names leading to it ... *)
Fixpoint allFiles (n : node) {struct n} : list (list string) :=
  match n with
  | File name => [[name]]
  | Dir name children =>
      map (cons name)
          ((fix below (items : list node) : list (list string) :=
              match items with
              | [] => []
              | child :: rest => (allFiles child ++ below rest)%list
              end) children)
  end.

Definition allFilesIn (items : list node) : list (list string) :=
  flat_map allFiles items.

(** What [scanDirectory] keeps, read off its code: a file none of whose
    directories is named in [excludeDirectories], whose base name is not in
    [excludeFiles] and for whose base name [matchesPattern], the matcher of
    the code, answers [false]. *)
Definition keptByCode (excludeConfig : ExcludeConfig) (segments : list string) : bool :=
  forallb (fun d => negb (Array_includes (excludeDirectories excludeConfig) d))
          (removelast segments)
  && negb (Array_includes (excludeFiles excludeConfig) (last segments ""))
  && match matchesPattern (last segments "") (excludePatterns excludeConfig) with
     | Some true => false
     | _ => true
     end.

(** What the specification says is kept: the same, with the matcher of
    the specification for the patterns. *)
Definition keptBySpec (excludeConfig : ExcludeConfig) (segments : list string) : bool :=
  forallb (fun d => negb (Array_includes (excludeDirectories excludeConfig) d))
          (removelast segments)
  && negb (Array_includes (excludeFiles excludeConfig) (last segments ""))
  && negb (specMatches (last segments "") (excludePatterns excludeConfig)).

Definition entryOf (baseDir : string) (segments : list string) : FileEntry :=
  {| local_ := Path.withSlash baseDir ++ String.concat "/" segments;
     remote := replaceAll "\" "/" (String.concat "/" segments) |}.

(** The directory reached from [baseDir] along the names [segments]. *)
Definition dirAt (baseDir : string) (segments : list string) : string :=
  match segments with
  | [] => baseDir
  | _ => Path.withSlash baseDir ++ String.concat "/" segments
  end.

(** Names as a directory listing gives them: not empty, without [/]. *)
Definition plainName (s : string) : bool :=
  nonEmpty s && negb (includes s "/").

Fixpoint plainTree (n : node) : bool :=
  match n with
  | File name => plainName name
  | Dir name children =>
      plainName name &&
      (fix all (items : list node) : bool :=
         match items with
         | [] => true
         | child :: rest => plainTree child && all rest
         end) children
  end.

(** A pattern whose regular expression lies in the modelled fragment. *)
Definition modelled (pattern : string) : bool :=
  match matchesOne "" pattern with Some _ => true | None => false end.

(** Induction on trees, the children of a directory taken together. *)
Section NodeInduction.

Variable P : node -> Prop.
Hypothesis onFile : forall name, P (File name).
Hypothesis onDir : forall name children, Forall P children -> P (Dir name children).

Fixpoint node_induction (n : node) : P n :=
  match n with
  | File name => onFile name
  | Dir name children =>
      onDir name children
        ((fix all (items : list node) : Forall P items :=
            match items with
            | [] => Forall_nil P
            | child :: rest => Forall_cons child (node_induction child) (all rest)
            end) children)
  end.

End NodeInduction.

End FileScanner.

Import FileScanner.

(** ** Effects: exceptions, [process.exit] and the calls that leave the process *)

Module Effects.

(** A thrown value: an [Error] object with its [message]. *)
Record Error : Type := { message : string }.

(** How a piece of code ends: normally, by [throw], or by [process.exit],
    which no [catch] intercepts. *)
Inductive Completion (A : Type) : Type :=
| Normal (a : A)
| Throw (e : Error)
| Exit (code : Z).
Arguments Normal {A} a.
Arguments Throw {A} e.
Arguments Exit {A} code.

(** The object handed to [ssh.connect]. *)
Record SshConfig : Type := {
  ssh_host : option string;
  ssh_username : option string;
  ssh_privateKey : option string;
  ssh_password : option string
}.

(** What [ssh.execCommand] resolves with. *)
Record ExecResult : Type := {
  stdout : string;
  stderr : string;
  code : Z
}.

(** The methods of the deployer, as the driver calls them. *)
Inductive Method : Type :=
| MConnect | MGetServerInfo | MCreateDirectories | MUploadFiles
| MExecuteScript | MDisconnect.

(** What a run does to the outside, in order. *)
Inductive Event : Type :=
| SshConnect (config : SshConfig)
| SshDispose
| SshExecCommand (command : string) (cwd : option string)
| SshPutFile (localFile remoteFile : string)
| Progress (current total : nat) (filename : string)
| DirProgress (dir : string)
| Call (m : Method)
| ProcessExit (code : Z).

(** The deployer object ([this.connected]) and the history of the run. *)
Record World : Type := {
  connected : bool;
  trace : list Event
}.

(** The outside: how the remote session provider and the local file system
    answer.  The session's answers may depend on everything that happened
    before ([list Event]): [None] and [inr] stand for a promise that
    resolves, [Some e] and [inl e] for one that rejects with [e]. *)
Record Env : Type := {
  ssh_connect : list Event -> SshConfig -> option Error;
  ssh_execCommand : list Event -> string -> option string -> Error + ExecResult;
  ssh_putFile : list Event -> string -> string -> option Error;
  path_resolve : string -> string;
  fs_existsSync : string -> bool;
  fs_readFileSync : string -> Error + string
}.

Definition M (A : Type) : Type := World -> Completion A * World.

Definition ret {A : Type} (a : A) : M A := fun w => (Normal a, w).

Definition bind {A B : Type} (m : M A) (k : A -> M B) : M B :=
  fun w =>
    match m w with
    | (Normal a, w') => k a w'
    | (Throw e, w') => (Throw e, w')
    | (Exit c, w') => (Exit c, w')
    end.

Definition throw {A : Type} (e : Error) : M A := fun w => (Throw e, w).

Definition emit (ev : Event) : M unit :=
  fun w => (Normal tt, {| connected := connected w; trace := (trace w ++ [ev])%list |}).

(** [process.exit(code)] *)
Definition processExit {A : Type} (c : Z) : M A :=
  fun w => (Exit c, {| connected := connected w; trace := (trace w ++ [ProcessExit c])%list |}).

(** [try { body } catch (error) { handler }] *)
Definition tryCatch {A : Type} (body : M A) (handler : Error -> M A) : M A :=
  fun w =>
    match body w with
    | (Throw e, w') => handler e w'
    | other => other
    end.

Definition getConnected : M bool := fun w => (Normal (connected w), w).

Definition setConnected (b : bool) : M unit :=
  fun w => (Normal tt, {| connected := b; trace := trace w |}).

(** [await this.ssh.connect(config)] *)
Definition awaitConnect (env : Env) (config : SshConfig) : M unit :=
  fun w =>
    let w' := {| connected := connected w; trace := (trace w ++ [SshConnect config])%list |} in
    match ssh_connect env (trace w) config with
    | None => (Normal tt, w')
    | Some e => (Throw e, w')
    end.

(** [await this.ssh.execCommand(command, { cwd })] *)
Definition awaitExecCommand (env : Env) (command : string) (cwd : option string)
  : M ExecResult :=
  fun w =>
    let w' := {| connected := connected w;
                 trace := (trace w ++ [SshExecCommand command cwd])%list |} in
    match ssh_execCommand env (trace w) command cwd with
    | inr result => (Normal result, w')
    | inl e => (Throw e, w')
    end.

(** [await this.ssh.putFile(local, remote)] *)
Definition awaitPutFile (env : Env) (localFile remoteFile : string) : M unit :=
  fun w =>
    let w' := {| connected := connected w;
                 trace := (trace w ++ [SshPutFile localFile remoteFile])%list |} in
    match ssh_putFile env (trace w) localFile remoteFile with
    | None => (Normal tt, w')
    | Some e => (Throw e, w')
    end.

(** [this.ssh.dispose()] *)
Definition sshDispose : M unit := emit SshDispose.

End Effects.

Import Effects.

Declare Scope js_scope.
Delimit Scope js_scope with js.
Notation "x <- m ;; k" := (bind m (fun x => k))
  (at level 61, m at next level, right associativity) : js_scope.
Notation "m ;; k" := (bind m (fun _ => k))
  (at level 61, right associativity) : js_scope.
Local Open Scope js_scope.

(** ** utils/sshDeployer.js: class SSHDeployer *)

Module SSHDeployer.

(** [config.connection] *)
Record ConnectionConfig : Type := {
  host : option string;
  username : option string;
  password : option string;
  privateKeyPath : option string;
  targetDirectory : option string
}.

Definition dq : string := String (ascii_of_nat 34) EmptyString.

(** A value inside a template literal; [None] is [undefined]. *)
Definition template (v : option string) : string :=
  match v with Some s => s | None => "undefined" end.

(** [new SSHDeployer()] *)
Definition newDeployer : World := {| connected := false; trace := [] |}.

Definition noAuthentication : Error :=
  {| message := "No authentication method provided (password or private key)" |}.

Definition keyNotFound (keyPath : string) : Error :=
  {| message := "Private key file not found: " ++ keyPath |}.

(** The [if / else if / else] of [connect] that completes [config]. *)
Definition authentication (env : Env) (connectionConfig : ConnectionConfig) : M SshConfig :=
  let config := {| ssh_host := host connectionConfig;
                   ssh_username := username connectionConfig;
                   ssh_privateKey := None;
                   ssh_password := None |} in
  if truthy (privateKeyPath connectionConfig) then
    let keyPath := path_resolve env (template (privateKeyPath connectionConfig)) in
    if negb (fs_existsSync env keyPath) then throw (keyNotFound keyPath)
    else
      match fs_readFileSync env keyPath with
      | inr content =>
          ret {| ssh_host := ssh_host config;
                 ssh_username := ssh_username config;
                 ssh_privateKey := Some content;
                 ssh_password := ssh_password config |}
      | inl e => throw e
      end
  else if truthy (password connectionConfig) then
    ret {| ssh_host := ssh_host config;
           ssh_username := ssh_username config;
           ssh_privateKey := ssh_privateKey config;
           ssh_password := password connectionConfig |}
  else throw noAuthentication.

Definition connect (env : Env) (connectionConfig : ConnectionConfig) : M unit :=
  config <- authentication env connectionConfig ;;
  awaitConnect env config ;;
  setConnected true.

Definition disconnect : M unit :=
  isConnected <- getConnected ;;
  if isConnected then
    sshDispose ;;
    setConnected false
  else ret tt.

Definition mkdirCommand (fullPath : string) : string :=
  "mkdir -p " ++ dq ++ fullPath ++ dq.

(** The [for (const dir of directories)] loop of [createDirectories]. *)
Fixpoint createEach (env : Env) (baseDir : string) (directories : list string)
  (onProgress : option (string -> M unit)) : M unit :=
  match directories with
  | [] => ret tt
  | dir :: rest =>
      let fullPath := baseDir ++ "/" ++ dir in
      _ <- awaitExecCommand env (mkdirCommand fullPath) None ;;
      match onProgress with Some callback => callback dir | None => ret tt end ;;
      createEach env baseDir rest onProgress
  end.

Definition createDirectories (env : Env) (baseDir : string) (directories : list string)
  (onProgress : option (string -> M unit)) : M unit :=
  _ <- awaitExecCommand env (mkdirCommand baseDir) None ;;
  createEach env baseDir directories onProgress.

(** The [for (let i = 0; i < files.length; i++)] loop of [uploadFiles];
    [files] holds the entries from index [i] on. *)
Fixpoint uploadFrom (env : Env) (baseDir : string) (total : nat)
  (onProgress : option (nat -> nat -> string -> M unit))
  (i : nat) (files : list FileEntry) : M unit :=
  match files with
  | [] => ret tt
  | file :: rest =>
      let remotePath := baseDir ++ "/" ++ remote file in
      awaitPutFile env (local_ file) remotePath ;;
      match onProgress with
      | Some callback => callback (i + 1) total (remote file)
      | None => ret tt
      end ;;
      uploadFrom env baseDir total onProgress (i + 1) rest
  end.

Definition uploadFiles (env : Env) (baseDir : string) (files : list FileEntry)
  (onProgress : option (nat -> nat -> string -> M unit)) : M unit :=
  let total := List.length files in
  uploadFrom env baseDir total onProgress 0 files.

Definition scriptNotFound (scriptPath : string) : Error :=
  {| message := "Script not found: " ++ scriptPath |}.

Definition executeScript (env : Env) (baseDir scriptName : string) : M ExecResult :=
  let scriptPath := baseDir ++ "/" ++ scriptName in
  checkResult <- awaitExecCommand env
    ("test -f " ++ dq ++ scriptPath ++ dq ++ " && echo " ++ dq ++ "exists" ++ dq) None ;;
  if negb (includes (stdout checkResult) "exists") then throw (scriptNotFound scriptPath)
  else
    _ <- awaitExecCommand env ("chmod +x " ++ dq ++ scriptPath ++ dq) None ;;
    result <- awaitExecCommand env
      ("cd " ++ dq ++ baseDir ++ dq ++ " && bash " ++ dq ++ scriptPath ++ dq)
      (Some baseDir) ;;
    ret result.

(** [{ hostname, os, uptime }]; the fields hold the outputs before
    [trim()], which only the display uses. *)
Record ServerInfo : Type := {
  info_hostname : string;
  info_os : string;
  info_uptime : string
}.

Definition getServerInfo (env : Env) : M ServerInfo :=
  hostname <- awaitExecCommand env "hostname" None ;;
  os <- awaitExecCommand env
    ("cat /etc/os-release 2>/dev/null | grep PRETTY_NAME | cut -d= -f2 | tr -d '"
       ++ dq ++ "'") None ;;
  uptime <- awaitExecCommand env "uptime -p 2>/dev/null || uptime" None ;;
  ret {| info_hostname := stdout hostname;
         info_os := stdout os;
         info_uptime := stdout uptime |}.

(** A progress callback that does nothing but leave a record of its call. *)
Definition recordProgress : nat -> nat -> string -> M unit :=
  fun current total filename => emit (Progress current total filename).

Definition recordDirectory : string -> M unit :=
  fun dir => emit (DirProgress dir).

(** The configuration [authentication] builds from a readable key file. *)
Definition keyConfig (cfg : ConnectionConfig) (content : string) : SshConfig :=
  {| ssh_host := host cfg; ssh_username := username cfg;
     ssh_privateKey := Some content; ssh_password := None |}.

Definition passwordConfig (cfg : ConnectionConfig) : SshConfig :=
  {| ssh_host := host cfg; ssh_username := username cfg;
     ssh_privateKey := None; ssh_password := password cfg |}.

End SSHDeployer.

Import SSHDeployer.

(** ** What a run is expected to leave in the history *)

Module Expected.

(** The history of uploading [files] without a failure, the first of them
    being file number [i + 1] of [total]: each file is put, then reported. *)
Fixpoint uploaded (baseDir : string) (total i : nat) (files : list FileEntry)
  : list Event :=
  match files with
  | [] => []
  | file :: rest =>
      SshPutFile (local_ file) (baseDir ++ "/" ++ remote file)
      :: Progress (i + 1) total (remote file)
      :: uploaded baseDir total (i + 1) rest
  end.

(** The completed-counts the progress callback was called with. *)
Definition progressCounts (events : list Event) : list nat :=
  flat_map (fun ev => match ev with Progress current _ _ => [current] | _ => [] end)
           events.

(** The transfers that were attempted: local file and remote file. *)
Definition attempted (events : list Event) : list (string * string) :=
  flat_map (fun ev => match ev with SshPutFile l r => [(l, r)] | _ => [] end)
           events.

Definition transferOf (baseDir : string) (file : FileEntry) : string * string :=
  (local_ file, baseDir ++ "/" ++ remote file).

(** The callback [createDirectories] is given: none, or the recording one. *)
Definition directoryCallback (report : bool) : option (string -> M unit) :=
  if report then Some recordDirectory else None.

(** The history of creating [directories] below [baseDir] with every
    command call resolving. *)
Fixpoint created (baseDir : string) (report : bool) (directories : list string)
  : list Event :=
  match directories with
  | [] => []
  | dir :: rest =>
      (SshExecCommand (mkdirCommand (baseDir ++ "/" ++ dir)) None
       :: (if report then [DirProgress dir] else [])
       ++ created baseDir report rest)%list
  end.

(** The commands that were sent. *)
Definition commands (events : list Event) : list string :=
  flat_map (fun ev => match ev with SshExecCommand c _ => [c] | _ => [] end) events.

(** The claim that the error of a failed upload tells how many files were
    completed before it: some reading [describe] of the error gives, in
    every failing run, the number of reported files. *)
Definition uploadErrorTellsCount (describe : Error -> nat) : Prop :=
  forall (env : Env) (baseDir : string) (files : list FileEntry) (e : Error),
    fst (uploadFiles env baseDir files (Some recordProgress) newDeployer) = Throw e ->
    describe e
    = List.length
        (progressCounts
           (trace (snd (uploadFiles env baseDir files (Some recordProgress) newDeployer)))).

End Expected.

Import Expected.

(** ** utils/config.js and commands/deploy.js *)

Module Deploy.

(** What [-r, --run [script]] leaves in [options.run]. *)
Inductive RunOption : Type :=
| RunUndefined                 (* the flag is absent *)
| RunFlag                      (* [-r] alone: [true] *)
| RunScript (script : string). (* [-r script] *)

(** The CLI options of [deploy]. *)
Record Options : Type := {
  opt_config : option string;
  opt_ip : option string;
  opt_user : option string;
  opt_password : option string;
  opt_key : option string;
  opt_directory : option string;
  opt_run : RunOption
}.

(** The configuration; [None] in a field is [undefined]. *)
Record Config : Type := {
  connection : ConnectionConfig;
  deploy : ExcludeConfig;
  afterDeploy : option string   (* [config.scripts.afterDeploy] *)
}.

(** The local side of a run of [deployCommand]:
    - [loadConfig_]: what [loadConfig(configPath)] returns or throws for the
      configuration file found on disk;
    - [cwd]: [process.cwd()];
    - [sourceFiles]: the content of that directory, or the error of the
      [fs] call that fails during the walk;
    - [beyondFragment]: what the scan returns or throws when a pattern
      leaves the modelled fragment of regular expressions;
    - [progressBar]: whether drawing the progress bar throws (a [stdout]
      without [clearLine]). *)
Record Local : Type := {
  loadConfig_ : string -> Error + Config;
  cwd : string;
  sourceFiles : Error + list node;
  beyondFragment : ExcludeConfig -> Error + list FileEntry;
  progressBar : nat -> nat -> string -> option Error
}.

Definition mergeWithCliOptions (config : Config) (options : Options) : Config :=
  {| connection :=
       {| host := or_else (opt_ip options) (host (connection config));
          username := or_else (opt_user options) (username (connection config));
          password := or_else (opt_password options) (password (connection config));
          privateKeyPath := or_else (opt_key options) (privateKeyPath (connection config));
          targetDirectory :=
            or_else (opt_directory options) (targetDirectory (connection config)) |};
     deploy := deploy config;
     afterDeploy := afterDeploy config |}.

Definition missingIf (absent : bool) (field : string) : list string :=
  if absent then [field] else [].

(** The list [missing] that [validateConfig] builds. *)
Definition missingFields (config : Config) : list string :=
  (missingIf (negb (truthy (host (connection config))))
     "host (use -ip or set in config.json)"
   ++ missingIf (negb (truthy (username (connection config))))
     "username (use -u or set in config.json)"
   ++ missingIf (negb (truthy (password (connection config)))
                 && negb (truthy (privateKeyPath (connection config))))
     "password or privateKeyPath (use -p/-k or set in config.json)"
   ++ missingIf (negb (truthy (targetDirectory (connection config))))
     "targetDirectory (use -dir or set in config.json)")%list.

(** [{ isValid, missing }] *)
Record Validation : Type := {
  isValid : bool;
  missing : list string
}.

Definition validateConfig (config : Config) : Validation :=
  {| isValid := Nat.eqb (List.length (missingFields config)) 0;
     missing := missingFields config |}.

Definition ofSum {A : Type} (r : Error + A) : M A :=
  match r with inr a => ret a | inl e => throw e end.

(** [scanDirectory(sourceDir, config.deploy)] with [sourceDir] the current
    directory. *)
Definition scanSource (loc : Local) (excludeConfig : ExcludeConfig) : M (list FileEntry) :=
  match sourceFiles loc with
  | inl e => throw e
  | inr items =>
      match scanDirectory items (cwd loc) excludeConfig (cwd loc) with
      | Some files => ret files
      | None => ofSum (beyondFragment loc excludeConfig)
      end
  end.

(** A method call on [deployer]; the call itself is recorded. *)
Definition calling {A : Type} (m : Method) (body : M A) : M A :=
  emit (Call m) ;; body.

(** The callback the driver hands to [uploadFiles]. *)
Definition drawProgress (loc : Local) : nat -> nat -> string -> M unit :=
  fun current total filename =>
    match progressBar loc current total filename with
    | Some e => throw e
    | None => ret tt
    end.

(** The [if (options.run !== undefined)] block. *)
Definition runScript (env : Env) (config : Config) (options : Options) : M unit :=
  match opt_run options with
  | RunUndefined => ret tt
  | run =>
      let scriptName :=
        match run with
        | RunScript script => script
        | _ => template (afterDeploy config)
        end in
      tryCatch
        (_ <- calling MExecuteScript
                (executeScript env (template (targetDirectory (connection config)))
                   scriptName) ;;
         ret tt)
        (fun scriptError => ret tt)
  end.

(** The part of the [try] block that follows the connection: server
    information, directories, files, script, and the final [disconnect()]. *)
Definition afterConnect (env : Env) (loc : Local) (options : Options)
  (config : Config) (files : list FileEntry) (directories : list string) : M unit :=
  tryCatch
    (_ <- calling MGetServerInfo (getServerInfo env) ;; ret tt)
    (fun e => ret tt) ;;
  (if Nat.ltb 0 (List.length directories) then
     calling MCreateDirectories
       (createDirectories env (template (targetDirectory (connection config)))
          directories None)
   else ret tt) ;;
  calling MUploadFiles
    (uploadFiles env (template (targetDirectory (connection config))) files
       (Some (drawProgress loc))) ;;
  runScript env config options ;;
  calling MDisconnect disconnect.

(** The body of the [try] block of [deployCommand]. *)
Definition deployBody (env : Env) (loc : Local) (options : Options) : M unit :=
  let configPath :=
    template (or_else (opt_config options) (Some "deployment-config.json")) in
  loaded <- ofSum (loadConfig_ loc configPath) ;;
  let config := mergeWithCliOptions loaded options in
  let validation := validateConfig config in
  (if negb (isValid validation) then processExit 1 else ret tt) ;;
  files <- scanSource loc (deploy config) ;;
  let directories := getRemoteDirectories files in
  (if Nat.eqb (List.length files) 0 then processExit 0 else ret tt) ;;
  calling MConnect (connect env (connection config)) ;;
  afterConnect env loc options config files directories.

(** [deployCommand(options)]: the deployer is created, the body runs, and
    the [catch] block reports the error, disconnects and exits with 1. *)
Definition deployCommand (env : Env) (loc : Local) (options : Options)
  : Completion unit * World :=
  tryCatch
    (deployBody env loc options)
    (fun error =>
       calling MDisconnect disconnect ;;
       processExit 1)
    newDeployer.

(** The events of the stages between [connect] and [disconnect]: commands,
    transfers, progress reports and the calls of the stage methods. *)
Definition quiet (ev : Event) : bool :=
  match ev with
  | SshExecCommand _ _ | SshPutFile _ _ | Progress _ _ _ | DirProgress _ => true
  | Call MGetServerInfo | Call MCreateDirectories | Call MUploadFiles
  | Call MExecuteScript => true
  | _ => false
  end.

(** A stage: code that leaves [connected] alone, adds only quiet events to
    the history, and ends normally or by throwing. *)
Definition stage {A : Type} (m : M A) : Prop :=
  forall w, exists r events,
    m w = (r, {| connected := connected w; trace := (trace w ++ events)%list |})
    /\ forallb quiet events = true
    /\ (forall c, r <> Exit c).

End Deploy.

Import Deploy.


(** ** Concrete runs *)

Module Examples.

Definition denied : Error := {| message := "Permission denied" |}.

Definition lost : Error := {| message := "read ECONNRESET" |}.

Definition done : ExecResult := {| stdout := ""; stderr := ""; code := 0 |}.

(** A session provider that connects, refuses the transfer of the local
    files [failPut] selects, answers the commands [failExec] selects with a
    rejection and the commands [badExit] selects with exit status 1. *)
Definition remoteHost (failPut failExec badExit : string -> bool) : Env :=
  {| ssh_connect := fun _ _ => None;
     ssh_execCommand := fun _ command _ =>
       if failExec command then inl lost
       else if badExit command
            then inr {| stdout := ""; stderr := "mkdir: Permission denied"; code := 1 |}
            else inr done;
     ssh_putFile := fun _ localFile _ => if failPut localFile then Some denied else None;
     path_resolve := fun p => "/home/dev/" ++ p;
     fs_existsSync := fun p => String.eqb p "/home/dev/id_rsa";
     fs_readFileSync := fun p =>
       if String.eqb p "/home/dev/id_rsa" then inr "PRIVATE KEY"
       else inl {| message := "ENOENT: no such file or directory" |} |}.

Definition never (s : string) : bool := false.

Definition entry (name : string) : FileEntry :=
  {| local_ := "/work/" ++ name; remote := name |}.

Definition fiveFiles : list FileEntry :=
  [entry "f1"; entry "f2"; entry "f3"; entry "f4"; entry "f5"].

(** The entries of the specification's example for the planner. *)
Definition planned : list FileEntry := [entry "a/b/c.txt"; entry "a/d.txt"].

(** A source tree: the one of the specification's scenario, with a log
    file and a directory whose name looks like a log file added. *)
Definition sourceTree : list node :=
  [ Dir "src" [File "index.js"];
    Dir "node_modules" [File "x.js"; Dir "lib" [File "y.js"]];
    File "deploy.sh";
    File "app.log";
    Dir "old.log" [File "keep.txt"];
    File ".env.local" ].

Definition exclusions : ExcludeConfig :=
  {| excludeDirectories := ["node_modules"];
     excludeFiles := [".env.local"];
     excludePatterns := ["*.log"] |}.

Definition bothCredentials : ConnectionConfig :=
  {| host := Some "192.168.1.100"; username := Some "deploy";
     password := Some "secret"; privateKeyPath := Some "id_rsa";
     targetDirectory := Some "/var/www/app" |}.

Definition noCredentials : ConnectionConfig :=
  {| host := Some "192.168.1.100"; username := Some "deploy";
     password := Some ""; privateKeyPath := None;
     targetDirectory := Some "/var/www/app" |}.

Definition missingKey : ConnectionConfig :=
  {| host := Some "192.168.1.100"; username := Some "deploy";
     password := Some "secret"; privateKeyPath := Some "id_ed25519";
     targetDirectory := Some "/var/www/app" |}.

(** A project with two files to deploy, configured with a password. *)
Definition project : Local :=
  {| loadConfig_ := fun _ =>
       inr {| connection :=
                {| host := Some "192.168.1.100"; username := Some "deploy";
                   password := Some "secret"; privateKeyPath := Some "";
                   targetDirectory := Some "/var/www/app" |};
              deploy := exclusions;
              afterDeploy := Some "deploy.sh" |};
     cwd := "/work";
     sourceFiles :=
       inr [Dir "src" [File "index.js"]; Dir "node_modules" [File "x.js"];
            File "deploy.sh"; File "app.log"];
     beyondFragment := fun _ => inl {| message := "Invalid regular expression" |};
     progressBar := fun _ _ _ => None |}.

Definition plainOptions : Options :=
  {| opt_config := None; opt_ip := None; opt_user := None; opt_password := None;
     opt_key := None; opt_directory := None; opt_run := RunUndefined |}.

End Examples.

Import Examples.

(** ** More of utils/sshDeployer.js *)

Module Session.

(** The commands of [executeScript]. *)
Definition scriptCheckCommand (scriptPath : string) : string :=
  "test -f " ++ dq ++ scriptPath ++ dq ++ " && echo " ++ dq ++ "exists" ++ dq.

Definition chmodCommand (scriptPath : string) : string :=
  "chmod +x " ++ dq ++ scriptPath ++ dq.

Definition runCommand (baseDir scriptPath : string) : string :=
  "cd " ++ dq ++ baseDir ++ dq ++ " && bash " ++ dq ++ scriptPath ++ dq.

(** [directoryExists(dir)] *)
Definition directoryExists (env : Env) (dir : string) : M bool :=
  result <- awaitExecCommand env
    ("test -d " ++ dq ++ dir ++ dq ++ " && echo " ++ dq ++ "exists" ++ dq) None ;;
  ret (includes (stdout result) "exists").

(** A host on which [deploy.sh] exists below [/var/www/app] and ends with
    exit status 3, and on which [chmod] is refused. *)
Definition scriptHost : Env :=
  {| ssh_connect := fun _ _ => None;
     ssh_execCommand := fun _ command _ =>
       if String.eqb command (scriptCheckCommand "/var/www/app/deploy.sh")
       then inr {| stdout := "exists"; stderr := ""; code := 0 |}
       else if String.eqb command (chmodCommand "/var/www/app/deploy.sh")
       then inr {| stdout := ""; stderr := "Operation not permitted"; code := 1 |}
       else inr {| stdout := "building"; stderr := "failed"; code := 3 |};
     ssh_putFile := fun _ _ _ => None;
     path_resolve := fun p => p;
     fs_existsSync := fun _ => false;
     fs_readFileSync := fun _ => inl {| message := "ENOENT" |} |}.

Definition passwordOnly : ConnectionConfig :=
  {| host := Some "192.168.1.100"; username := Some "deploy";
     password := Some "secret"; privateKeyPath := Some "";
     targetDirectory := Some "/var/www/app" |}.

End Session.

Import Session.

(** ** More concrete runs *)

Module Runs.

Definition fullOptions : Options :=
  {| opt_config := None; opt_ip := Some "10.0.0.5"; opt_user := Some "admin";
     opt_password := Some "pw"; opt_key := None; opt_directory := Some "/srv/www";
     opt_run := RunUndefined |}.

(** The configuration [DEFAULT_CONFIG] of utils/config.js, as far as
    [deployCommand] reads it. *)
Definition defaultConfig : Config :=
  {| connection :=
       {| host := Some ""; username := Some ""; password := Some "";
          privateKeyPath := Some ""; targetDirectory := Some "/var/www/app" |};
     deploy :=
       {| excludeDirectories := ["node_modules"; "logs"; ".git"; ".idea"; ".vscode"];
          excludeFiles := ["package-lock.json"; ".env.local"; ".DS_Store"];
          excludePatterns := ["*.log"; "*.tmp"] |};
     afterDeploy := Some "deploy.sh" |}.

(** A directory without a configuration file, holding only files that the
    default exclusions leave out. *)
Definition bareProject : Local :=
  {| loadConfig_ := fun _ => inr defaultConfig;
     cwd := "/work";
     sourceFiles := inr [Dir "node_modules" [File "x.js"]; File "debug.log"];
     beyondFragment := fun _ => inl {| message := "Invalid regular expression" |};
     progressBar := fun _ _ _ => None |}.

(** A project whose files all lie in the source directory itself. *)
Definition flatProject : Local :=
  {| loadConfig_ := fun _ => inr defaultConfig;
     cwd := "/work";
     sourceFiles := inr [File "index.html"; File "app.js"];
     beyondFragment := fun _ => inl {| message := "Invalid regular expression" |};
     progressBar := fun _ _ _ => None |}.

End Runs.

Import Runs.

(** ** Names and trees for the composition of scanner and planner *)

Module Listing.

(** A name as [fs.readdirSync] gives it on a POSIX system where no file
    name holds a backslash: not empty, not [.], without [/] and [\]. *)
Definition listedName (s : string) : bool :=
  plainName s && negb (includes s "\") && negb (String.eqb s ".").

Fixpoint listedTree (n : node) : bool :=
  match n with
  | File name => listedName name
  | Dir name children =>
      listedName name &&
      (fix all (items : list node) : bool :=
         match items with
         | [] => true
         | child :: rest => listedTree child && all rest
         end) children
  end.

Definition noExclusions : ExcludeConfig :=
  {| excludeDirectories := []; excludeFiles := []; excludePatterns := [] |}.

(** The name of a directory entry: not empty, without [/], and neither [.]
    nor [..], which [fs.readdirSync] never lists. *)
Definition entryName (s : string) : bool :=
  plainName s && negb (String.eqb s ".") && negb (String.eqb s "..").

Fixpoint entryTree (n : node) : bool :=
  match n with
  | File name => entryName name
  | Dir name children =>
      entryName name &&
      (fix all (items : list node) : bool :=
         match items with
         | [] => true
         | child :: rest => entryTree child && all rest
         end) children
  end.

(** A normalized absolute directory: [/], or [/] followed by entry names
    with one [/] between them.  [process.cwd()] is one. *)
Definition absoluteDir (dir : string) : bool :=
  match dir with
  | EmptyString => false
  | String c rest =>
      Ascii.eqb c "/" && (negb (nonEmpty rest) || forallb entryName (split "/" rest))
  end.

(** A source directory with a file whose name ends in [log] without being
    a log file. *)
Definition catalogTree : list node :=
  [ Dir "node_modules" [File "x.js"];
    Dir "old.log" [File "keep.txt"];
    File "catalog";
    File "app.log";
    File "notes.txt";
    File ".env.local" ].

End Listing.

Import Listing.

(** ** Kinds of events, for the order of the stages *)

Module Order.

Definition noTransfer (ev : Event) : bool :=
  match ev with SshPutFile _ _ => false | _ => true end.

Definition noMkdir (ev : Event) : bool :=
  match ev with
  | SshExecCommand command _ => negb (startsWith "mkdir -p " command)
  | _ => true
  end.

Definition neither (ev : Event) : bool := noTransfer ev && noMkdir ev.

(** Code that leaves [connected] alone, adds only events of the kind [P] to
    the history, and ends normally or by throwing. *)
Definition stageOf {A : Type} (P : Event -> bool) (m : M A) : Prop :=
  forall w, exists r events,
    m w = (r, {| connected := connected w; trace := (trace w ++ events)%list |})
    /\ forallb P events = true
    /\ (forall c, r <> Exit c).

End Order.

Import Order.

(** ** utils/config.js: loadConfig *)

Module ConfigFile.

(** A key of a JSON object: absent ([None]), or present with its value.
    The model covers the documents in which the connection fields, the
    script name and the project fields, where present, are strings, and the
    exclusions arrays of strings.  A document that holds a value of another
    kind there ([null], a number) is outside the model: a [null] is not
    [undefined], and is not taken for it. *)
Definition key (A : Type) : Type := option A.

(** [{ ...defaults, ...user }] on one key: a key that is present wins. *)
Definition spread {A : Type} (default : A) (user : key A) : A :=
  match user with Some v => v | None => default end.

(** The same for a field that holds [undefined] or a string. *)
Definition spreadString (default : option string) (user : key string) : option string :=
  match user with Some v => Some v | None => default end.

Record UserConnection : Type := {
  u_host : key string;
  u_username : key string;
  u_password : key string;
  u_privateKeyPath : key string;
  u_targetDirectory : key string
}.

Record UserDeploy : Type := {
  u_excludeDirectories : key (list string);
  u_excludeFiles : key (list string);
  u_excludePatterns : key (list string)
}.

Record UserProject : Type := {
  u_repositoryUrl : key string;
  u_projectDirectory : key string
}.

(** What [JSON.parse] makes of the configuration file. *)
Record UserConfig : Type := {
  u_connection : key UserConnection;
  u_deploy : key UserDeploy;
  u_afterDeploy : key string;   (* [scripts.afterDeploy] *)
  u_project : key UserProject
}.

(** [config.project] *)
Record Project : Type := {
  repositoryUrl : option string;
  projectDirectory : option string
}.

(** The object [loadConfig] returns. *)
Record FileConfig : Type := {
  base : Config;
  projectSection : Project
}.

Definition DEFAULT_CONFIG : FileConfig :=
  {| base :=
       {| connection :=
            {| host := Some ""; username := Some ""; password := Some "";
               privateKeyPath := Some ""; targetDirectory := Some "/var/www/app" |};
          deploy :=
            {| excludeDirectories := ["node_modules"; "logs"; ".git"; ".idea"; ".vscode"];
               excludeFiles := ["package-lock.json"; ".env.local"; ".DS_Store"];
               excludePatterns := ["*.log"; "*.tmp"] |};
          afterDeploy := Some "deploy.sh" |};
     projectSection := {| repositoryUrl := Some ""; projectDirectory := Some "." |} |}.

(** [{ ...DEFAULT_CONFIG.connection, ...userConfig.connection }] *)
Definition mergeConnection (user : key UserConnection) : ConnectionConfig :=
  let d := connection (base DEFAULT_CONFIG) in
  match user with
  | None => d
  | Some u =>
      {| host := spreadString (host d) (u_host u);
         username := spreadString (username d) (u_username u);
         password := spreadString (password d) (u_password u);
         privateKeyPath := spreadString (privateKeyPath d) (u_privateKeyPath u);
         targetDirectory := spreadString (targetDirectory d) (u_targetDirectory u) |}
  end.

(** [userConfig.deploy?.excludeX || DEFAULT_CONFIG.deploy.excludeX]: an
    array, even an empty one, is truthy. *)
Definition orDefault (user : key UserDeploy) (field : UserDeploy -> key (list string))
  (default : list string) : list string :=
  match user with
  | Some u => match field u with Some l => l | None => default end
  | None => default
  end.

Definition mergeDeploy (user : key UserDeploy) : ExcludeConfig :=
  let d := deploy (base DEFAULT_CONFIG) in
  {| excludeDirectories := orDefault user u_excludeDirectories (excludeDirectories d);
     excludeFiles := orDefault user u_excludeFiles (excludeFiles d);
     excludePatterns := orDefault user u_excludePatterns (excludePatterns d) |}.

Definition mergeProject (user : key UserProject) : Project :=
  let d := projectSection DEFAULT_CONFIG in
  match user with
  | None => d
  | Some u =>
      {| repositoryUrl := spreadString (repositoryUrl d) (u_repositoryUrl u);
         projectDirectory := spreadString (projectDirectory d) (u_projectDirectory u) |}
  end.

Definition parseFailure (e : Error) : Error :=
  {| message := "Failed to parse config file: " ++ message e |}.

(** [loadConfig(configPath)]; [parse] is [JSON.parse], with the typing of
    the document: it throws where [JSON.parse] or the reading of the parsed
    value throws. *)
Definition loadConfig (env : Env) (parse : string -> Error + UserConfig)
  (configPath : string) : Error + FileConfig :=
  let fullPath := path_resolve env configPath in
  if negb (fs_existsSync env fullPath) then inr DEFAULT_CONFIG
  else
    match fs_readFileSync env fullPath with
    | inl e => inl (parseFailure e)
    | inr configContent =>
        match parse configContent with
        | inl e => inl (parseFailure e)
        | inr userConfig =>
            inr {| base :=
                     {| connection := mergeConnection (u_connection userConfig);
                        deploy := mergeDeploy (u_deploy userConfig);
                        afterDeploy :=
                          spreadString (afterDeploy (base DEFAULT_CONFIG))
                                       (u_afterDeploy userConfig) |};
                   projectSection := mergeProject (u_project userConfig) |}
        end
    end.

(** The empty document [{}]. *)
Definition emptyDocument : UserConfig :=
  {| u_connection := None; u_deploy := None; u_afterDeploy := None; u_project := None |}.

(** The configuration [deployCommand] works with, as [loadConfig] gives it. *)
Definition configOf (r : Error + FileConfig) : Error + Config :=
  match r with inr c => inr (base c) | inl e => inl e end.

(** A local side whose configuration comes from [loadConfig]. *)
Definition localWith (env : Env) (parse : string -> Error + UserConfig) (loc : Local)
  : Local :=
  {| loadConfig_ := fun configPath => configOf (loadConfig env parse configPath);
     cwd := cwd loc;
     sourceFiles := sourceFiles loc;
     beyondFragment := beyondFragment loc;
     progressBar := progressBar loc |}.

Definition noJson (content : string) : Error + UserConfig :=
  inl {| message := "Unexpected end of JSON input" |}.

End ConfigFile.

Import ConfigFile.

(** ** commands/create-project.js *)

Module CreateProject.

(** [options.install]: [-i] gives [true], its absence [undefined]. *)
Inductive Install : Type := InstallUndefined | InstallTrue | InstallFalse.

Record CloneOptions : Type := {
  c_config : option string;
  c_repo : option string;
  c_name : option string;
  c_branch : option string;
  c_depth : option string;
  c_dir : option string;
  c_install : Install
}.

(** What the command does to the outside. *)
Inductive ShellEvent : Type :=
| ExecSync (command : string) (cwd : option string)
| Exited (code : Z).

(** The outside of [createProjectCommand]: the configuration on disk, the
    current directory, and how [execSync] and [fs.existsSync] answer after
    what happened before ([None]: the command succeeded). *)
Record Shell : Type := {
  sh_loadConfig : string -> Error + FileConfig;
  sh_cwd : string;
  sh_resolve : string -> string;
  sh_execSync : list ShellEvent -> string -> option string -> option Error;
  sh_existsSync : list ShellEvent -> string -> bool
}.

(** [s.replace(/\.git$/, '')]: a [.git] at the very end is removed. *)
Fixpoint dropGitSuffix (s : string) : string :=
  if String.eqb s ".git" then EmptyString
  else match s with
       | EmptyString => EmptyString
       | String c s' => String c (dropGitSuffix s')
       end.

(** [repoUrl.split('/').pop().replace(/\.git$/, '')] *)
Definition nameFromUrl (repoUrl : string) : string :=
  dropGitSuffix (last (split "/" repoUrl) EmptyString).

(** The value as a string if it is truthy, else nothing. *)
Definition given (v : option string) : option string :=
  if truthy v then v else None.

Definition gitCommand (options : CloneOptions) (repoUrl : string) : string :=
  "git clone"
  ++ match given (c_branch options) with Some b => " -b " ++ b | None => "" end
  ++ match given (c_depth options) with Some d => " --depth " ++ d | None => "" end
  ++ " " ++ dq ++ repoUrl ++ dq
  ++ match given (c_name options) with Some n => " " ++ dq ++ n ++ dq | None => "" end.

Definition clonedDirName (options : CloneOptions) (repoUrl : string) : string :=
  match given (c_name options) with
  | Some n => n
  | None => nameFromUrl repoUrl
  end.

Definition gitVersion : ShellEvent := ExecSync "git --version" None.

Definition createProjectCommand (shell : Shell) (options : CloneOptions)
  : Completion unit * list ShellEvent :=
  let configPath := template (or_else (c_config options) (Some "config.json")) in
  match sh_loadConfig shell configPath with
  | inl _ => (Exit 1, [Exited 1])                        (* the outer [catch] *)
  | inr config =>
      match given (or_else (c_repo options) (repositoryUrl (projectSection config))) with
      | None => (Exit 1, [Exited 1])
      | Some repoUrl =>
          match sh_execSync shell [] "git --version" None with
          | Some _ => (Exit 1, [gitVersion; Exited 1])
          | None =>
              let clone := ExecSync (gitCommand options repoUrl) (Some (sh_cwd shell)) in
              match sh_execSync shell [gitVersion]
                      (gitCommand options repoUrl) (Some (sh_cwd shell)) with
              | Some _ => (Exit 1, [gitVersion; clone; Exited 1])
              | None =>
                  let clonedPath := sh_resolve shell (clonedDirName options repoUrl) in
                  let packageJsonPath := Path.join clonedPath "package.json" in
                  if sh_existsSync shell [gitVersion; clone] packageJsonPath then
                    match c_install options with
                    | InstallTrue =>
                        (* a failing [npm install] is only a warning *)
                        (Normal tt,
                         [gitVersion; clone; ExecSync "npm install" (Some clonedPath)])
                    | _ => (Normal tt, [gitVersion; clone])
                    end
                  else (Normal tt, [gitVersion; clone])
              end
          end
      end
  end.

Definition bareOptions : CloneOptions :=
  {| c_config := None; c_repo := None; c_name := None; c_branch := None;
     c_depth := None; c_dir := None; c_install := InstallUndefined |}.

(** A machine with git, where every command succeeds; the configuration is
    the default one. *)
Definition workstation : Shell :=
  {| sh_loadConfig := fun _ => inr DEFAULT_CONFIG;
     sh_cwd := "/home/dev";
     sh_resolve := fun p => "/home/dev/" ++ p;
     sh_execSync := fun _ _ _ => None;
     sh_existsSync := fun _ _ => true |}.

End CreateProject.

Import CreateProject.

(** ** commands/scan.js *)

Module NetworkScan.

(** [String(i)] for a non-negative integer: its decimal digits. *)
Definition Number_toString (n : nat) : string :=
  DecimalString.NilEmpty.string_of_uint (Nat.to_uint n).

(** [parts[i]] inside a template literal. *)
Definition part (parts : list string) (i : nat) : string :=
  template (nth_error parts i).

Definition generateMask (ip : string) : string :=
  let parts := split "." ip in
  part parts 0 ++ "." ++ part parts 1 ++ "." ++ part parts 2.

(** The body of the loop of [generateIPRange] for one [i]. *)
Definition candidate (mask localIP : string) (i : nat) : list string :=
  let ip := mask ++ "." ++ Number_toString i in
  if negb (String.eqb ip localIP) then [ip] else [].

(** [for (let i = 1; i < 255; i++)] *)
Definition generateIPRange (mask localIP : string) : list string :=
  flat_map (candidate mask localIP) (seq 1 254).

(** [xs.slice(start, end)] for integers [start] and [end]: a negative
    index counts from the end of the array. *)
Definition Array_slice {A : Type} (start end_ : Z) (xs : list A) : list A :=
  let len := Z.of_nat (List.length xs) in
  let k := if (start <? 0)%Z then Z.max (len + start) 0 else Z.min start len in
  let final := if (end_ <? 0)%Z then Z.max (len + end_) 0 else Z.min end_ len in
  firstn (Z.to_nat (final - k)) (skipn (Z.to_nat k) xs).

(** [options.threads || 1]: [None] stands for [undefined] and [NaN]. *)
Definition batchSizeOf (threads : option Z) : Z :=
  match threads with
  | None => 1
  | Some n => if (n =? 0)%Z then 1 else n
  end.

(** The batch loop of [scanCommand]: [for (let i = 0; i < ips.length;
    i += batchSize)].  Each address of a batch is checked, and the addresses
    with an open port are collected in the order of the batch.  [portOpen]
    is the answer of [checkSSHPort] for an address.  [None]: the loop is
    still running after [fuel] turns. *)
Fixpoint scanLoop (fuel : nat) (portOpen : string -> bool) (ips : list string)
  (batchSize i : Z) (foundHosts : list string) : option (list string) :=
  match fuel with
  | O => None
  | S fuel' =>
      if (i <? Z.of_nat (List.length ips))%Z then
        let batch := Array_slice i (i + batchSize) ips in
        let results := map (fun ip => (ip, portOpen ip)) batch in
        let found := map fst (filter snd results) in
        scanLoop fuel' portOpen ips batchSize (i + batchSize) (foundHosts ++ found)%list
      else Some foundHosts
  end.

(** The object handed to [ssh.connect] by [trySSHConnection]. *)
Record ProbeConfig : Type := {
  p_host : string;
  p_username : option string;
  p_readyTimeout : Z;
  p_tryKeyboard : bool;
  p_password : option string;   (* the key is absent when [None] *)
  p_agent : option (option string)   (* the key, when present, holds SSH_AUTH_SOCK *)
}.

Inductive ProbeEvent : Type :=
| ProbeConnect (config : ProbeConfig)
| ProbeDispose.

(** [{ success, authenticated }] *)
Record ProbeResult : Type := {
  success : bool;
  authenticated : bool
}.

Definition mentionsAuthentication (msg : string) : bool :=
  includes msg "Authentication"
  || includes msg "authentication"
  || includes msg "All configured authentication methods failed".

(** [trySSHConnection(ip, username, password, timeout)]; [connectTo] is
    the answer of [ssh.connect], [authSock] is [process.env.SSH_AUTH_SOCK]. *)
Definition trySSHConnection (connectTo : ProbeConfig -> option Error)
  (authSock : option string) (ip : string) (username password : option string)
  (timeout : Z) : ProbeResult * list ProbeEvent :=
  let config :=
    if truthy password then
      {| p_host := ip; p_username := username; p_readyTimeout := timeout;
         p_tryKeyboard := false; p_password := password; p_agent := None |}
    else
      {| p_host := ip; p_username := username; p_readyTimeout := timeout;
         p_tryKeyboard := false; p_password := None; p_agent := Some authSock |} in
  match connectTo config with
  | None =>
      ({| success := true; authenticated := true |}, [ProbeConnect config; ProbeDispose])
  | Some error =>
      if mentionsAuthentication (message error) then
        ({| success := true; authenticated := false |},
         [ProbeConnect config; ProbeDispose])
      else
        ({| success := false; authenticated := false |},
         [ProbeConnect config; ProbeDispose])
  end.

End NetworkScan.

Import NetworkScan.

(** ** commands/ping.js *)

Module Ping.

(** [{ success, authenticated, error }] *)
Record PingResult : Type := {
  r_success : bool;
  r_authenticated : bool;
  r_error : option string
}.

(** [trySSHConnection] of ping.js. *)
Definition trySSHConnection (connectTo : ProbeConfig -> option Error)
  (authSock : option string) (ip : string) (username password : option string)
  (timeout : Z) : PingResult * list ProbeEvent :=
  let config :=
    if truthy password then
      {| p_host := ip; p_username := username; p_readyTimeout := timeout;
         p_tryKeyboard := false; p_password := password; p_agent := None |}
    else
      {| p_host := ip; p_username := username; p_readyTimeout := timeout;
         p_tryKeyboard := false; p_password := None; p_agent := Some authSock |} in
  match connectTo config with
  | None =>
      ({| r_success := true; r_authenticated := true; r_error := None |},
       [ProbeConnect config; ProbeDispose])
  | Some error =>
      if mentionsAuthentication (message error) then
        ({| r_success := true; r_authenticated := false;
            r_error := Some "Authentication failed" |},
         [ProbeConnect config; ProbeDispose])
      else
        ({| r_success := false; r_authenticated := false;
            r_error := Some (message error) |},
         [ProbeConnect config; ProbeDispose])
  end.

(** The options of [ping]; [None] in [po_timeout] stands for [undefined]
    and [NaN]. *)
Record PingOptions : Type := {
  po_timeout : option Z;
  po_user : option string;
  po_password : option string
}.

Inductive PingEvent : Type :=
| PortCheck (host : string) (timeout : Z)
| Probe (e : ProbeEvent)
| PingExited (code : Z).

(** [options.timeout || 5000] *)
Definition timeoutOf (options : PingOptions) : Z :=
  match po_timeout options with
  | None => 5000
  | Some t => if (t =? 0)%Z then 5000 else t
  end.

(** [pingCommand(host, options)]; [checkSSHPort] is the [success] of the
    port check, whose [duration] is only printed. *)
Definition pingCommand (checkSSHPort : string -> Z -> bool)
  (connectTo : ProbeConfig -> option Error) (authSock : option string)
  (host : option string) (options : PingOptions)
  : Completion unit * list PingEvent :=
  match host with
  | None => (Exit 1%Z, [PingExited 1%Z])
  | Some h =>
      if negb (nonEmpty h) then (Exit 1%Z, [PingExited 1%Z])
      else
        let timeout := timeoutOf options in
        if negb (checkSSHPort h timeout) then
          (Exit 1%Z, [PortCheck h timeout; PingExited 1%Z])
        else if truthy (po_user options) then
          let (result, events) :=
            trySSHConnection connectTo authSock h (po_user options)
              (po_password options) timeout in
          (Normal tt, PortCheck h timeout :: map Probe events)
        else (Normal tt, [PortCheck h timeout])
  end.

End Ping.

(** ** commands/init.js *)

Module Init.

(** What [initCommand] writes: the configuration template or the sample
    script.  The text itself is not modelled. *)
Inductive InitFile : Type := ConfigTemplate | DeployScript.

Inductive InitEvent : Type :=
| WriteFile (path : string) (content : InitFile)
| InitExited (code : Z).

(** The file system as [initCommand] sees it: the answers may depend on
    what has been written so far. *)
Record Disk : Type := {
  d_resolve : string -> string;
  d_existsSync : list InitEvent -> string -> bool;
  d_writeFileSync : list InitEvent -> string -> option Error
}.

Definition initCommand (disk : Disk) : Completion unit * list InitEvent :=
  let configPath := d_resolve disk "deployment-config.json" in
  if d_existsSync disk [] configPath then (Exit 1%Z, [InitExited 1%Z])
  else
    let t := [WriteFile configPath ConfigTemplate] in
    match d_writeFileSync disk [] configPath with
    | Some e => (Throw e, t)
    | None =>
        let deployShPath := d_resolve disk "deploy.sh" in
        if negb (d_existsSync disk t deployShPath) then
          let t' := (t ++ [WriteFile deployShPath DeployScript])%list in
          match d_writeFileSync disk t deployShPath with
          | Some e => (Throw e, t')
          | None => (Normal tt, t')
          end
        else (Normal tt, t)
    end.

End Init.
(** * Properties *)

(** ** matchesPattern *)

Lemma includes_char (c : ascii) (s : string) :
  includes s (String c "") = existsb (Ascii.eqb c) (list_ascii_of_string s).
Proof.
  induction s as [| a s IH]; [reflexivity |].
  cbn [includes startsWith list_ascii_of_string existsb].
  rewrite IH. now destruct (Ascii.eqb c a).
Qed.

Lemma no_star_not_included (s : string) :
  ~ In "*"%char (list_ascii_of_string s) -> includes s "*" = false.
Proof.
  intros H. rewrite includes_char.
  destruct (existsb _ _) eqn:E; [| reflexivity].
  apply existsb_exists in E as (c & Hin & Hc).
  apply Ascii.eqb_eq in Hc. subst c. contradiction.
Qed.

(** C10. A pattern without [*] is compared with the file name by plain
    equality, no regular expression being built: it matches exactly the file
    name that is the same string. *)
Theorem no_star_is_equality (filename pattern : string) :
  ~ In "*"%char (list_ascii_of_string pattern) ->
  matchesOne filename pattern = Some (String.eqb filename pattern)
  /\ (matchesPattern filename [pattern] = Some true <-> filename = pattern).
Proof.
  intros H. apply no_star_not_included in H.
  unfold matchesPattern, Array_some, matchesOne. rewrite H.
  split; [reflexivity |].
  destruct (String.eqb_spec filename pattern) as [-> | N]; split; intros X;
    try reflexivity; try discriminate; contradiction.
Qed.

Lemma no_star_is_equality_witness :
  matchesOne "a.log" ".env.local" = Some false
  /\ (matchesPattern "a.log" [".env.local"] = Some true <-> "a.log" = ".env.local").
Proof.
  apply (no_star_is_equality "a.log" ".env.local").
  cbn. intros H. repeat (destruct H as [H | H]; [discriminate |]). exact H.
Defined.

(** C1. The two examples of the specification hold: [*.log] matches
    [app.log] and does not match [app.log.bak].  But the characters of the
    pattern other than [*] are not escaped: in [*.log] the dot matches any
    character, so the file [catalog] is taken to match, where the matcher of
    the specification says it does not; and a [*] does not run over a line
    feed, where the matcher of the specification lets it stand for any
    characters. *)
Theorem matchesPattern_does_not_escape :
  matchesPattern "app.log" ["*.log"] = Some true
  /\ matchesPattern "app.log.bak" ["*.log"] = Some false
  /\ specMatches "app.log" ["*.log"] = true
  /\ specMatches "app.log.bak" ["*.log"] = false
  /\ matchesPattern "catalog" ["*.log"] = Some true
  /\ specMatches "catalog" ["*.log"] = false
  /\ matchesPattern ("a" ++ String "010" "b.log") ["*.log"] = Some false
  /\ specMatches ("a" ++ String "010" "b.log") ["*.log"] = true.
Proof. repeat split; reflexivity. Qed.

(** On literal patterns and one-line file names the code and the matcher
    of the specification agree. *)

Lemma parse_pending (a : RegExp.atom) (d : ascii) (rest : string) :
  Ascii.eqb d "*" = false ->
  RegExp.parse (Some a) (String d rest)
  = option_map (cons (RegExp.One a)) (RegExp.parse None (String d rest)).
Proof.
  intros H. cbn [RegExp.parse]. rewrite H. cbn [RegExp.flush].
  destruct (if Ascii.eqb d "^" then _ else _); reflexivity.
Qed.

Lemma replaced_head (pattern : string) :
  exists d rest,
    replaceAll "*" ".*" pattern ++ "$" = String d rest /\ Ascii.eqb d "*" = false.
Proof.
  destruct pattern as [| c p]; cbn [replaceAll append].
  - now exists "$"%char, "".
  - destruct (Ascii.eqb c "*") eqn:E; cbn [append]; eauto.
Qed.

Lemma not_syntax (c : ascii) :
  RegExp.isSyntaxCharacter c = false ->
  Ascii.eqb c "^" = false /\ Ascii.eqb c "$" = false /\ Ascii.eqb c "." = false.
Proof.
  unfold RegExp.isSyntaxCharacter. cbn [list_ascii_of_string existsb]. intros H.
  repeat (apply orb_false_elim in H as [? H]). now repeat split.
Qed.

Lemma parse_compiled (pattern : string) :
  literalPattern pattern = true ->
  RegExp.parse None (replaceAll "*" ".*" pattern ++ "$") = Some (compiled pattern).
Proof.
  unfold literalPattern.
  induction pattern as [| c p IH]; [reflexivity |].
  cbn [list_ascii_of_string forallb replaceAll compiled]. intros H.
  apply andb_prop in H as [Hc Hp]. specialize (IH Hp).
  destruct (Ascii.eqb c "*") eqn:E.
  - cbn [append RegExp.parse Ascii.eqb Bool.eqb andb RegExp.isSyntaxCharacter].
    cbn. cbn in IH. now rewrite IH.
  - cbn [orb] in Hc. apply negb_true_iff in Hc.
    destruct (not_syntax c Hc) as (H1 & H2 & H3).
    cbn [append RegExp.parse]. rewrite E, H1, H2, H3, Hc.
    destruct (replaced_head p) as (d & rest & R & D).
    rewrite R in *. rewrite (parse_pending _ d rest D), IH. reflexivity.
Qed.

Lemma search_after_start (r : RegExp.t) (s : string) :
  RegExp.search (RegExp.Begin :: r) false s = false.
Proof. induction s as [| c s IH]; cbn; [reflexivity | exact IH]. Qed.

Lemma matchFrom_compiled (pattern : string) :
  forall (s : string) (b : bool),
    singleLine s = true ->
    RegExp.matchFrom (compiled pattern) b s = globMatches pattern s.
Proof.
  induction pattern as [| c p IH]; intros s b L.
  - cbn. now rewrite andb_true_r.
  - cbn [compiled globMatches]. destruct (Ascii.eqb c "*") eqn:E.
    + cbn [RegExp.matchFrom]. revert b.
      induction s as [| d s IHs]; intros b.
      * now rewrite IH, orb_false_r.
      * unfold singleLine in L. cbn [list_ascii_of_string forallb] in L.
        apply andb_prop in L as [Ld Ls].
        rewrite IH by (unfold singleLine; cbn; now rewrite Ld).
        cbn [RegExp.atomMatches]. rewrite Ld. cbn [andb].
        now rewrite (IHs Ls).
    + cbn [RegExp.matchFrom RegExp.atomMatches]. destruct s as [| d s]; [reflexivity |].
      unfold singleLine in L. cbn [list_ascii_of_string forallb] in L.
      apply andb_prop in L as [_ Ls]. now rewrite (IH s false Ls).
Qed.

Lemma glob_without_star (pattern filename : string) :
  includes pattern "*" = false ->
  globMatches pattern filename = String.eqb filename pattern.
Proof.
  revert filename. induction pattern as [| c p IH]; intros s H.
  - now destruct s.
  - cbn [includes startsWith] in H. apply orb_false_elim in H as [H1 H2].
    rewrite andb_true_r, Ascii.eqb_sym in H1.
    cbn [globMatches]. rewrite H1.
    destruct s as [| d s]; [reflexivity |]. cbn [String.eqb].
    rewrite (IH s H2), (Ascii.eqb_sym d c).
    destruct (Ascii.eqb c d); reflexivity.
Qed.

Lemma matchesOne_on_literal_patterns (filename pattern : string) :
  literalPattern pattern = true -> singleLine filename = true ->
  matchesOne filename pattern = Some (globMatches pattern filename).
Proof.
  intros P L. unfold matchesOne. destruct (includes pattern "*") eqn:E.
  - unfold RegExp.RegExp_new.
    change ("^" ++ replaceAll "*" ".*" pattern ++ "$")
      with (String "^" (replaceAll "*" ".*" pattern ++ "$")).
    cbn [RegExp.parse Ascii.eqb Bool.eqb andb RegExp.flush].
    rewrite (parse_compiled pattern P). cbn [option_map app].
    unfold RegExp.test. destruct filename as [| c s]; cbn [RegExp.search RegExp.matchFrom andb].
    + now rewrite orb_false_r, matchFrom_compiled.
    + now rewrite search_after_start, orb_false_r, matchFrom_compiled.
  - now rewrite glob_without_star.
Qed.

(** ** The session: connect and disconnect *)

(** Lists of events, brought to the form [e1 :: e2 :: ... ++ l ++ ...]. *)
Tactic Notation "list_assoc" :=
  cbn [app]; rewrite <- ?app_assoc; cbn [app].
Tactic Notation "list_assoc" "in" hyp(H) :=
  cbn [app] in H; rewrite <- ?app_assoc in H; cbn [app] in H.

Lemma world_eta (w : World) :
  {| connected := connected w; trace := trace w |} = w.
Proof. destruct w; reflexivity. Qed.

(** C8. [disconnect()] never throws; on a session that is not connected
    (never connected, or disconnected before) it changes nothing and touches
    nothing outside, on a connected session it disposes of the underlying
    connection and leaves the session disconnected; a second call is
    therefore a no-op. *)
Theorem disconnect_idempotent (w : World) :
  disconnect w =
    (Normal tt,
     if connected w
     then {| connected := false; trace := (trace w ++ [SshDispose])%list |}
     else w)
  /\ connected (snd (disconnect w)) = false
  /\ disconnect (snd (disconnect w)) = (Normal tt, snd (disconnect w))
  /\ disconnect newDeployer = (Normal tt, newDeployer).
Proof.
  destruct w as [[|] tr]; cbv [disconnect bind getConnected sshDispose emit setConnected ret];
    simpl; repeat split; reflexivity.
Qed.

(** C9. Without a private key path and without a password [connect] throws
    'No authentication method provided (password or private key)'; with a
    key path whose file does not exist it throws 'Private key file not
    found: ...'.  Either way nothing is sent to the session provider and the
    deployer is left as it was, so [connected] stays false. *)
Theorem connect_refuses_before_network (env : Env) (cfg : ConnectionConfig) (w : World) :
  (truthy (privateKeyPath cfg) = false ->
   truthy (password cfg) = false ->
   connect env cfg w = (Throw noAuthentication, w))
  /\
  (truthy (privateKeyPath cfg) = true ->
   fs_existsSync env (path_resolve env (template (privateKeyPath cfg))) = false ->
   connect env cfg w =
     (Throw (keyNotFound (path_resolve env (template (privateKeyPath cfg)))), w)).
Proof.
  split; intros H1 H2; unfold connect, authentication, bind, throw;
    rewrite H1, H2; reflexivity.
Qed.

Lemma connect_trace (env : Env) (cfg : ConnectionConfig) (w : World) :
  trace (snd (connect env cfg w)) = trace w
  \/ (exists content,
        truthy (privateKeyPath cfg) = true
        /\ fs_readFileSync env (path_resolve env (template (privateKeyPath cfg)))
           = inr content
        /\ trace (snd (connect env cfg w))
           = (trace w ++ [SshConnect (keyConfig cfg content)])%list)
  \/ (truthy (privateKeyPath cfg) = false
      /\ truthy (password cfg) = true
      /\ trace (snd (connect env cfg w))
         = (trace w ++ [SshConnect (passwordConfig cfg)])%list).
Proof.
  unfold connect, authentication, bind, throw, ret, awaitConnect, setConnected.
  destruct (truthy (privateKeyPath cfg)) eqn:K.
  - destruct (fs_existsSync env _); simpl; [| now left].
    destruct (fs_readFileSync env _) as [e | content] eqn:R; simpl; [now left |].
    right; left. exists content. repeat split.
    destruct (ssh_connect env _ _); reflexivity.
  - destruct (truthy (password cfg)) eqn:P; simpl; [| now left].
    right; right. repeat split.
    destruct (ssh_connect env _ _); reflexivity.
Qed.

(** C7. A non-empty private key path wins over a password that is present
    too: when its file can be read, the one call to the session provider
    carries the key and no password; and whenever a call to the session
    provider carries a password, no private key path was given. *)
Theorem key_over_password (env : Env) (cfg : ConnectionConfig) (w : World) :
  (forall content,
     truthy (privateKeyPath cfg) = true ->
     fs_existsSync env (path_resolve env (template (privateKeyPath cfg))) = true ->
     fs_readFileSync env (path_resolve env (template (privateKeyPath cfg))) = inr content ->
     trace (snd (connect env cfg w))
     = (trace w ++ [SshConnect (keyConfig cfg content)])%list)
  /\
  (forall c,
     trace (snd (connect env cfg w)) = (trace w ++ [SshConnect c])%list ->
     ssh_password c <> None ->
     truthy (privateKeyPath cfg) = false /\ c = passwordConfig cfg)
  /\
  (forall c,
     trace (snd (connect env cfg w)) = (trace w ++ [SshConnect c])%list ->
     truthy (privateKeyPath cfg) = true ->
     ssh_password c = None /\ exists content, c = keyConfig cfg content).
Proof.
  split; [| split].
  - intros content K X R.
    unfold connect, authentication, bind, ret, awaitConnect, setConnected.
    rewrite K, X, R. simpl.
    destruct (ssh_connect env _ _); reflexivity.
  - intros c T P.
    destruct (connect_trace env cfg w) as [E | [(content & K & _ & E) | (K & _ & E)]];
      rewrite E in T.
    + exfalso. rewrite <- (app_nil_r (trace w)) in T at 1.
      apply app_inv_head in T. discriminate.
    + apply app_inv_head in T. injection T as <-. now elim P.
    + apply app_inv_head in T. injection T as <-. now split.
  - intros c T K.
    destruct (connect_trace env cfg w) as [E | [(content & _ & _ & E) | (K' & _ & E)]];
      rewrite E in T.
    + exfalso. rewrite <- (app_nil_r (trace w)) in T at 1.
      apply app_inv_head in T. discriminate.
    + apply app_inv_head in T. injection T as <-. split; [reflexivity | now exists content].
    + congruence.
Qed.

Lemma connect_refuses_before_network_witness :
  connect (remoteHost never never never) noCredentials newDeployer
  = (Throw noAuthentication, newDeployer)
  /\ connect (remoteHost never never never) missingKey newDeployer
     = (Throw (keyNotFound "/home/dev/id_ed25519"), newDeployer).
Proof.
  destruct (connect_refuses_before_network
              (remoteHost never never never) noCredentials newDeployer) as [H1 _].
  destruct (connect_refuses_before_network
              (remoteHost never never never) missingKey newDeployer) as [_ H2].
  split; [apply H1; reflexivity | apply H2; reflexivity].
Defined.

Lemma key_over_password_witness :
  trace (snd (connect (remoteHost never never never) bothCredentials newDeployer))
  = [SshConnect (keyConfig bothCredentials "PRIVATE KEY")].
Proof.
  destruct (key_over_password
              (remoteHost never never never) bothCredentials newDeployer) as [H _].
  apply (H "PRIVATE KEY"); reflexivity.
Defined.

(** ** uploadFiles *)

Lemma progressCounts_uploaded (baseDir : string) (total : nat) (files : list FileEntry) :
  forall i, progressCounts (uploaded baseDir total i files) = seq (i + 1) (List.length files).
Proof.
  induction files as [| f rest IH]; intros i; simpl; [reflexivity |].
  rewrite IH. now replace (i + 1 + 1) with (S (i + 1)) by lia.
Qed.

Lemma attempted_uploaded (baseDir : string) (total : nat) (files : list FileEntry) :
  forall i, attempted (uploaded baseDir total i files) = map (transferOf baseDir) files.
Proof.
  induction files as [| f rest IH]; intros i; simpl; [reflexivity |].
  now rewrite IH.
Qed.

Lemma uploadFrom_fails (env : Env) (baseDir : string) (total : nat) :
  forall (k : nat) (files : list FileEntry) (i : nat) (file : FileEntry) (e : Error) (w : World),
    nth_error files k = Some file ->
    (forall j fj, j < k -> nth_error files j = Some fj ->
       ssh_putFile env (trace w ++ uploaded baseDir total i (firstn j files))%list
         (local_ fj) (baseDir ++ "/" ++ remote fj) = None) ->
    ssh_putFile env (trace w ++ uploaded baseDir total i (firstn k files))%list
      (local_ file) (baseDir ++ "/" ++ remote file) = Some e ->
    uploadFrom env baseDir total (Some recordProgress) i files w
    = (Throw e,
       {| connected := connected w;
          trace := (trace w ++ uploaded baseDir total i (firstn k files)
                    ++ [SshPutFile (local_ file) (baseDir ++ "/" ++ remote file)])%list |}).
Proof.
  induction k as [| k IH]; intros files i file e w Hk Hok Hfail;
    destruct files as [| f0 rest]; try discriminate; simpl in Hk.
  - injection Hk as ->. cbn [firstn uploaded] in Hfail. rewrite app_nil_r in Hfail.
    cbn [uploadFrom firstn uploaded]. unfold bind, awaitPutFile. now rewrite Hfail.
  - pose proof (Hok 0 f0 (Nat.lt_0_succ k) eq_refl) as H0.
    cbn [firstn uploaded] in H0. rewrite app_nil_r in H0.
    cbn [uploadFrom]. unfold bind at 1. unfold awaitPutFile. rewrite H0.
    unfold bind at 1. unfold recordProgress, emit. cbn [trace connected].
    rewrite (IH rest (i + 1) file e _ Hk).
    + cbn [trace connected firstn uploaded]. f_equal. f_equal.
      rewrite <- !app_assoc. reflexivity.
    + intros j fj Hj Hn. cbn [trace].
      specialize (Hok (S j) fj (proj1 (Nat.succ_lt_mono j k) Hj) Hn).
      cbn [firstn uploaded] in Hok. rewrite <- !app_assoc. exact Hok.
    + cbn [trace]. cbn [firstn uploaded] in Hfail.
      rewrite <- !app_assoc. exact Hfail.
Qed.

(** C3 (amended). Files are transferred one after the other.  If the
    transfers of the first [k] files succeed and the transfer of file
    [k + 1] fails with [e], then the progress callback has been called
    exactly [k] times, with the counts 1, ..., [k]; the transfers attempted
    are those of the first [k + 1] files and no other; and the error that
    comes out is [e] itself, as the session provider gave it. *)
Theorem upload_stops_at_first_failure
  (env : Env) (baseDir : string) (files : list FileEntry)
  (k : nat) (file : FileEntry) (e : Error) (w : World) :
  nth_error files k = Some file ->
  (forall j fj, j < k -> nth_error files j = Some fj ->
     ssh_putFile env
       (trace w ++ uploaded baseDir (List.length files) 0 (firstn j files))%list
       (local_ fj) (baseDir ++ "/" ++ remote fj) = None) ->
  ssh_putFile env
    (trace w ++ uploaded baseDir (List.length files) 0 (firstn k files))%list
    (local_ file) (baseDir ++ "/" ++ remote file) = Some e ->
  exists events,
    uploadFiles env baseDir files (Some recordProgress) w
    = (Throw e, {| connected := connected w; trace := (trace w ++ events)%list |})
    /\ progressCounts events = seq 1 k
    /\ attempted events = map (transferOf baseDir) (firstn (k + 1) files).
Proof.
  intros Hk Hok Hfail.
  exists (uploaded baseDir (List.length files) 0 (firstn k files)
          ++ [SshPutFile (local_ file) (baseDir ++ "/" ++ remote file)])%list.
  split; [| split].
  - unfold uploadFiles. now apply uploadFrom_fails.
  - unfold progressCounts. rewrite flat_map_app. fold (progressCounts
      (uploaded baseDir (List.length files) 0 (firstn k files))).
    rewrite progressCounts_uploaded. simpl. rewrite app_nil_r.
    rewrite firstn_length_le; [reflexivity |].
    apply Nat.lt_le_incl. apply nth_error_Some. congruence.
  - unfold attempted. rewrite flat_map_app. fold (attempted
      (uploaded baseDir (List.length files) 0 (firstn k files))).
    rewrite attempted_uploaded. simpl.
    clear Hok Hfail. revert files Hk.
    induction k as [| k IH]; intros [| f0 rest] Hk; try discriminate; simpl in *.
    + now injection Hk as ->.
    + f_equal. now apply IH.
Qed.

Lemma upload_stops_at_first_failure_witness :
  exists events,
    uploadFiles (remoteHost (String.eqb "/work/f3") never never) "/srv/app" fiveFiles
      (Some recordProgress) newDeployer
    = (Throw denied, {| connected := false; trace := events |})
    /\ progressCounts events = [1; 2]
    /\ attempted events
       = [("/work/f1", "/srv/app/f1"); ("/work/f2", "/srv/app/f2");
          ("/work/f3", "/srv/app/f3")].
Proof.
  apply (upload_stops_at_first_failure
           (remoteHost (String.eqb "/work/f3") never never) "/srv/app" fiveFiles
           2 (entry "f3") denied newDeployer).
  - reflexivity.
  - intros [| [| j]] fj Hj Hn; [| | lia]; injection Hn as <-; reflexivity.
  - reflexivity.
Defined.

(** The error of a failed upload is the session provider's and nothing
    more: the same error comes out whether no file or two files were
    completed, so no reading of it tells the count. *)
Lemma upload_error_tells_nothing :
  ~ exists describe, uploadErrorTellsCount describe.
Proof.
  intros [describe H].
  pose proof (H (remoteHost (String.eqb "/work/f1") never never) "/srv/app"
                fiveFiles denied eq_refl) as H0.
  pose proof (H (remoteHost (String.eqb "/work/f3") never never) "/srv/app"
                fiveFiles denied eq_refl) as H2.
  vm_compute in H0, H2. congruence.
Qed.

(** ** createDirectories *)

Lemma firstn_snoc {A : Type} (l : list A) (k : nat) (x : A) :
  nth_error l k = Some x -> firstn (k + 1) l = (firstn k l ++ [x])%list.
Proof.
  revert l. induction k as [| k IH]; intros [| y l] H; try discriminate; cbn in *.
  - now injection H as ->.
  - f_equal. now apply IH.
Qed.

Lemma commands_created (baseDir : string) (report : bool) (directories : list string) :
  commands (created baseDir report directories)
  = map (fun d => mkdirCommand (baseDir ++ "/" ++ d)) directories.
Proof.
  induction directories as [| d rest IH]; [reflexivity |].
  cbn [created map]. unfold commands in *. cbn [flat_map app].
  rewrite flat_map_app, IH. now destruct report.
Qed.

Lemma createEach_fails (env : Env) (baseDir : string) (report : bool) :
  forall (k : nat) (directories : list string) (dir : string) (e : Error) (w : World),
    nth_error directories k = Some dir ->
    (forall j dj, j < k -> nth_error directories j = Some dj ->
       exists result,
         ssh_execCommand env (trace w ++ created baseDir report (firstn j directories))%list
           (mkdirCommand (baseDir ++ "/" ++ dj)) None = inr result) ->
    ssh_execCommand env (trace w ++ created baseDir report (firstn k directories))%list
      (mkdirCommand (baseDir ++ "/" ++ dir)) None = inl e ->
    createEach env baseDir directories (directoryCallback report) w
    = (Throw e,
       {| connected := connected w;
          trace := (trace w ++ created baseDir report (firstn k directories)
                    ++ [SshExecCommand (mkdirCommand (baseDir ++ "/" ++ dir)) None])%list |}).
Proof.
  induction k as [| k IH]; intros directories dir e w Hk Hok Hfail;
    destruct directories as [| d0 rest]; try discriminate; simpl in Hk.
  - injection Hk as ->. cbn [firstn created] in Hfail. rewrite app_nil_r in Hfail.
    cbn [createEach firstn created]. unfold bind, awaitExecCommand. now rewrite Hfail.
  - destruct (Hok 0 d0 (Nat.lt_0_succ k) eq_refl) as [r0 H0].
    cbn [firstn created] in H0. rewrite app_nil_r in H0.
    cbn [createEach]. unfold bind at 1. unfold awaitExecCommand. rewrite H0.
    assert (Hcb : forall w0 : World,
               match directoryCallback report with
               | Some callback => callback d0
               | None => ret tt
               end w0
               = (Normal tt,
                  {| connected := connected w0;
                     trace := (trace w0 ++ (if report then [DirProgress d0] else []))%list |})).
    { intros w0. destruct report; cbn; [reflexivity |].
      rewrite app_nil_r. now rewrite world_eta. }
    unfold bind at 1. rewrite Hcb. cbn [trace connected].
    rewrite (IH rest dir e _ Hk).
    + cbn [trace connected firstn created]. f_equal. f_equal.
      list_assoc. reflexivity.
    + intros j dj Hj Hn. cbn [trace].
      destruct (Hok (S j) dj (proj1 (Nat.succ_lt_mono j k) Hj) Hn) as [r Hr].
      exists r. cbn [firstn created] in Hr. list_assoc. list_assoc in Hr. exact Hr.
    + cbn [trace]. cbn [firstn created] in Hfail.
      list_assoc. list_assoc in Hfail. exact Hfail.
Qed.

(** C2 (amended). [createDirectories] sends one [mkdir -p] for the base
    directory and then one per directory, in the order of the list.  If the
    command calls for the base directory and the first [k] directories
    resolve (with whatever exit status) and the call for directory [k + 1]
    rejects with [e], the remaining directories are not attempted and the
    error that comes out is [e] itself. *)
Theorem createDirectories_stops_at_first_rejection
  (env : Env) (baseDir : string) (directories : list string) (report : bool)
  (k : nat) (dir : string) (e : Error) (r0 : ExecResult) (w : World) :
  let w0 := {| connected := connected w;
               trace := (trace w ++ [SshExecCommand (mkdirCommand baseDir) None])%list |} in
  ssh_execCommand env (trace w) (mkdirCommand baseDir) None = inr r0 ->
  nth_error directories k = Some dir ->
  (forall j dj, j < k -> nth_error directories j = Some dj ->
     exists result,
       ssh_execCommand env (trace w0 ++ created baseDir report (firstn j directories))%list
         (mkdirCommand (baseDir ++ "/" ++ dj)) None = inr result) ->
  ssh_execCommand env (trace w0 ++ created baseDir report (firstn k directories))%list
    (mkdirCommand (baseDir ++ "/" ++ dir)) None = inl e ->
  exists events,
    createDirectories env baseDir directories (directoryCallback report) w
    = (Throw e, {| connected := connected w; trace := (trace w ++ events)%list |})
    /\ commands events
       = (mkdirCommand baseDir
          :: map (fun d => mkdirCommand (baseDir ++ "/" ++ d)) (firstn (k + 1) directories)).
Proof.
  intros w0 Hbase Hk Hok Hfail.
  exists ([SshExecCommand (mkdirCommand baseDir) None]
          ++ created baseDir report (firstn k directories)
          ++ [SshExecCommand (mkdirCommand (baseDir ++ "/" ++ dir)) None])%list.
  split.
  - unfold createDirectories, bind at 1. unfold awaitExecCommand. rewrite Hbase.
    fold w0. rewrite (createEach_fails env baseDir report k directories dir e w0 Hk Hok Hfail).
    subst w0. cbn [trace connected]. rewrite <- !app_assoc. reflexivity.
  - unfold commands. rewrite !flat_map_app.
    fold (commands (created baseDir report (firstn k directories))).
    rewrite commands_created, (firstn_snoc _ _ _ Hk), map_app. reflexivity.
Qed.

Lemma createDirectories_base_rejected
  (env : Env) (baseDir : string) (directories : list string)
  (onProgress : option (string -> M unit)) (e : Error) (w : World) :
  ssh_execCommand env (trace w) (mkdirCommand baseDir) None = inl e ->
  createDirectories env baseDir directories onProgress w
  = (Throw e,
     {| connected := connected w;
        trace := (trace w ++ [SshExecCommand (mkdirCommand baseDir) None])%list |}).
Proof.
  intros H. unfold createDirectories, bind, awaitExecCommand. now rewrite H.
Qed.

Lemma createDirectories_stops_at_first_rejection_witness :
  exists events,
    createDirectories
      (remoteHost never (String.eqb (mkdirCommand "/srv/app/a/b")) never)
      "/srv/app" ["a"; "a/b"; "c"] None newDeployer
    = (Throw lost, {| connected := false; trace := events |})
    /\ commands events
       = [mkdirCommand "/srv/app"; mkdirCommand "/srv/app/a"; mkdirCommand "/srv/app/a/b"].
Proof.
  apply (createDirectories_stops_at_first_rejection
           (remoteHost never (String.eqb (mkdirCommand "/srv/app/a/b")) never)
           "/srv/app" ["a"; "a/b"; "c"] false 1 "a/b" lost done newDeployer).
  - reflexivity.
  - reflexivity.
  - intros [| j] dj Hj Hn; [| lia]. injection Hn as <-. now exists done.
  - reflexivity.
Defined.

(** A [mkdir] that fails on the remote side (exit status 1, 'Permission
    denied') does not stop [createDirectories]: the next directories are
    attempted and the call ends normally.  And when the call does end with
    an error, the error is the session provider's, which need not name any
    path. *)
Lemma createDirectories_ignores_exit_status :
  (exists result,
     ssh_execCommand (remoteHost never never (String.eqb (mkdirCommand "/srv/app/a")))
       [SshExecCommand (mkdirCommand "/srv/app") None]
       (mkdirCommand "/srv/app/a") None = inr result
     /\ code result = 1%Z)
  /\ createDirectories (remoteHost never never (String.eqb (mkdirCommand "/srv/app/a")))
       "/srv/app" ["a"; "a/b"] None newDeployer
     = (Normal tt,
        {| connected := false;
           trace := [SshExecCommand (mkdirCommand "/srv/app") None;
                     SshExecCommand (mkdirCommand "/srv/app/a") None;
                     SshExecCommand (mkdirCommand "/srv/app/a/b") None] |})
  /\ (exists w,
        createDirectories (remoteHost never (String.eqb (mkdirCommand "/srv/app/a")) never)
          "/srv/app" ["a"; "a/b"] None newDeployer
        = (Throw lost, w)
        /\ includes (message lost) "/srv/app/a" = false).
Proof.
  split; [| split].
  - eexists. split; reflexivity.
  - reflexivity.
  - eexists. split; reflexivity.
Qed.

(** ** deployCommand *)

Lemma stage_ret {A : Type} (a : A) : stage (ret a).
Proof.
  intros w. exists (Normal a), []. rewrite app_nil_r, world_eta.
  repeat split; discriminate.
Qed.

Lemma stage_throw {A : Type} (e : Error) : stage (@throw A e).
Proof.
  intros w. exists (Throw e), []. rewrite app_nil_r, world_eta.
  repeat split; discriminate.
Qed.

Lemma stage_emit (ev : Event) : quiet ev = true -> stage (emit ev).
Proof.
  intros Q w. exists (Normal tt), [ev]. cbn. rewrite Q.
  repeat split; discriminate.
Qed.

Lemma stage_bind {A B : Type} (m : M A) (k : A -> M B) :
  stage m -> (forall a, stage (k a)) -> stage (bind m k).
Proof.
  intros Hm Hk w. destruct (Hm w) as (r & ev1 & E1 & Q1 & N1).
  unfold bind. rewrite E1. destruct r as [a | e | c].
  - destruct (Hk a {| connected := connected w; trace := (trace w ++ ev1)%list |})
      as (r2 & ev2 & E2 & Q2 & N2).
    exists r2, (ev1 ++ ev2)%list. rewrite E2. cbn [connected trace].
    rewrite app_assoc, forallb_app, Q1, Q2. now repeat split.
  - exists (Throw e), ev1. repeat split; [assumption | discriminate].
  - now elim (N1 c).
Qed.

Lemma stage_tryCatch {A : Type} (body : M A) (handler : Error -> M A) :
  stage body -> (forall e, stage (handler e)) -> stage (tryCatch body handler).
Proof.
  intros Hb Hh w. destruct (Hb w) as (r & ev1 & E1 & Q1 & N1).
  unfold tryCatch. rewrite E1. destruct r as [a | e | c].
  - exists (Normal a), ev1. repeat split; [assumption | discriminate].
  - destruct (Hh e {| connected := connected w; trace := (trace w ++ ev1)%list |})
      as (r2 & ev2 & E2 & Q2 & N2).
    exists r2, (ev1 ++ ev2)%list. rewrite E2. cbn [connected trace].
    rewrite app_assoc, forallb_app, Q1, Q2. now repeat split.
  - now elim (N1 c).
Qed.

Lemma stage_execCommand (env : Env) (command : string) (cwd : option string) :
  stage (awaitExecCommand env command cwd).
Proof.
  intros w. unfold awaitExecCommand.
  destruct (ssh_execCommand env (trace w) command cwd) as [e | r];
    [exists (Throw e) | exists (Normal r)];
    exists [SshExecCommand command cwd]; repeat split; discriminate.
Qed.

Lemma stage_putFile (env : Env) (localFile remoteFile : string) :
  stage (awaitPutFile env localFile remoteFile).
Proof.
  intros w. unfold awaitPutFile.
  destruct (ssh_putFile env (trace w) localFile remoteFile) as [e |];
    [exists (Throw e) | exists (Normal tt)];
    exists [SshPutFile localFile remoteFile]; repeat split; discriminate.
Qed.

Lemma stage_calling {A : Type} (m : Method) (body : M A) :
  quiet (Call m) = true -> stage body -> stage (calling m body).
Proof.
  intros Q Hb. unfold calling. apply stage_bind; [now apply stage_emit | now intros _].
Qed.

Create HintDb stages.

#[local] Hint Resolve stage_ret stage_throw stage_bind stage_tryCatch
  stage_execCommand stage_putFile stage_calling : stages.

Lemma stage_createDirectories (env : Env) (baseDir : string) (directories : list string) :
  stage (createDirectories env baseDir directories None).
Proof.
  unfold createDirectories. apply stage_bind; [auto with stages |]. intros _.
  induction directories as [| d rest IH]; cbn [createEach]; auto 10 with stages.
Qed.

Lemma stage_drawProgress (loc : Local) (current total : nat) (filename : string) :
  stage (drawProgress loc current total filename).
Proof.
  unfold drawProgress. destruct (progressBar loc current total filename);
    auto with stages.
Qed.

Lemma stage_uploadFiles (env : Env) (loc : Local) (baseDir : string)
  (files : list FileEntry) :
  stage (uploadFiles env baseDir files (Some (drawProgress loc))).
Proof.
  unfold uploadFiles. generalize (List.length files) as total, 0 as i.
  induction files as [| f rest IH]; intros total i; cbn [uploadFrom];
    auto 10 using stage_drawProgress with stages.
Qed.

Lemma stage_executeScript (env : Env) (baseDir scriptName : string) :
  stage (executeScript env baseDir scriptName).
Proof.
  unfold executeScript. apply stage_bind; [auto with stages |].
  intros checkResult. destruct (negb _); auto 10 with stages.
Qed.

Lemma stage_getServerInfo (env : Env) : stage (getServerInfo env).
Proof. unfold getServerInfo. auto 10 with stages. Qed.

Lemma stage_runScript (env : Env) (config : Config) (options : Options) :
  stage (runScript env config options).
Proof.
  unfold runScript.
  destruct (opt_run options); auto 10 using stage_executeScript with stages.
Qed.

(** What the [catch] block of [deployCommand] does. *)
Lemma catch_block (w : World) :
  (calling MDisconnect disconnect ;; processExit 1) w
  = (@Exit unit 1,
     {| connected := false;
        trace := (trace w ++ Call MDisconnect
                  :: (if connected w then [SshDispose] else []) ++ [ProcessExit 1%Z])%list |}).
Proof.
  destruct w as [[|] tr];
    cbv [calling bind emit disconnect getConnected sshDispose setConnected ret
         processExit connected trace];
    now list_assoc.
Qed.

Ltac run_stage H R :=
  let r := fresh "r" in
  let ev := fresh "ev" in
  let E := fresh "E" in
  let Q := fresh "Q" in
  let N := fresh "N" in
  match type of R with
  | _ = bind _ _ ?w =>
      destruct (H w) as (r & ev & E & Q & N);
      unfold bind at 1 in R; rewrite E in R;
      destruct r as [? | ? | ?]; [| | exfalso; eapply N; reflexivity];
      cbn [connected trace] in R
  end.

Lemma afterConnect_run (env : Env) (loc : Local) (options : Options)
  (config : Config) (files : list FileEntry) (directories : list string) (w : World) :
  connected w = true ->
  exists stages,
    forallb quiet stages = true
    /\ (afterConnect env loc options config files directories w
        = (Normal tt,
           {| connected := false;
              trace := (trace w ++ stages ++ [Call MDisconnect; SshDispose])%list |})
        \/ exists e,
             afterConnect env loc options config files directories w
             = (Throw e, {| connected := true; trace := (trace w ++ stages)%list |})).
Proof.
  intros C.
  remember (afterConnect env loc options config files directories w) as res eqn:R.
  unfold afterConnect in R.
  assert (S1 : stage (tryCatch (_ <- calling MGetServerInfo (getServerInfo env) ;; ret tt)
                               (fun _ => ret tt)))
    by auto 10 using stage_getServerInfo with stages.
  assert (S2 : stage (if Nat.ltb 0 (List.length directories)
                      then calling MCreateDirectories
                             (createDirectories env
                                (template (targetDirectory (connection config)))
                                directories None)
                      else ret tt))
    by (destruct (Nat.ltb _ _); auto using stage_createDirectories with stages).
  assert (S3 : stage (calling MUploadFiles
                        (uploadFiles env (template (targetDirectory (connection config)))
                           files (Some (drawProgress loc)))))
    by auto using stage_uploadFiles with stages.
  pose proof (stage_runScript env config options) as S4.
  run_stage S1 R; [| exists ev; split; [assumption | right; eexists; rewrite C in R; exact R]].
  run_stage S2 R;
    [| exists (ev ++ ev0)%list; rewrite forallb_app, Q, Q0; split; [reflexivity |];
       right; eexists; rewrite C, <- app_assoc in R; exact R].
  run_stage S3 R;
    [| exists (ev ++ ev0 ++ ev1)%list; rewrite !forallb_app, Q, Q0, Q1;
       split; [reflexivity |];
       right; eexists; rewrite C, <- !app_assoc in R; exact R].
  run_stage S4 R;
    [| exists (ev ++ ev0 ++ ev1 ++ ev2)%list; rewrite !forallb_app, Q, Q0, Q1, Q2;
       split; [reflexivity |];
       right; eexists; rewrite C, <- !app_assoc in R; exact R].
  exists (ev ++ ev0 ++ ev1 ++ ev2)%list. rewrite !forallb_app, Q, Q0, Q1, Q2.
  split; [reflexivity | left]. rewrite R, C.
  cbv [calling bind emit disconnect getConnected sshDispose setConnected ret
       connected trace].
  destruct a2. f_equal. f_equal. now rewrite <- !app_assoc.
Qed.

Lemma connect_run (env : Env) (cfg : ConnectionConfig) (w : World) :
  (exists e, connect env cfg w = (Throw e, w))
  \/ (exists c e,
        ssh_connect env (trace w) c = Some e
        /\ connect env cfg w
           = (Throw e, {| connected := connected w;
                          trace := (trace w ++ [SshConnect c])%list |}))
  \/ (exists c,
        ssh_connect env (trace w) c = None
        /\ connect env cfg w
           = (Normal tt, {| connected := true;
                            trace := (trace w ++ [SshConnect c])%list |})).
Proof.
  assert (A : (exists e, authentication env cfg w = (Throw e, w))
              \/ exists c, authentication env cfg w = (Normal c, w)).
  { unfold authentication, throw, ret.
    destruct (truthy (privateKeyPath cfg)).
    - destruct (negb _); [left; eauto |].
      destruct (fs_readFileSync env _); [left | right]; eauto.
    - destruct (truthy (password cfg)); [right | left]; eauto. }
  unfold connect, bind, awaitConnect, setConnected.
  destruct A as [[e A] | [c A]]; rewrite A; [left; eauto | right].
  destruct (ssh_connect env (trace w) c) as [e |] eqn:S;
    [left; exists c, e | right; exists c]; now split.
Qed.

Lemma scanSource_run (loc : Local) (cfg : ExcludeConfig) (w : World) :
  (exists e, scanSource loc cfg w = (Throw e, w))
  \/ (exists files, scanSource loc cfg w = (Normal files, w)).
Proof.
  unfold scanSource, ofSum, throw, ret.
  destruct (sourceFiles loc) as [e | items]; [left; eauto |].
  destruct (scanDirectory _ _ _ _); [right; eauto |].
  destruct (beyondFragment loc cfg); [left | right]; eauto.
Qed.

Example deploy_fails_on_second_file :
  let run := deployCommand (remoteHost (String.eqb "/work/deploy.sh") never never)
               project plainOptions in
  fst run = Exit 1
  /\ connected (snd run) = false
  /\ attempted (trace (snd run))
     = [("/work/src/index.js", "/var/www/app/src/index.js");
        ("/work/deploy.sh", "/var/www/app/deploy.sh")]
  /\ skipn 12 (trace (snd run)) = [Call MDisconnect; SshDispose; ProcessExit 1].
Proof. repeat split; reflexivity. Qed.

Example deploy_succeeds :
  let run := deployCommand (remoteHost never never never) project plainOptions in
  fst run = Normal tt
  /\ connected (snd run) = false
  /\ skipn 12 (trace (snd run)) = [Call MDisconnect; SshDispose].
Proof. repeat split; reflexivity. Qed.

(** C5. Every run of [deployCommand] ends with the deployer disconnected,
    and never by an exception.  A run that does not reach [connect] ends by
    [process.exit].  A run that calls [connect] always calls [disconnect()]
    afterwards: at the end of the [try] block when all stages succeeded (a
    failing script or server-information query is not a failure of the run),
    and in the [catch] block, before [process.exit(1)], when [connect] or a
    later stage threw; when the connection had been made, that call disposes
    of it. *)
Theorem deploy_always_disconnects (env : Env) (loc : Local) (options : Options) :
  let r := fst (deployCommand env loc options) in
  let w := snd (deployCommand env loc options) in
  connected w = false
  /\ ( (r = Exit 0 /\ trace w = [ProcessExit 0])
       \/ (r = Exit 1 /\ trace w = [ProcessExit 1])
       \/ (r = Exit 1 /\ trace w = [Call MDisconnect; ProcessExit 1])
       \/ (r = Exit 1 /\ trace w = [Call MConnect; Call MDisconnect; ProcessExit 1])
       \/ (exists c e,
             ssh_connect env [Call MConnect] c = Some e
             /\ r = Exit 1
             /\ trace w = [Call MConnect; SshConnect c; Call MDisconnect; ProcessExit 1])
       \/ (exists c stages,
             ssh_connect env [Call MConnect] c = None
             /\ forallb quiet stages = true
             /\ ( (r = Normal tt
                   /\ trace w = (Call MConnect :: SshConnect c :: stages
                                 ++ [Call MDisconnect; SshDispose])%list)
                  \/ (r = Exit 1
                      /\ trace w = (Call MConnect :: SshConnect c :: stages
                                    ++ [Call MDisconnect; SshDispose; ProcessExit 1])%list))) ).
Proof.
  cbv zeta. unfold deployCommand, tryCatch.
  remember (deployBody env loc options newDeployer) as res eqn:R.
  unfold deployBody in R. unfold bind at 1 in R.
  destruct (loadConfig_ loc _) as [e | loaded]; cbn [ofSum throw ret] in R.
  { subst res. rewrite catch_block. cbn. split; [reflexivity | tauto]. }
  set (config := mergeWithCliOptions loaded options) in R.
  unfold bind at 1 in R.
  destruct (isValid (validateConfig config)); cbn [negb] in R;
    [| subst res; cbn; split; [reflexivity | tauto]].
  cbn [ret] in R. unfold bind at 1 in R.
  destruct (scanSource_run loc (deploy config) newDeployer) as [[e Sc] | [files Sc]];
    rewrite Sc in R.
  { subst res. rewrite catch_block. cbn. split; [reflexivity | tauto]. }
  unfold bind at 1 in R.
  destruct (Nat.eqb (List.length files) 0);
    [subst res; cbn; split; [reflexivity | tauto] |].
  cbn [ret] in R. unfold bind at 1 in R. unfold calling at 1 in R.
  unfold bind at 1 in R. cbn [emit newDeployer connected trace app] in R.
  set (w1 := {| connected := false; trace := [Call MConnect] |}) in R.
  destruct (connect_run env (connection config) w1)
    as [[e E] | [(c & e & S & E) | (c & S & E)]]; rewrite E in R.
  - subst res. rewrite catch_block. cbn. split; [reflexivity | tauto].
  - subst res. rewrite catch_block. cbn. split; [reflexivity |].
    do 4 right. left. exists c, e. now repeat split.
  - set (w2 := {| connected := true; trace := (trace w1 ++ [SshConnect c])%list |}) in R.
    destruct (afterConnect_run env loc options config files
                (getRemoteDirectories files) w2 eq_refl)
      as (stages & Q & [A | [e A]]); rewrite A in R; subst res.
    + cbn. split; [reflexivity |]. do 5 right. exists c, stages.
      split; [exact S |]. split; [exact Q |]. left. now split.
    + rewrite catch_block. cbn. split; [reflexivity |].
      do 5 right. exists c, stages.
      split; [exact S |]. split; [exact Q |]. right. split; [reflexivity |].
      now list_assoc.
Qed.

(** ** Strings: append, split and join *)

Lemma append_assoc (a b c : string) : (a ++ b) ++ c = a ++ (b ++ c).
Proof. induction a as [| x a IH]; cbn; [reflexivity | now rewrite IH]. Qed.

Lemma append_nil_r (a : string) : a ++ "" = a.
Proof. induction a as [| x a IH]; cbn; [reflexivity | now rewrite IH]. Qed.

Lemma length_append (a b : string) :
  String.length (a ++ b) = String.length a + String.length b.
Proof. induction a as [| x a IH]; cbn; [reflexivity | now rewrite IH]. Qed.

Lemma chars_append (a b : string) :
  list_ascii_of_string (a ++ b)
  = (list_ascii_of_string a ++ list_ascii_of_string b)%list.
Proof. induction a as [| x a IH]; cbn; [reflexivity | now rewrite IH]. Qed.

Lemma length_chars (a : string) :
  List.length (list_ascii_of_string a) = String.length a.
Proof. induction a as [| x a IH]; cbn; [reflexivity | now rewrite IH]. Qed.

Lemma substring_append (a b : string) : substring 0 (String.length a) (a ++ b) = a.
Proof. induction a as [| x a IH]; cbn; [now destruct b | now rewrite IH]. Qed.

Lemma startsWith_append (p s : string) :
  startsWith p s = true -> exists rest, s = p ++ rest.
Proof.
  revert s. induction p as [| a p IH]; intros s H.
  - now exists s.
  - destruct s as [| b s]; [discriminate |]. cbn in H.
    apply andb_prop in H as [E H]. apply Ascii.eqb_eq in E as ->.
    destruct (IH s H) as [rest ->]. now exists rest.
Qed.

Lemma split_not_nil (sep : ascii) (s : string) : split sep s <> [].
Proof.
  induction s as [| a s IH]; cbn; [discriminate |].
  destruct (Ascii.eqb a sep); [discriminate |].
  now destruct (split sep s).
Qed.

Lemma split_append (sep : ascii) (a b : string) :
  split sep (a ++ String sep b) = (split sep a ++ split sep b)%list.
Proof.
  induction a as [| x a IH]; cbn.
  - now rewrite Ascii.eqb_refl.
  - destruct (Ascii.eqb x sep); rewrite IH; [reflexivity |].
    pose proof (split_not_nil sep a). now destruct (split sep a).
Qed.

Lemma concat_split (s : string) : String.concat "/" (split "/" s) = s.
Proof.
  induction s as [| a s IH]; [reflexivity |].
  cbn [split]. pose proof (split_not_nil "/" s) as NN.
  destruct (Ascii.eqb_spec a "/") as [-> | NE].
  - destruct (split "/" s) as [| p ps]; [contradiction |].
    cbn [String.concat] in *. now rewrite IH.
  - destruct (split "/" s) as [| p ps]; [contradiction |].
    destruct ps; cbn [String.concat] in *; now rewrite <- IH.
Qed.

Lemma split_pieces (s : string) :
  Forall (fun piece => includes piece "/" = false) (split "/" s).
Proof.
  induction s as [| a s IH]; cbn [split].
  - now constructor.
  - destruct (Ascii.eqb_spec a "/") as [-> | NE].
    + now constructor.
    + pose proof (split_not_nil "/" s). destruct (split "/" s) as [| p ps]; [contradiction |].
      inversion IH as [| ? ? Hp Hps]; subst. constructor; [| assumption].
      cbn [includes startsWith]. rewrite Hp.
      destruct (Ascii.eqb_spec "/" a); [congruence | reflexivity].
Qed.

Lemma split_slash_free (s : string) : includes s "/" = false -> split "/" s = [s].
Proof.
  induction s as [| a s IH]; [reflexivity |].
  cbn [includes startsWith split]. intros H. apply orb_false_elim in H as [H1 H2].
  rewrite (IH H2). rewrite Ascii.eqb_sym.
  destruct (Ascii.eqb "/" a); [discriminate | reflexivity].
Qed.

Lemma concat_snoc (l : list string) (x : string) :
  l <> [] -> String.concat "/" (l ++ [x]) = String.concat "/" l ++ "/" ++ x.
Proof.
  induction l as [| p l IH]; [contradiction |]. intros _.
  destruct l as [| q l]; [reflexivity |].
  change (String.concat "/" ((p :: q :: l) ++ [x]))
    with (p ++ "/" ++ String.concat "/" ((q :: l) ++ [x])).
  rewrite IH by discriminate.
  change (String.concat "/" (p :: q :: l)) with (p ++ "/" ++ String.concat "/" (q :: l)).
  now rewrite !append_assoc.
Qed.

Lemma split_concat (l : list string) :
  l <> [] -> Forall (fun piece => includes piece "/" = false) l ->
  split "/" (String.concat "/" l) = l.
Proof.
  induction l as [| p l IH]; [contradiction |]. intros _ F.
  inversion F as [| ? ? Hp Hl]; subst.
  destruct l as [| q l]; [now apply split_slash_free |].
  change (String.concat "/" (p :: q :: l))
    with (p ++ String "/" (String.concat "/" (q :: l))).
  rewrite split_append, (split_slash_free p Hp), IH by (assumption || discriminate).
  reflexivity.
Qed.

(** ** path.dirname on relative paths *)

Lemma slash_free_chars (s : string) :
  includes s "/" = false ->
  Forall (fun c => Path.isSlash c = false) (list_ascii_of_string s).
Proof.
  rewrite includes_char. intros H. apply Forall_forall. intros c Hc.
  unfold Path.isSlash. rewrite Ascii.eqb_sym.
  destruct (Ascii.eqb "/" c) eqn:E; [| reflexivity].
  assert (X : existsb (Ascii.eqb "/") (list_ascii_of_string s) = true)
    by (apply existsb_exists; eauto).
  congruence.
Qed.

Lemma dirnameScan_none (u : list ascii) :
  Forall (fun c => Path.isSlash c = false) u ->
  forall i b, Path.dirnameScan u i b = None.
Proof.
  induction 1 as [| c u Hc _ IH]; intros i b; cbn; [reflexivity |].
  now rewrite Hc.
Qed.

Lemma dirnameScan_some (u more : list ascii) :
  Forall (fun c => Path.isSlash c = false) u ->
  forall i b, b = false \/ u <> [] ->
    Path.dirnameScan (u ++ "/"%char :: more) i b = Some (i - List.length u).
Proof.
  induction 1 as [| c u Hc _ IH]; intros i b Hb; cbn.
  - destruct Hb as [-> | N]; [| contradiction]. now rewrite Nat.sub_0_r.
  - rewrite Hc, IH by now left. f_equal. lia.
Qed.

Lemma dirname_plain (s : string) :
  nonEmpty s = true -> includes s "/" = false -> Path.dirname s = ".".
Proof.
  destruct s as [| c tail]; [discriminate |]. intros _ H.
  apply slash_free_chars in H. cbn in H. inversion H as [| ? ? Hc Ht]; subst.
  unfold Path.dirname. rewrite dirnameScan_none by now apply Forall_rev.
  now rewrite Hc.
Qed.

Lemma dirname_child (c : ascii) (d name : string) :
  Path.isSlash c = false -> nonEmpty name = true -> includes name "/" = false ->
  Path.dirname (String c d ++ "/" ++ name) = String c d.
Proof.
  intros Hc Hn Hs. apply slash_free_chars in Hs.
  change (String c d ++ "/" ++ name) with (String c (d ++ String "/" name)).
  unfold Path.dirname. rewrite Hc.
  rewrite chars_append. cbn [list_ascii_of_string].
  rewrite rev_app_distr. cbn [rev]. rewrite <- app_assoc. cbn [app].
  rewrite dirnameScan_some.
  - cbn [andb]. rewrite length_rev, length_chars, length_append. cbn [String.length].
    replace (String.length d + S (String.length name) - String.length name)
      with (String.length (String c d)) by (cbn; lia).
    change (String c (d ++ String "/" name)) with (String c d ++ String "/" name).
    apply substring_append.
  - now apply Forall_rev.
  - right. destruct name; [discriminate |]. cbn. intros E.
    apply app_eq_nil in E as [_ E]. discriminate.
Qed.

(** ** getRemoteDirectories *)

Lemma Array_includes_In (xs : list string) (x : string) :
  Array_includes xs x = true <-> In x xs.
Proof.
  unfold Array_includes. rewrite existsb_exists. split.
  - intros (y & Hy & E). apply String.eqb_eq in E. now subst.
  - intros H. exists x. split; [assumption | apply String.eqb_refl].
Qed.

Lemma Set_add_In (x y : string) (s : list string) :
  In y (Set_add x s) <-> y = x \/ In y s.
Proof.
  unfold Set_add. destruct (Array_includes s x) eqn:E.
  - apply Array_includes_In in E. split; [now right | intros [-> | H]; assumption].
  - rewrite in_app_iff. cbn. intuition.
Qed.

Lemma Set_add_NoDup (x : string) (s : list string) : NoDup s -> NoDup (Set_add x s).
Proof.
  intros H. unfold Set_add. destruct (Array_includes s x) eqn:E; [assumption |].
  apply NoDup_app; [assumption | repeat constructor; intros [] | ].
  intros y Hy [<- | []]. apply Array_includes_In in Hy. congruence.
Qed.

Lemma addParents_keeps (parts : list string) :
  forall current dirs x, In x dirs -> In x (addParents parts current dirs).
Proof.
  induction parts as [| p parts IH]; intros current dirs x H; cbn; [assumption |].
  apply IH. apply Set_add_In. now right.
Qed.

Lemma addParents_NoDup (parts : list string) :
  forall current dirs, NoDup dirs -> NoDup (addParents parts current dirs).
Proof.
  induction parts as [| p parts IH]; intros current dirs H; cbn; [assumption |].
  apply IH. now apply Set_add_NoDup.
Qed.

(** The loop adds the join of every non-empty prefix of [parts]; here for
    the prefix [l] of [l ++ more]. *)
Lemma addParents_prefix (l : list string) :
  forall more current dirs,
    l <> [] -> Forall (fun p => nonEmpty p = true) l ->
    In (if nonEmpty current then current ++ "/" ++ String.concat "/" l
        else String.concat "/" l)
       (addParents (l ++ more) current dirs).
Proof.
  induction l as [| p l IH]; intros more current dirs NN F; [contradiction |].
  inversion F as [| ? ? Hp Hl]; subst.
  destruct l as [| q l].
  - cbn. apply addParents_keeps. apply Set_add_In. left. reflexivity.
  - change ((p :: q :: l) ++ more)%list with (p :: ((q :: l) ++ more))%list.
    cbn [addParents].
    set (current' := if nonEmpty current then current ++ "/" ++ p else p).
    assert (C : nonEmpty current' = true).
    { subst current'. destruct current; [assumption | reflexivity]. }
    specialize (IH more current' (Set_add current' dirs) ltac:(discriminate) Hl).
    rewrite C in IH.
    change (String.concat "/" (p :: q :: l)) with (p ++ "/" ++ String.concat "/" (q :: l)).
    subst current'. destruct (nonEmpty current).
    + now rewrite !append_assoc in IH.
    + exact IH.
Qed.

Lemma collectDirs_keeps (files : list FileEntry) :
  forall dirs x, In x dirs -> In x (collectDirs files dirs).
Proof.
  induction files as [| f files IH]; intros dirs x H; cbn; [assumption |].
  destruct (_ && _); apply IH; [now apply addParents_keeps | assumption].
Qed.

Lemma collectDirs_NoDup (files : list FileEntry) :
  forall dirs, NoDup dirs -> NoDup (collectDirs files dirs).
Proof.
  induction files as [| f files IH]; intros dirs H; cbn; [assumption |].
  destruct (_ && _); apply IH; [now apply addParents_NoDup | assumption].
Qed.

Lemma concat_head (p : string) (ps : list string) (c : ascii) (p' : string) :
  p = String c p' -> exists rest, String.concat "/" (p :: ps) = String c rest.
Proof.
  intros ->. destruct ps as [| q ps]; cbn [String.concat]; eauto.
  now exists (p' ++ "/" ++ String.concat "/" (q :: ps)).
Qed.

(** The directory of a relative path with an ancestor [d]: [path.dirname]
    gives the join of all segments but the last, [d] is the join of the
    first of them, and the test [dir && dir !== '.'] passes. *)
Lemma dirname_of_relative (r d : string) :
  relativePath r = true -> ancestorOf d r = true ->
  exists more,
    split "/" (Path.dirname r) = (split "/" d ++ more)%list
    /\ Forall (fun p => nonEmpty p = true) (split "/" d)
    /\ (nonEmpty (Path.dirname r) && negb (String.eqb (Path.dirname r) ".")) = true.
Proof.
  intros WF A. unfold ancestorOf in A.
  apply startsWith_append in A as [rest E]. rewrite append_assoc in E.
  change ("/" ++ rest) with (String "/" rest) in E.
  pose proof (split_pieces r) as SF. unfold relativePath in WF.
  rewrite forallb_forall in WF. rewrite Forall_forall in SF.
  assert (S : split "/" r = (split "/" d ++ split "/" rest)%list)
    by (rewrite E; apply split_append).
  destruct (exists_last (split_not_nil "/" rest)) as (more & name & L).
  rewrite L, app_assoc in S. set (init := (split "/" d ++ more)%list) in *.
  assert (In_init : forall p, In p init -> In p (split "/" r))
    by (intros p Hp; rewrite S; apply in_or_app; now left).
  assert (In_name : In name (split "/" r))
    by (rewrite S; apply in_or_app; right; now left).
  assert (NN : init <> []).
  { subst init. pose proof (split_not_nil "/" d). now destruct (split "/" d). }
  assert (Fsf : Forall (fun piece => includes piece "/" = false) init)
    by (apply Forall_forall; intros p Hp; apply SF; now apply In_init).
  assert (R : r = String.concat "/" init ++ "/" ++ name)
    by (rewrite <- (concat_split r) at 1; rewrite S; now apply concat_snoc).
  destruct init as [| p ps] eqn:I; [contradiction |].
  assert (Hp : nonEmpty p && negb (String.eqb p ".") = true)
    by (apply WF, In_init; now left).
  apply andb_prop in Hp as [Hp1 Hp2].
  destruct p as [| c p']; [discriminate |].
  assert (Hc : Path.isSlash c = false).
  { assert (X : includes (String c p') "/" = false) by (apply SF, In_init; now left).
    apply slash_free_chars in X. now inversion X. }
  destruct (concat_head (String c p') ps c p' eq_refl) as [body B].
  assert (D : Path.dirname r = String.concat "/" (String c p' :: ps)).
  { rewrite R, B. apply dirname_child; [assumption | |].
    - specialize (WF name In_name). now apply andb_prop in WF as [].
    - now apply SF. }
  exists more. rewrite D. split; [| split].
  - rewrite split_concat by (assumption || discriminate). now rewrite <- I.
  - apply Forall_forall. intros q Hq.
    assert (X : In q (split "/" r)).
    { apply In_init. rewrite <- I. subst init. apply in_or_app. now left. }
    specialize (WF q X). now apply andb_prop in WF as [].
  - rewrite B at 1. cbn [nonEmpty andb].
    destruct (String.eqb_spec (String.concat "/" (String c p' :: ps)) ".") as [Q |];
      [| reflexivity].
    exfalso. pose proof (split_concat (String c p' :: ps) ltac:(discriminate) Fsf) as X.
    rewrite Q in X. cbn in X. assert (Y : String c p' = ".") by congruence.
    rewrite Y in Hp2. discriminate.
Qed.

Lemma collectDirs_ancestors (files : list FileEntry) :
  forall dirs f d,
    In f files -> relativePath (remote f) = true -> ancestorOf d (remote f) = true ->
    In d (collectDirs files dirs).
Proof.
  induction files as [| f0 files IH]; intros dirs f d Hin WF A; [contradiction |].
  cbn [collectDirs]. destruct Hin as [-> | Hin].
  - destruct (dirname_of_relative _ _ WF A) as (more & S & F & T).
    rewrite T, S. apply collectDirs_keeps.
    rewrite <- (concat_split d) at 1.
    apply (addParents_prefix (split "/" d) more "" dirs (split_not_nil "/" d) F).
  - destruct (_ && _); now apply (IH _ f d).
Qed.

(** Sorting by depth. *)

Lemma sortInsert_perm {A : Type} (compare : A -> A -> Z) (x : A) (l : list A) :
  Permutation (sortInsert compare x l) (x :: l).
Proof.
  induction l as [| y l IH]; cbn; [reflexivity |].
  destruct (compare x y <=? 0)%Z; [reflexivity |].
  rewrite IH. apply perm_swap.
Qed.

Lemma Array_sort_perm {A : Type} (compare : A -> A -> Z) (l : list A) :
  Permutation (Array_sort compare l) l.
Proof.
  induction l as [| x l IH]; cbn; [reflexivity |].
  rewrite sortInsert_perm. now constructor.
Qed.

Lemma sorted_suffix (a b : list string) :
  StronglySorted shallower (a ++ b) -> StronglySorted shallower b.
Proof.
  induction a as [| x a IH]; cbn; [trivial |].
  intros S. inversion S; subst. now apply IH.
Qed.

Lemma sortInsert_sorted (x : string) (l : list string) :
  StronglySorted shallower l -> StronglySorted shallower (sortInsert byDepth x l).
Proof.
  induction 1 as [| y l Hs IH Hy]; cbn; [repeat constructor |].
  unfold byDepth at 1. destruct (Z.leb_spec (depth x - depth y) 0) as [L | G].
  - constructor; [now constructor |]. constructor; [unfold shallower; lia |].
    eapply Forall_impl; [| exact Hy]. unfold shallower. intros; lia.
  - constructor; [assumption |].
    eapply Permutation_Forall; [symmetry; apply sortInsert_perm |].
    constructor; [unfold shallower; lia | assumption].
Qed.

Lemma Array_sort_sorted (l : list string) :
  StronglySorted shallower (Array_sort byDepth l).
Proof.
  induction l as [| x l IH]; cbn; [constructor | now apply sortInsert_sorted].
Qed.

Lemma ancestor_is_shallower (d1 d2 : string) :
  ancestorOf d1 d2 = true -> (depth d1 < depth d2)%Z.
Proof.
  intros A. apply startsWith_append in A as [rest ->].
  rewrite append_assoc. change ("/" ++ rest) with (String "/" rest).
  unfold depth. rewrite split_append, length_app.
  pose proof (split_not_nil "/" rest). destruct (split "/" rest); [contradiction |].
  cbn [List.length]. lia.
Qed.

Lemma sorted_order (l : list string) (d1 d2 : string) :
  StronglySorted shallower l -> In d1 l -> In d2 l -> (depth d1 < depth d2)%Z ->
  exists l1 l2 l3, l = (l1 ++ d1 :: l2 ++ d2 :: l3)%list.
Proof.
  intros S H1 H2 Lt.
  apply in_split in H1 as (l1 & r & ->).
  apply in_app_or in H2 as [H2 | [-> | H2]].
  - exfalso. apply in_split in H2 as (a & b & ->).
    rewrite <- app_assoc in S. cbn in S.
    apply sorted_suffix in S.
    inversion S as [| ? ? _ F]; subst.
    rewrite Forall_forall in F.
    assert (X : shallower d2 d1) by (apply F, in_or_app; right; now left).
    unfold shallower in X. lia.
  - lia.
  - apply in_split in H2 as (l2 & l3 & ->). now exists l1, l2, l3.
Qed.

(** C4. For entries whose remote paths are relative paths,
    [getRemoteDirectories] returns a list without duplicates that contains
    every ancestor directory of every entry (every [d] such that the remote
    path starts with [d/]), and in which an ancestor stands at an earlier
    index than each of its descendants.  For [a/b/c.txt] and [a/d.txt] the
    result is [a], then [a/b]. *)
Theorem getRemoteDirectories_parents_first (files : list FileEntry) :
  (forall f, In f files -> relativePath (remote f) = true) ->
  NoDup (getRemoteDirectories files)
  /\ (forall f d,
        In f files -> ancestorOf d (remote f) = true ->
        In d (getRemoteDirectories files))
  /\ (forall d1 d2,
        In d1 (getRemoteDirectories files) -> In d2 (getRemoteDirectories files) ->
        ancestorOf d1 d2 = true ->
        exists l1 l2 l3, getRemoteDirectories files = (l1 ++ d1 :: l2 ++ d2 :: l3)%list)
  /\ getRemoteDirectories planned = ["a"; "a/b"].
Proof.
  intros WF. unfold getRemoteDirectories. split; [| split; [| split]].
  - eapply Permutation_NoDup; [symmetry; apply Array_sort_perm |].
    apply collectDirs_NoDup. constructor.
  - intros f d Hin A.
    eapply Permutation_in; [symmetry; apply Array_sort_perm |].
    apply (collectDirs_ancestors files [] f d Hin (WF f Hin) A).
  - intros d1 d2 H1 H2 A.
    apply (sorted_order _ d1 d2 (Array_sort_sorted _) H1 H2).
    now apply ancestor_is_shallower.
  - reflexivity.
Qed.

Lemma getRemoteDirectories_parents_first_witness :
  NoDup (getRemoteDirectories planned)
  /\ (forall f d,
        In f planned -> ancestorOf d (remote f) = true ->
        In d (getRemoteDirectories planned))
  /\ (forall d1 d2,
        In d1 (getRemoteDirectories planned) -> In d2 (getRemoteDirectories planned) ->
        ancestorOf d1 d2 = true ->
        exists l1 l2 l3, getRemoteDirectories planned = (l1 ++ d1 :: l2 ++ d2 :: l3)%list)
  /\ getRemoteDirectories planned = ["a"; "a/b"].
Proof.
  apply (getRemoteDirectories_parents_first planned).
  intros f [<- | [<- | []]]; reflexivity.
Defined.

(** ** scanDirectory *)

Lemma endsWithSlash_append (a b : string) :
  nonEmpty b = true -> Path.endsWithSlash (a ++ b) = Path.endsWithSlash b.
Proof.
  intros H. induction a as [| x a IH]; [reflexivity |].
  cbn [append Path.endsWithSlash]. rewrite IH.
  destruct (a ++ b) eqn:E; [| reflexivity].
  destruct a; destruct b; discriminate.
Qed.

Lemma endsWithSlash_slash_free (s : string) :
  includes s "/" = false -> Path.endsWithSlash s = false.
Proof.
  intros H. apply slash_free_chars in H.
  induction s as [| c s IH]; [reflexivity |].
  cbn in H. inversion H as [| ? ? Hc Hs]; subst.
  cbn [Path.endsWithSlash]. destruct s; [assumption | now apply IH].
Qed.

Lemma plainName_spec (s : string) :
  plainName s = true -> nonEmpty s = true /\ includes s "/" = false.
Proof.
  unfold plainName. intros H. apply andb_prop in H as [H1 H2].
  now apply negb_true_iff in H2.
Qed.

Lemma stripPrefix_append (a b : string) : Path.stripPrefix a (a ++ b) = Some b.
Proof.
  induction a as [| x a IH]; cbn; [now destruct b |].
  now rewrite Ascii.eqb_refl.
Qed.

(** [path.join] goes one name down. *)
Lemma join_dirAt (baseDir : string) (pre : list string) (item : string) :
  Forall (fun s => plainName s = true) pre ->
  Path.join (dirAt baseDir pre) item
  = Path.withSlash baseDir ++ String.concat "/" (pre ++ [item]).
Proof.
  intros F. unfold Path.join.
  destruct pre as [| p0 rest0]; [reflexivity |].
  change (dirAt baseDir (p0 :: rest0))
    with (Path.withSlash baseDir ++ String.concat "/" (p0 :: rest0)).
  remember (p0 :: rest0) as pre0 eqn:E.
  assert (NN : pre0 <> []) by (subst; discriminate).
  rewrite concat_snoc by assumption.
  destruct (exists_last NN) as (init & final & L).
  assert (Hf : plainName final = true).
  { rewrite Forall_forall in F. apply F. rewrite L. apply in_or_app. right. now left. }
  apply plainName_spec in Hf as [Hf1 Hf2].
  assert (X : Path.endsWithSlash (Path.withSlash baseDir ++ String.concat "/" pre0) = false).
  { rewrite L. destruct init as [| i init].
    - cbn [app String.concat]. rewrite endsWithSlash_append by assumption.
      now apply endsWithSlash_slash_free.
    - rewrite concat_snoc by discriminate. rewrite <- !append_assoc.
      rewrite endsWithSlash_append by assumption.
      now apply endsWithSlash_slash_free. }
  unfold Path.withSlash at 1. rewrite X. now rewrite !append_assoc.
Qed.

(** [path.relative] gives back the names below the base directory. *)
Lemma relative_below (baseDir : string) (segments : list string) (p : string) :
  plainName p = true ->
  Path.relative baseDir (Path.withSlash baseDir ++ String.concat "/" (p :: segments))
  = String.concat "/" (p :: segments).
Proof.
  intros Hp. apply plainName_spec in Hp as [Hp1 Hp2].
  destruct p as [| c p']; [discriminate |].
  apply slash_free_chars in Hp2. cbn in Hp2. inversion Hp2 as [| ? ? Hc _]; subst.
  destruct (concat_head (String c p') segments c p' eq_refl) as [body B].
  rewrite B. unfold Path.relative, Path.withSlash.
  destruct (Path.endsWithSlash baseDir).
  - rewrite stripPrefix_append. now rewrite Hc.
  - rewrite append_assoc, stripPrefix_append. reflexivity.
Qed.

Lemma scanItem_dir (cfg : ExcludeConfig) (baseDir dir name : string) (children : list node) :
  scanItem cfg baseDir dir (Dir name children)
  = if Array_includes (excludeDirectories cfg) name then Some []
    else scanDirectory children (Path.join dir name) cfg baseDir.
Proof.
  cbn [scanItem nameOf]. destruct (Array_includes _ name); [reflexivity |].
  induction children as [| child rest IH]; [reflexivity |].
  cbn [scanDirectory]. now rewrite IH.
Qed.

Lemma allFiles_dir (name : string) (children : list node) :
  allFiles (Dir name children) = map (cons name) (allFilesIn children).
Proof.
  reflexivity.
Qed.

Lemma plainTree_dir (name : string) (children : list node) :
  plainTree (Dir name children) = plainName name && forallb plainTree children.
Proof.
  reflexivity.
Qed.

Lemma allFiles_head (n : node) (segments : list string) :
  In segments (allFiles n) -> exists below, segments = nameOf n :: below.
Proof.
  destruct n as [name | name children].
  - intros [<- | []]. now exists [].
  - rewrite allFiles_dir. intros H. apply in_map_iff in H as (below & <- & _).
    now exists below.
Qed.

Lemma kept_below (cfg : ExcludeConfig) (name : string) (segments : list string) :
  segments <> [] ->
  keptByCode cfg (name :: segments)
  = negb (Array_includes (excludeDirectories cfg) name) && keptByCode cfg segments.
Proof.
  intros NN. destruct segments as [| s segments]; [contradiction |].
  unfold keptByCode. cbn [removelast last forallb]. now rewrite !andb_assoc.
Qed.

Lemma filter_kept_below (cfg : ExcludeConfig) (name : string) (paths : list (list string)) :
  Forall (fun segments => segments <> []) paths ->
  filter (keptByCode cfg) (map (cons name) paths)
  = if Array_includes (excludeDirectories cfg) name then []
    else map (cons name) (filter (keptByCode cfg) paths).
Proof.
  induction 1 as [| segments paths NN _ IH]; cbn [map filter].
  - now destruct (Array_includes _ name).
  - rewrite (kept_below cfg name segments NN), IH.
    destruct (Array_includes _ name); cbn [negb andb]; [reflexivity |].
    now destruct (keptByCode cfg segments).
Qed.

Lemma allFilesIn_nonempty (items : list node) :
  Forall (fun segments => segments <> []) (allFilesIn items).
Proof.
  apply Forall_forall. intros segments H. unfold allFilesIn in H.
  apply in_flat_map in H as (n & _ & H).
  apply allFiles_head in H as [below ->]. discriminate.
Qed.

Lemma modelled_any_name (filename pattern : string) :
  modelled pattern = true -> matchesOne filename pattern <> None.
Proof.
  unfold modelled, matchesOne. destruct (includes pattern "*"); [| discriminate].
  destruct (RegExp.RegExp_new _); discriminate.
Qed.

Lemma matchesPattern_modelled (filename : string) (patterns : list string) :
  forallb modelled patterns = true -> matchesPattern filename patterns <> None.
Proof.
  unfold matchesPattern.
  induction patterns as [| p patterns IH]; cbn [forallb Array_some]; [discriminate |].
  intros H. apply andb_prop in H as [Hp H].
  pose proof (modelled_any_name filename p Hp).
  destruct (matchesOne filename p) as [[|] |]; [discriminate | now apply IH | contradiction].
Qed.

Lemma dirAt_snoc (baseDir : string) (pre : list string) (name : string) :
  Forall (fun s => plainName s = true) pre ->
  Path.join (dirAt baseDir pre) name = dirAt baseDir (pre ++ [name]).
Proof.
  intros F. rewrite join_dirAt by assumption. now destruct pre.
Qed.

Lemma scanDirectory_from (cfg : ExcludeConfig) (baseDir : string) (pre : list string)
  (items : list node) :
  Forall (fun n =>
            plainTree n = true ->
            scanItem cfg baseDir (dirAt baseDir pre) n
            = Some (map (fun segments => entryOf baseDir (pre ++ segments))
                        (filter (keptByCode cfg) (allFiles n)))) items ->
  forallb plainTree items = true ->
  scanDirectory items (dirAt baseDir pre) cfg baseDir
  = Some (map (fun segments => entryOf baseDir (pre ++ segments))
              (filter (keptByCode cfg) (allFilesIn items))).
Proof.
  induction 1 as [| n rest Hn _ IH]; intros T; [reflexivity |].
  cbn [forallb] in T. apply andb_prop in T as [Tn Tr].
  cbn [scanDirectory]. rewrite (Hn Tn), (IH Tr). unfold pushAll, allFilesIn.
  cbn [flat_map]. now rewrite filter_app, map_app.
Qed.

Lemma scanItem_spec (cfg : ExcludeConfig) (baseDir : string) :
  forallb modelled (excludePatterns cfg) = true ->
  forall (n : node) (pre : list string),
    Forall (fun s => plainName s = true) pre ->
    plainTree n = true ->
    scanItem cfg baseDir (dirAt baseDir pre) n
    = Some (map (fun segments => entryOf baseDir (pre ++ segments))
                (filter (keptByCode cfg) (allFiles n))).
Proof.
  intros M n. induction n as [name | name children IH] using node_induction;
    intros pre F T.
  - cbn [scanItem nameOf allFiles filter]. unfold keptByCode.
    cbn [removelast last forallb andb].
    destruct (Array_includes (excludeFiles cfg) name); [reflexivity |].
    pose proof (matchesPattern_modelled name (excludePatterns cfg) M) as NN.
    destruct (matchesPattern name (excludePatterns cfg)) as [[|] |];
      [reflexivity | | contradiction].
    cbn [negb andb map]. unfold entryOf. do 3 f_equal.
    + now apply join_dirAt.
    + rewrite join_dirAt by assumption. f_equal.
      destruct pre as [| p pre]; cbn [app].
      * now apply relative_below.
      * apply relative_below. now inversion F.
  - rewrite plainTree_dir in T. apply andb_prop in T as [Tn Tc].
    rewrite scanItem_dir, allFiles_dir,
      (filter_kept_below cfg name _ (allFilesIn_nonempty children)).
    destruct (Array_includes (excludeDirectories cfg) name); [reflexivity |].
    rewrite dirAt_snoc by assumption.
    assert (F' : Forall (fun s => plainName s = true) (pre ++ [name])%list)
      by (apply Forall_app; split; [assumption | now constructor]).
    rewrite scanDirectory_from; [| | assumption].
    + rewrite map_map. f_equal. apply map_ext. intros segments.
      now rewrite <- app_assoc.
    + eapply Forall_impl; [| exact IH]. intros child H Tchild. now apply H.
Qed.

(** C6. The scan leaves out more than the claim says.  In the directory
    [catalogTree], with the exclusions [node_modules], [.env.local] and
    [*.log], [scanDirectory] returns [old.log/keep.txt] and [notes.txt]:
    the file [catalog] is left out together with [app.log], because the dot
    of [*.log] is not escaped when the pattern is compiled.  By the claim,
    with the matcher of the specification, [catalog] matches no pattern and
    is to be returned.  The rest is as the claim says: nothing below
    [node_modules] is returned, [.env.local] is left out by its name, and
    the directory [old.log] is walked although its name matches [*.log]. *)
Theorem scanDirectory_excludes_catalog :
  scanDirectory catalogTree "/work" exclusions "/work"
  = Some [ {| local_ := "/work/old.log/keep.txt"; remote := "old.log/keep.txt" |};
           {| local_ := "/work/notes.txt"; remote := "notes.txt" |} ]
  /\ map (entryOf "/work") (filter (keptBySpec exclusions) (allFilesIn catalogTree))
     = [ {| local_ := "/work/old.log/keep.txt"; remote := "old.log/keep.txt" |};
         {| local_ := "/work/catalog"; remote := "catalog" |};
         {| local_ := "/work/notes.txt"; remote := "notes.txt" |} ]
  /\ specMatches "catalog" (excludePatterns exclusions) = false
  /\ matchesPattern "catalog" (excludePatterns exclusions) = Some true
  /\ keptBySpec exclusions ["catalog"] = true
  /\ keptByCode exclusions ["catalog"] = false.
Proof. repeat split; reflexivity. Qed.

(** Where the defect does not show, the scan is the one the specification
    describes with its own matcher: for patterns made of [*] and of
    characters that mean nothing in a regular expression, and file names of
    one line. *)

Lemma matchesPattern_on_literal_patterns (filename : string) (patterns : list string) :
  forallb literalPattern patterns = true -> singleLine filename = true ->
  matchesPattern filename patterns = Some (specMatches filename patterns).
Proof.
  intros P L. unfold matchesPattern, specMatches.
  induction patterns as [| p patterns IH]; [reflexivity |].
  cbn [forallb] in P. apply andb_prop in P as [Pp P].
  cbn [Array_some existsb]. rewrite (matchesOne_on_literal_patterns filename p Pp L).
  destruct (globMatches p filename); [reflexivity | now apply IH].
Qed.

Lemma literal_is_modelled (patterns : list string) :
  forallb literalPattern patterns = true -> forallb modelled patterns = true.
Proof.
  intros P. apply forallb_forall. intros p Hp.
  rewrite forallb_forall in P. unfold modelled.
  now rewrite (matchesOne_on_literal_patterns "" p (P p Hp) eq_refl).
Qed.

Lemma entryName_plain (s : string) : entryName s = true -> plainName s = true.
Proof.
  unfold entryName. intros H. apply andb_prop in H as [H _].
  now apply andb_prop in H as [H _].
Qed.

Lemma entryTree_plain (n : node) : entryTree n = true -> plainTree n = true.
Proof.
  induction n as [name | name children IH] using node_induction; cbn [entryTree plainTree].
  - apply entryName_plain.
  - intros H. apply andb_prop in H as [Hn Hc]. rewrite (entryName_plain _ Hn).
    cbn [andb]. induction IH as [| child rest Hchild _ IHrest]; [reflexivity |].
    apply andb_prop in Hc as [H1 H2]. now rewrite (Hchild H1), (IHrest H2).
Qed.

Lemma entryTrees_plain (items : list node) :
  forallb entryTree items = true -> forallb plainTree items = true.
Proof.
  intros T. apply forallb_forall. intros n Hn. apply entryTree_plain.
  rewrite forallb_forall in T. now apply T.
Qed.

Lemma scan_on_literal_patterns (items : list node) (dir : string) (cfg : ExcludeConfig) :
  absoluteDir dir = true ->
  forallb entryTree items = true ->
  forallb literalPattern (excludePatterns cfg) = true ->
  Forall (fun segments => singleLine (last segments "") = true) (allFilesIn items) ->
  scanDirectory items dir cfg dir
  = Some (map (entryOf dir) (filter (keptBySpec cfg) (allFilesIn items))).
Proof.
  intros _ T P L. apply entryTrees_plain in T.
  transitivity (Some (map (entryOf dir) (filter (keptByCode cfg) (allFilesIn items)))).
  - apply (scanDirectory_from cfg dir [] items); [| assumption].
    apply Forall_forall. intros n _ Tn.
    now apply (scanItem_spec cfg dir (literal_is_modelled _ P) n []).
  - do 2 f_equal. apply filter_ext_in. intros segments H.
    rewrite Forall_forall in L. unfold keptByCode, keptBySpec.
    rewrite (matchesPattern_on_literal_patterns _ _ P (L segments H)).
    now destruct (specMatches _ _).
Qed.

(** * Further properties of the code *)

(** ** executeScript *)

(** X1. When the check command resolves and its output does not contain
    [exists], [executeScript] throws 'Script not found: <path>' after that
    one command: the script is neither made executable nor run. *)
Theorem executeScript_missing_script
  (env : Env) (baseDir scriptName : string) (check : ExecResult) (w : World) :
  ssh_execCommand env (trace w)
    (scriptCheckCommand (baseDir ++ "/" ++ scriptName)) None = inr check ->
  includes (stdout check) "exists" = false ->
  executeScript env baseDir scriptName w
  = (Throw (scriptNotFound (baseDir ++ "/" ++ scriptName)),
     {| connected := connected w;
        trace := (trace w
                  ++ [SshExecCommand (scriptCheckCommand (baseDir ++ "/" ++ scriptName))
                        None])%list |}).
Proof.
  intros C X. unfold executeScript, bind, awaitExecCommand.
  fold (scriptCheckCommand (baseDir ++ "/" ++ scriptName)).
  rewrite C, X. reflexivity.
Qed.

Lemma executeScript_missing_script_witness :
  executeScript (remoteHost never never never) "/var/www/app" "deploy.sh" newDeployer
  = (Throw (scriptNotFound "/var/www/app/deploy.sh"),
     {| connected := false;
        trace := [SshExecCommand (scriptCheckCommand "/var/www/app/deploy.sh") None] |}).
Proof.
  apply (executeScript_missing_script (remoteHost never never never)
           "/var/www/app" "deploy.sh" done newDeployer); reflexivity.
Defined.

(** X2. When the script exists, [executeScript] sends three commands in
    this order: the check, [chmod +x], and the run with the base directory
    as working directory.  What [chmod] answers is not looked at, and the
    result of the run is returned as it is: a non-zero exit status is not
    an exception. *)
Theorem executeScript_runs_script
  (env : Env) (baseDir scriptName : string) (check made result : ExecResult) (w : World) :
  let scriptPath := baseDir ++ "/" ++ scriptName in
  let t1 := (trace w ++ [SshExecCommand (scriptCheckCommand scriptPath) None])%list in
  let t2 := (t1 ++ [SshExecCommand (chmodCommand scriptPath) None])%list in
  ssh_execCommand env (trace w) (scriptCheckCommand scriptPath) None = inr check ->
  includes (stdout check) "exists" = true ->
  ssh_execCommand env t1 (chmodCommand scriptPath) None = inr made ->
  ssh_execCommand env t2 (runCommand baseDir scriptPath) (Some baseDir) = inr result ->
  executeScript env baseDir scriptName w
  = (Normal result,
     {| connected := connected w;
        trace := (t2 ++ [SshExecCommand (runCommand baseDir scriptPath) (Some baseDir)])%list |}).
Proof.
  intros scriptPath t1 t2 C X H R. unfold executeScript, bind, awaitExecCommand.
  fold scriptPath. fold (scriptCheckCommand scriptPath). rewrite C, X.
  cbn [negb connected trace]. fold t1. fold (chmodCommand scriptPath). rewrite H.
  cbn [connected trace]. fold t2. fold (runCommand baseDir scriptPath). rewrite R.
  reflexivity.
Qed.

Lemma executeScript_runs_script_witness :
  executeScript scriptHost "/var/www/app" "deploy.sh" newDeployer
  = (Normal {| stdout := "building"; stderr := "failed"; code := 3 |},
     {| connected := false;
        trace := [SshExecCommand (scriptCheckCommand "/var/www/app/deploy.sh") None;
                  SshExecCommand (chmodCommand "/var/www/app/deploy.sh") None;
                  SshExecCommand (runCommand "/var/www/app" "/var/www/app/deploy.sh")
                    (Some "/var/www/app")] |}).
Proof.
  apply (executeScript_runs_script scriptHost "/var/www/app" "deploy.sh"
           {| stdout := "exists"; stderr := ""; code := 0 |}
           {| stdout := ""; stderr := "Operation not permitted"; code := 1 |}
           {| stdout := "building"; stderr := "failed"; code := 3 |} newDeployer);
    reflexivity.
Defined.

(** ** uploadFiles and createDirectories when nothing fails *)

Lemma uploadFrom_succeeds (env : Env) (baseDir : string) (total : nat) :
  forall (files : list FileEntry) (i : nat) (w : World),
    (forall j fj, nth_error files j = Some fj ->
       ssh_putFile env (trace w ++ uploaded baseDir total i (firstn j files))%list
         (local_ fj) (baseDir ++ "/" ++ remote fj) = None) ->
    uploadFrom env baseDir total (Some recordProgress) i files w
    = (Normal tt,
       {| connected := connected w;
          trace := (trace w ++ uploaded baseDir total i files)%list |}).
Proof.
  induction files as [| f0 rest IH]; intros i w Hok.
  - cbn. now rewrite app_nil_r, world_eta.
  - pose proof (Hok 0 f0 eq_refl) as H0.
    cbn [firstn uploaded] in H0. rewrite app_nil_r in H0.
    cbn [uploadFrom]. unfold bind at 1. unfold awaitPutFile. rewrite H0.
    unfold bind at 1. unfold recordProgress, emit. cbn [trace connected].
    rewrite IH.
    + cbn [trace connected uploaded]. f_equal. f_equal. now list_assoc.
    + intros j fj Hn. cbn [trace].
      specialize (Hok (S j) fj Hn). cbn [firstn uploaded] in Hok.
      list_assoc. list_assoc in Hok. exact Hok.
Qed.

(** X3. If every transfer succeeds, [uploadFiles] ends normally after one
    transfer per file, in the order of the list, each to
    [baseDir/<remote>]; the progress callback is called once after each
    transfer, with the counts 1, ..., n and the number of files as total. *)
Theorem uploadFiles_all_transferred
  (env : Env) (baseDir : string) (files : list FileEntry) (w : World) :
  (forall j fj, nth_error files j = Some fj ->
     ssh_putFile env
       (trace w ++ uploaded baseDir (List.length files) 0 (firstn j files))%list
       (local_ fj) (baseDir ++ "/" ++ remote fj) = None) ->
  exists events,
    uploadFiles env baseDir files (Some recordProgress) w
    = (Normal tt, {| connected := connected w; trace := (trace w ++ events)%list |})
    /\ attempted events = map (transferOf baseDir) files
    /\ progressCounts events = seq 1 (List.length files)
    /\ Forall (fun ev => match ev with
                         | Progress _ total _ => total = List.length files
                         | _ => True
                         end) events.
Proof.
  intros Hok. exists (uploaded baseDir (List.length files) 0 files).
  split; [| split; [| split]].
  - unfold uploadFiles. now apply uploadFrom_succeeds.
  - apply attempted_uploaded.
  - apply progressCounts_uploaded.
  - clear Hok. generalize (List.length files) as total, 0 as i. intros total.
    induction files as [| f rest IH]; intros i; cbn [uploaded]; [constructor |].
    constructor; [exact I |]. constructor; [reflexivity | apply IH].
Qed.

Lemma uploadFiles_all_transferred_witness :
  exists events,
    uploadFiles (remoteHost never never never) "/srv/app" fiveFiles
      (Some recordProgress) newDeployer
    = (Normal tt, {| connected := false; trace := events |})
    /\ attempted events = map (transferOf "/srv/app") fiveFiles
    /\ progressCounts events = [1; 2; 3; 4; 5]
    /\ Forall (fun ev => match ev with
                         | Progress _ total _ => total = 5
                         | _ => True
                         end) events.
Proof.
  apply (uploadFiles_all_transferred (remoteHost never never never) "/srv/app"
           fiveFiles newDeployer).
  intros j fj Hn. reflexivity.
Defined.

Lemma createEach_resolves (env : Env) (baseDir : string) (report : bool) :
  forall (directories : list string) (w : World),
    (forall j dj, nth_error directories j = Some dj ->
       exists result,
         ssh_execCommand env (trace w ++ created baseDir report (firstn j directories))%list
           (mkdirCommand (baseDir ++ "/" ++ dj)) None = inr result) ->
    createEach env baseDir directories (directoryCallback report) w
    = (Normal tt,
       {| connected := connected w;
          trace := (trace w ++ created baseDir report directories)%list |}).
Proof.
  induction directories as [| d0 rest IH]; intros w Hok.
  - cbn. now rewrite app_nil_r, world_eta.
  - destruct (Hok 0 d0 eq_refl) as [r0 H0].
    cbn [firstn created] in H0. rewrite app_nil_r in H0.
    cbn [createEach]. unfold bind at 1. unfold awaitExecCommand. rewrite H0.
    assert (Hcb : forall w0 : World,
               match directoryCallback report with
               | Some callback => callback d0
               | None => ret tt
               end w0
               = (Normal tt,
                  {| connected := connected w0;
                     trace := (trace w0 ++ (if report then [DirProgress d0] else []))%list |})).
    { intros w0. destruct report; cbn; [reflexivity |].
      rewrite app_nil_r. now rewrite world_eta. }
    unfold bind at 1. rewrite Hcb. cbn [trace connected].
    rewrite IH.
    + cbn [trace connected created]. f_equal. f_equal. now list_assoc.
    + intros j dj Hn. cbn [trace].
      destruct (Hok (S j) dj Hn) as [r Hr]. exists r.
      cbn [firstn created] in Hr. list_assoc. list_assoc in Hr. exact Hr.
Qed.

(** X4. If none of the command calls rejects, [createDirectories] ends
    normally after exactly one [mkdir -p] for the base directory followed by
    one [mkdir -p "baseDir/<dir>"] per directory, in the order of the list,
    whatever exit status the commands end with. *)
Theorem createDirectories_all_sent
  (env : Env) (baseDir : string) (directories : list string) (report : bool)
  (r0 : ExecResult) (w : World) :
  let w0 := {| connected := connected w;
               trace := (trace w ++ [SshExecCommand (mkdirCommand baseDir) None])%list |} in
  ssh_execCommand env (trace w) (mkdirCommand baseDir) None = inr r0 ->
  (forall j dj, nth_error directories j = Some dj ->
     exists result,
       ssh_execCommand env (trace w0 ++ created baseDir report (firstn j directories))%list
         (mkdirCommand (baseDir ++ "/" ++ dj)) None = inr result) ->
  exists events,
    createDirectories env baseDir directories (directoryCallback report) w
    = (Normal tt, {| connected := connected w; trace := (trace w ++ events)%list |})
    /\ commands events
       = mkdirCommand baseDir
         :: map (fun d => mkdirCommand (baseDir ++ "/" ++ d)) directories.
Proof.
  intros w0 Hbase Hok.
  exists ([SshExecCommand (mkdirCommand baseDir) None]
          ++ created baseDir report directories)%list.
  split.
  - unfold createDirectories, bind at 1. unfold awaitExecCommand. rewrite Hbase.
    fold w0. rewrite (createEach_resolves env baseDir report directories w0 Hok).
    subst w0. cbn [trace connected]. now rewrite <- !app_assoc.
  - unfold commands. rewrite flat_map_app.
    fold (commands (created baseDir report directories)).
    now rewrite commands_created.
Qed.

Lemma createDirectories_all_sent_witness :
  exists events,
    createDirectories
      (remoteHost never never (String.eqb (mkdirCommand "/srv/app/a")))
      "/srv/app" ["a"; "a/b"] None newDeployer
    = (Normal tt, {| connected := false; trace := events |})
    /\ commands events
       = [mkdirCommand "/srv/app"; mkdirCommand "/srv/app/a"; mkdirCommand "/srv/app/a/b"].
Proof.
  apply (createDirectories_all_sent
           (remoteHost never never (String.eqb (mkdirCommand "/srv/app/a")))
           "/srv/app" ["a"; "a/b"] false done newDeployer).
  - reflexivity.
  - intros [| [| j]] dj Hn; cbn in Hn.
    + injection Hn as <-. eexists. reflexivity.
    + injection Hn as <-. eexists. reflexivity.
    + destruct j; discriminate.
Defined.

(** ** connect and disconnect together *)

(** X5. [connect] never ends the process.  It sets [connected] only when
    the session provider's [connect] resolved, after exactly one call to it;
    when it throws, [connected] is left as it was.  A [disconnect] after a
    successful [connect] disposes of the connection once and leaves the
    deployer disconnected. *)
Theorem connect_marks_connected (env : Env) (cfg : ConnectionConfig) (w : World) :
  (forall code, fst (connect env cfg w) <> Exit code)
  /\ (forall e, fst (connect env cfg w) = Throw e ->
        connected (snd (connect env cfg w)) = connected w)
  /\ (fst (connect env cfg w) = Normal tt ->
        exists c,
          ssh_connect env (trace w) c = None
          /\ snd (connect env cfg w)
             = {| connected := true; trace := (trace w ++ [SshConnect c])%list |}
          /\ disconnect (snd (connect env cfg w))
             = (Normal tt,
                {| connected := false;
                   trace := (trace w ++ [SshConnect c; SshDispose])%list |})).
Proof.
  destruct (connect_run env cfg w) as [[e E] | [(c & e & S & E) | (c & S & E)]];
    rewrite E; cbn [fst snd connected]; (split; [| split]);
    try discriminate; try reflexivity.
  intros _. exists c. split; [assumption | split; [reflexivity |]].
  cbv [disconnect bind getConnected sshDispose emit setConnected ret connected trace].
  now list_assoc.
Qed.

Lemma connect_marks_connected_witness :
  exists c,
    ssh_connect (remoteHost never never never) [] c = None
    /\ snd (connect (remoteHost never never never) passwordOnly newDeployer)
       = {| connected := true; trace := [SshConnect c] |}
    /\ disconnect (snd (connect (remoteHost never never never) passwordOnly newDeployer))
       = (Normal tt, {| connected := false; trace := [SshConnect c; SshDispose] |}).
Proof.
  destruct (connect_marks_connected (remoteHost never never never) passwordOnly newDeployer)
    as (_ & _ & H).
  apply H. reflexivity.
Defined.

(** ** mergeWithCliOptions and validateConfig *)

Lemma or_else_idempotent (a b : option string) : or_else a (or_else a b) = or_else a b.
Proof. unfold or_else. now destruct (truthy a). Qed.

(** X6. Each CLI option rules its own field of the connection: [-ip] the
    host, [-u] the user name, [-p] the password, [-k] the private key path
    and [-dir] the target directory.  An option that is a non-empty string
    replaces the field of the configuration file, an absent or empty one
    leaves it; the exclusions and the script name are never touched.  So
    merging without options gives the configuration back, and merging the
    same options twice changes nothing more. *)
Theorem mergeWithCliOptions_precedence (config : Config) (options : Options) :
  let merged := mergeWithCliOptions config options in
  let rules (option merged_field config_field : option string) :=
    (truthy option = true -> merged_field = option)
    /\ (truthy option = false -> merged_field = config_field) in
  rules (opt_ip options) (host (connection merged)) (host (connection config))
  /\ rules (opt_user options) (username (connection merged))
        (username (connection config))
  /\ rules (opt_password options) (password (connection merged))
        (password (connection config))
  /\ rules (opt_key options) (privateKeyPath (connection merged))
        (privateKeyPath (connection config))
  /\ rules (opt_directory options) (targetDirectory (connection merged))
        (targetDirectory (connection config))
  /\ deploy merged = deploy config
  /\ afterDeploy merged = afterDeploy config
  /\ (truthy (opt_ip options) = false -> truthy (opt_user options) = false ->
      truthy (opt_password options) = false -> truthy (opt_key options) = false ->
      truthy (opt_directory options) = false ->
      merged = config)
  /\ mergeWithCliOptions merged options = merged.
Proof.
  cbv zeta. unfold mergeWithCliOptions.
  cbn [connection deploy afterDeploy host username password privateKeyPath
       targetDirectory].
  assert (R : forall o c : option string,
             (truthy o = true -> or_else o c = o)
             /\ (truthy o = false -> or_else o c = c)).
  { intros o c. unfold or_else. split; intros H; now rewrite H. }
  repeat (split; [apply R |]).
  split; [reflexivity |]. split; [reflexivity |]. split.
  - intros H1 H2 H3 H4 H5. unfold or_else. rewrite H1, H2, H3, H4, H5.
    destruct config as [[] ? ?]. reflexivity.
  - now rewrite !or_else_idempotent.
Qed.

Lemma mergeWithCliOptions_precedence_witness :
  host (connection (mergeWithCliOptions defaultConfig fullOptions)) = opt_ip fullOptions
  /\ username (connection (mergeWithCliOptions defaultConfig fullOptions))
     = opt_user fullOptions
  /\ targetDirectory (connection (mergeWithCliOptions defaultConfig fullOptions))
     = opt_directory fullOptions
  /\ mergeWithCliOptions defaultConfig plainOptions = defaultConfig.
Proof.
  destruct (mergeWithCliOptions_precedence defaultConfig fullOptions)
    as ((H & _) & (U & _) & _ & _ & (D & _) & _).
  destruct (mergeWithCliOptions_precedence defaultConfig plainOptions)
    as (_ & _ & _ & _ & _ & _ & _ & I & _).
  split; [apply H; reflexivity |].
  split; [apply U; reflexivity |].
  split; [apply D; reflexivity |].
  apply I; reflexivity.
Defined.

Lemma isValid_truthy (config : Config) :
  isValid (validateConfig config)
  = truthy (host (connection config)) && truthy (username (connection config))
    && (truthy (password (connection config))
        || truthy (privateKeyPath (connection config)))
    && truthy (targetDirectory (connection config)).
Proof.
  unfold validateConfig, missingFields, missingIf. cbn [isValid].
  destruct (truthy (host (connection config))),
           (truthy (username (connection config))),
           (truthy (password (connection config))),
           (truthy (privateKeyPath (connection config))),
           (truthy (targetDirectory (connection config))); reflexivity.
Qed.

(** [validateConfig] accepts a configuration exactly when host, user
    name and target directory are non-empty strings and at least one of
    password and private key path is; [missing] is empty exactly then, and
    names at most four fields. *)
Theorem validateConfig_accepts (config : Config) :
  let c := connection config in
  isValid (validateConfig config)
  = truthy (host c) && truthy (username c)
    && (truthy (password c) || truthy (privateKeyPath c))
    && truthy (targetDirectory c)
  /\ (isValid (validateConfig config) = true <-> missing (validateConfig config) = [])
  /\ List.length (missing (validateConfig config)) <= 4.
Proof.
  cbv zeta. unfold validateConfig, missingFields, missingIf. cbn [isValid missing].
  destruct (truthy (host (connection config))),
           (truthy (username (connection config))),
           (truthy (password (connection config))),
           (truthy (privateKeyPath (connection config))),
           (truthy (targetDirectory (connection config)));
    cbn; repeat split; intros; try discriminate; try reflexivity; lia.
Qed.

(** X7. For a configuration that [validateConfig] accepts, [connect] never
    stops at 'No authentication method provided': without a private key
    path, the credentials it hands to the session provider are host, user
    name and the password. *)
Theorem valid_config_has_credentials (env : Env) (config : Config) (w : World) :
  isValid (validateConfig config) = true ->
  truthy (privateKeyPath (connection config)) = true
  \/ authentication env (connection config) w
     = (Normal (passwordConfig (connection config)), w).
Proof.
  intros V. rewrite isValid_truthy in V. unfold authentication.
  destruct (truthy (privateKeyPath (connection config))); [now left | right].
  destruct (truthy (password (connection config))); [reflexivity |].
  destruct (truthy (host (connection config))),
           (truthy (username (connection config))); discriminate.
Qed.

Lemma valid_config_has_credentials_witness :
  truthy (privateKeyPath (connection (mergeWithCliOptions defaultConfig fullOptions))) = true
  \/ authentication (remoteHost never never never)
       (connection (mergeWithCliOptions defaultConfig fullOptions)) newDeployer
     = (Normal (passwordConfig (connection (mergeWithCliOptions defaultConfig fullOptions))),
        newDeployer).
Proof.
  apply (valid_config_has_credentials (remoteHost never never never)
           (mergeWithCliOptions defaultConfig fullOptions) newDeployer).
  reflexivity.
Defined.

(** X8. Options that give host, user name, target directory and a password
    or a key make the merged configuration valid, whatever the
    configuration file holds. *)
Theorem cli_options_suffice (config : Config) (options : Options) :
  truthy (opt_ip options) = true ->
  truthy (opt_user options) = true ->
  truthy (opt_directory options) = true ->
  truthy (opt_password options) = true \/ truthy (opt_key options) = true ->
  isValid (validateConfig (mergeWithCliOptions config options)) = true.
Proof.
  intros H1 H2 H3 H4. rewrite isValid_truthy.
  unfold mergeWithCliOptions. cbn [connection host username password privateKeyPath
                                   targetDirectory].
  unfold or_else at 1 2 5. rewrite H1, H2, H3, H1, H2, H3. cbn [andb].
  rewrite andb_true_r.
  destruct H4 as [H4 | H4]; unfold or_else; rewrite H4, H4;
    [reflexivity | apply orb_true_r].
Qed.

Lemma cli_options_suffice_witness :
  isValid (validateConfig (mergeWithCliOptions defaultConfig fullOptions)) = true.
Proof.
  apply (cli_options_suffice defaultConfig fullOptions);
    try reflexivity. left. reflexivity.
Defined.

(** ** deployCommand before the connection *)

(** X9. When the merged configuration is not valid, [deployCommand] ends
    the process with status 1 at once: nothing is scanned, the session
    provider is never called and [disconnect()] is not called either. *)
Theorem deploy_rejects_invalid_config
  (env : Env) (loc : Local) (options : Options) (loaded : Config) :
  loadConfig_ loc (template (or_else (opt_config options) (Some "deployment-config.json")))
  = inr loaded ->
  isValid (validateConfig (mergeWithCliOptions loaded options)) = false ->
  deployCommand env loc options
  = (Exit 1, {| connected := false; trace := [ProcessExit 1] |}).
Proof.
  intros L V. unfold deployCommand, tryCatch, deployBody.
  unfold bind at 1. rewrite L. cbn [ofSum ret]. cbv zeta.
  unfold bind at 1. rewrite V. reflexivity.
Qed.

Lemma deploy_rejects_invalid_config_witness :
  deployCommand (remoteHost never never never) bareProject plainOptions
  = (Exit 1, {| connected := false; trace := [ProcessExit 1] |}).
Proof.
  apply (deploy_rejects_invalid_config (remoteHost never never never)
           bareProject plainOptions defaultConfig); reflexivity.
Defined.

(** X10. When the configuration is valid and the scan finds no file to
    deploy, [deployCommand] ends the process with status 0 without calling
    [connect]. *)
Theorem deploy_stops_without_files
  (env : Env) (loc : Local) (options : Options) (loaded : Config) (items : list node) :
  let config := mergeWithCliOptions loaded options in
  loadConfig_ loc (template (or_else (opt_config options) (Some "deployment-config.json")))
  = inr loaded ->
  isValid (validateConfig config) = true ->
  sourceFiles loc = inr items ->
  scanDirectory items (cwd loc) (deploy config) (cwd loc) = Some [] ->
  deployCommand env loc options
  = (Exit 0, {| connected := false; trace := [ProcessExit 0] |}).
Proof.
  intros config L V S Z. unfold deployCommand, tryCatch, deployBody.
  unfold bind at 1. rewrite L. cbn [ofSum ret]. cbv zeta. fold config.
  unfold bind at 1. rewrite V. cbn [negb ret].
  unfold bind at 1. unfold scanSource. rewrite S, Z. cbn [ret].
  reflexivity.
Qed.

Lemma deploy_stops_without_files_witness :
  deployCommand (remoteHost never never never) bareProject fullOptions
  = (Exit 0, {| connected := false; trace := [ProcessExit 0] |}).
Proof.
  apply (deploy_stops_without_files (remoteHost never never never)
           bareProject fullOptions defaultConfig
           [Dir "node_modules" [File "x.js"]; File "debug.log"]); reflexivity.
Defined.

(** ** The script block of deployCommand *)

(** X11. The script block never fails the run: whatever the remote side
    answers, it ends normally and leaves [connected] alone.  Without [-r]
    nothing is sent.  With [-r] the first command checks for the script
    below the target directory: the one named by the option if it is a
    string, else [config.scripts.afterDeploy], a string or [undefined], as
    a template literal writes it. *)
Theorem runScript_never_fails
  (env : Env) (config : Config) (options : Options) (w : World) :
  exists events,
    runScript env config options w
    = (Normal tt, {| connected := connected w; trace := (trace w ++ events)%list |})
    /\ match opt_run options with
       | RunUndefined => events = []
       | RunFlag =>
           exists more,
             events = Call MExecuteScript
                      :: SshExecCommand
                           (scriptCheckCommand
                              (template (targetDirectory (connection config)) ++ "/"
                               ++ template (afterDeploy config))) None
                      :: more
       | RunScript script =>
           exists more,
             events = Call MExecuteScript
                      :: SshExecCommand
                           (scriptCheckCommand
                              (template (targetDirectory (connection config)) ++ "/"
                               ++ script)) None
                      :: more
       end.
Proof.
  unfold runScript.
  assert (G : forall name,
             exists events,
               tryCatch
                 (_ <- calling MExecuteScript
                         (executeScript env
                            (template (targetDirectory (connection config))) name) ;;
                  ret tt)
                 (fun _ => ret tt) w
               = (Normal tt,
                  {| connected := connected w; trace := (trace w ++ events)%list |})
               /\ exists more,
                    events = Call MExecuteScript
                             :: SshExecCommand
                                  (scriptCheckCommand
                                     (template (targetDirectory (connection config))
                                      ++ "/" ++ name)) None
                             :: more).
  { intros name.
    unfold tryCatch, calling, executeScript, bind, emit, awaitExecCommand, ret, throw.
    cbn [connected trace].
    fold (scriptCheckCommand (template (targetDirectory (connection config)) ++ "/" ++ name)).
    destruct (ssh_execCommand env _ _ _) as [e | check].
    - eexists. split; [now list_assoc | eauto].
    - destruct (negb _).
      + eexists. split; [now list_assoc | eauto].
      + cbn [connected trace].
        destruct (ssh_execCommand env _ _ _) as [e | made].
        * eexists. split; [now list_assoc | eauto].
        * cbn [connected trace].
          destruct (ssh_execCommand env _ _ _) as [e | result];
            (eexists; split; [now list_assoc | eauto]). }
  destruct (opt_run options) as [| | script].
  - exists []. now rewrite app_nil_r, world_eta.
  - apply G.
  - apply G.
Qed.

(** ** The remote paths scanDirectory produces *)

Lemma replaceAll_removes_backslash (s : string) :
  includes (replaceAll "\" "/" s) "\" = false.
Proof.
  rewrite includes_char.
  induction s as [| c s IH]; [reflexivity |].
  cbn [replaceAll]. destruct (Ascii.eqb_spec c "\") as [-> | NE].
  - exact IH.
  - cbn [list_ascii_of_string existsb]. rewrite IH, orb_false_r.
    destruct (Ascii.eqb_spec "\" c); [congruence | reflexivity].
Qed.

Lemma scanItem_remote_slashes (cfg : ExcludeConfig) (baseDir : string) (n : node) :
  forall dir files,
    scanItem cfg baseDir dir n = Some files ->
    Forall (fun f => includes (remote f) "\" = false) files.
Proof.
  induction n as [name | name children IH] using node_induction; intros dir files H.
  - cbn [scanItem nameOf] in H.
    destruct (Array_includes (excludeFiles cfg) name);
      [injection H as <-; constructor |].
    destruct (matchesPattern name (excludePatterns cfg)) as [[|] |];
      [injection H as <-; constructor | | discriminate].
    injection H as <-. constructor; [| constructor].
    cbn [remote]. apply replaceAll_removes_backslash.
  - rewrite scanItem_dir in H.
    destruct (Array_includes (excludeDirectories cfg) name);
      [injection H as <-; constructor |].
    revert files H. generalize (Path.join dir name) as sub.
    induction IH as [| child rest Hc _ IHrest]; intros sub files H; cbn [scanDirectory] in H.
    + injection H as <-. constructor.
    + destruct (scanItem cfg baseDir sub child) as [found |] eqn:E; [| discriminate].
      destruct (scanDirectory rest sub cfg baseDir) as [more |] eqn:R; [| discriminate].
      cbn [pushAll] in H. injection H as <-.
      apply Forall_app. split; [now apply (Hc sub) | now apply (IHrest sub)].
Qed.

(** X12. Whatever the tree, the directory and the exclusions, no remote
    path that [scanDirectory] returns contains a backslash: separators are
    forward slashes only. *)
Theorem scanDirectory_remote_forward_slashes
  (items : list node) (dir : string) (cfg : ExcludeConfig) (baseDir : string)
  (files : list FileEntry) :
  scanDirectory items dir cfg baseDir = Some files ->
  forall f, In f files -> includes (remote f) "\" = false.
Proof.
  intros H. apply Forall_forall. revert files H.
  induction items as [| n rest IH]; intros files H; cbn [scanDirectory] in H.
  - injection H as <-. constructor.
  - destruct (scanItem cfg baseDir dir n) as [found |] eqn:E; [| discriminate].
    destruct (scanDirectory rest dir cfg baseDir) as [more |] eqn:R; [| discriminate].
    cbn [pushAll] in H. injection H as <-.
    apply Forall_app. split; [now apply (scanItem_remote_slashes cfg baseDir n dir) |].
    now apply IH.
Qed.

Lemma scanDirectory_remote_forward_slashes_witness :
  includes (remote {| local_ := "/work/a\b.txt"; remote := "a/b.txt" |}) "\" = false.
Proof.
  apply (scanDirectory_remote_forward_slashes [File "a\b.txt"] "/work" noExclusions "/work"
           [ {| local_ := "/work/a\b.txt"; remote := "a/b.txt" |} ]);
    [reflexivity | now left].
Defined.

(** ** Scanner and planner together *)

Lemma listedName_spec (s : string) :
  listedName s = true ->
  plainName s = true /\ includes s "\" = false /\ s <> ".".
Proof.
  unfold listedName. intros H. apply andb_prop in H as [H H3].
  apply andb_prop in H as [H1 H2].
  apply negb_true_iff in H2, H3. apply String.eqb_neq in H3. now repeat split.
Qed.

Lemma listedTree_dir (name : string) (children : list node) :
  listedTree (Dir name children) = listedName name && forallb listedTree children.
Proof. reflexivity. Qed.

Lemma listedTree_plain (n : node) : listedTree n = true -> plainTree n = true.
Proof.
  induction n as [name | name children IH] using node_induction; intros H.
  - now apply listedName_spec in H as [].
  - rewrite listedTree_dir in H. apply andb_prop in H as [Hn Hc].
    rewrite plainTree_dir. apply listedName_spec in Hn as [-> _]. cbn [andb].
    apply forallb_forall. intros child Hin.
    rewrite Forall_forall in IH. apply IH; [assumption |].
    rewrite forallb_forall in Hc. now apply Hc.
Qed.

Lemma allFiles_listed (n : node) :
  listedTree n = true ->
  forall segments, In segments (allFiles n) ->
    Forall (fun s => listedName s = true) segments.
Proof.
  induction n as [name | name children IH] using node_induction; intros H segments Hin.
  - destruct Hin as [<- | []]. now repeat constructor.
  - rewrite listedTree_dir in H. apply andb_prop in H as [Hn Hc].
    rewrite allFiles_dir in Hin. apply in_map_iff in Hin as (below & <- & Hb).
    constructor; [assumption |].
    unfold allFilesIn in Hb. apply in_flat_map in Hb as (child & Hchild & Hb).
    rewrite Forall_forall in IH. apply (IH child Hchild); [| assumption].
    rewrite forallb_forall in Hc. now apply Hc.
Qed.

Lemma replaceAll_without (s : string) :
  includes s "\" = false -> replaceAll "\" "/" s = s.
Proof.
  rewrite includes_char.
  induction s as [| c s IH]; [reflexivity |].
  cbn [list_ascii_of_string existsb replaceAll]. intros H.
  apply orb_false_elim in H as [Hc Hs]. rewrite Ascii.eqb_sym, Hc.
  now rewrite IH.
Qed.

Lemma includes_char_append (c : ascii) (a b : string) :
  includes (a ++ b) (String c "") = includes a (String c "") || includes b (String c "").
Proof. now rewrite !includes_char, chars_append, existsb_app. Qed.

Lemma concat_without_backslash (segments : list string) :
  Forall (fun s => listedName s = true) segments ->
  includes (String.concat "/" segments) "\" = false.
Proof.
  induction 1 as [| s rest Hs _ IH]; [reflexivity |].
  apply listedName_spec in Hs as (_ & Hs & _).
  destruct rest as [| q rest]; [assumption |].
  change (String.concat "/" (s :: q :: rest))
    with (s ++ "/" ++ String.concat "/" (q :: rest)).
  rewrite !includes_char_append, Hs, IH. reflexivity.
Qed.

Lemma concat_is_relative (segments : list string) :
  segments <> [] ->
  Forall (fun s => listedName s = true) segments ->
  relativePath (String.concat "/" segments) = true.
Proof.
  intros NN F. unfold relativePath. rewrite split_concat; [| assumption |].
  - apply forallb_forall. intros s Hs. rewrite Forall_forall in F.
    destruct (listedName_spec s (F s Hs)) as (P & _ & D).
    apply plainName_spec in P as [-> _]. cbn [andb].
    apply negb_true_iff. now apply String.eqb_neq.
  - eapply Forall_impl; [| exact F]. intros s Hs.
    apply listedName_spec in Hs as (P & _). now apply plainName_spec in P as [].
Qed.

(** X13. Scanner and planner fit together.  For a tree of listed names and
    patterns within the modelled fragment, [scanDirectory] returns entries
    whose remote paths are relative paths, and [getRemoteDirectories] of
    these entries contains every ancestor directory of every one of them:
    each directory a transfer needs is planned. *)
Theorem scanned_entries_are_planned
  (items : list node) (dir : string) (cfg : ExcludeConfig) :
  forallb listedTree items = true ->
  forallb modelled (excludePatterns cfg) = true ->
  exists files,
    scanDirectory items dir cfg dir = Some files
    /\ (forall f, In f files -> relativePath (remote f) = true)
    /\ (forall f d,
          In f files -> ancestorOf d (remote f) = true ->
          In d (getRemoteDirectories files)).
Proof.
  intros T M.
  assert (P : forallb plainTree items = true).
  { apply forallb_forall. intros n Hn. apply listedTree_plain.
    rewrite forallb_forall in T. now apply T. }
  exists (map (entryOf dir) (filter (keptByCode cfg) (allFilesIn items))).
  assert (R : forall f,
             In f (map (entryOf dir) (filter (keptByCode cfg) (allFilesIn items))) ->
             relativePath (remote f) = true).
  { intros f Hf. apply in_map_iff in Hf as (segments & <- & Hs).
    apply filter_In in Hs as [Hs _].
    assert (F : Forall (fun s => listedName s = true) segments).
    { unfold allFilesIn in Hs. apply in_flat_map in Hs as (n & Hn & Hs).
      apply (allFiles_listed n); [| assumption].
      rewrite forallb_forall in T. now apply T. }
    pose proof (allFilesIn_nonempty items) as NE. rewrite Forall_forall in NE.
    cbn [entryOf remote].
    rewrite replaceAll_without by now apply concat_without_backslash.
    apply concat_is_relative; [now apply NE | assumption]. }
  split; [| split].
  - apply (scanDirectory_from cfg dir [] items); [| assumption].
    apply Forall_forall. intros n _ Tn.
    now apply (scanItem_spec cfg dir M n []).
  - exact R.
  - intros f d Hf A. unfold getRemoteDirectories.
    eapply Permutation_in; [symmetry; apply Array_sort_perm |].
    now apply (collectDirs_ancestors _ [] f d Hf (R f Hf) A).
Qed.

Lemma scanned_entries_are_planned_witness :
  exists files,
    scanDirectory sourceTree "/work" exclusions "/work" = Some files
    /\ (forall f, In f files -> relativePath (remote f) = true)
    /\ (forall f d,
          In f files -> ancestorOf d (remote f) = true ->
          In d (getRemoteDirectories files)).
Proof.
  apply (scanned_entries_are_planned sourceTree "/work" exclusions); reflexivity.
Defined.

(** X14. Whatever the entries, the list [getRemoteDirectories] returns has
    no duplicates and is sorted by depth: a path with fewer segments never
    comes after one with more. *)
Theorem getRemoteDirectories_sorted (files : list FileEntry) :
  NoDup (getRemoteDirectories files)
  /\ StronglySorted shallower (getRemoteDirectories files).
Proof.
  unfold getRemoteDirectories. split.
  - eapply Permutation_NoDup; [symmetry; apply Array_sort_perm |].
    apply collectDirs_NoDup. constructor.
  - apply Array_sort_sorted.
Qed.

Lemma kept_without_exclusions (segments : list string) :
  keptByCode noExclusions segments = true.
Proof.
  unfold keptByCode. cbn.
  induction (removelast segments) as [| s l IH]; [reflexivity | exact IH].
Qed.

(** X15. With empty exclusions [scanDirectory] returns every file of the
    tree, one entry each, in the order of the walk.  Whatever the directory
    is called, the remote path of a file is made of the names that lead to
    it from the directory, joined with [/] (and with [/] for every
    backslash); for a normalized absolute directory the local path is the
    directory followed by these names. *)
Theorem scanDirectory_without_exclusions (items : list node) (dir : string) :
  forallb entryTree items = true ->
  option_map (map remote) (scanDirectory items dir noExclusions dir)
  = Some (map (fun segments => replaceAll "\" "/" (String.concat "/" segments))
              (allFilesIn items))
  /\ (absoluteDir dir = true ->
      scanDirectory items dir noExclusions dir
      = Some (map (entryOf dir) (allFilesIn items))).
Proof.
  intros T. apply entryTrees_plain in T.
  assert (R : scanDirectory items dir noExclusions dir
              = Some (map (entryOf dir) (allFilesIn items))).
  { transitivity
      (Some (map (entryOf dir) (filter (keptByCode noExclusions) (allFilesIn items)))).
    - apply (scanDirectory_from noExclusions dir [] items); [| assumption].
      apply Forall_forall. intros n _ Tn.
      now apply (scanItem_spec noExclusions dir eq_refl n []).
    - do 2 f_equal. apply forallb_filter_id. apply forallb_forall.
      intros segments _. apply kept_without_exclusions. }
  split; [| intros _; exact R].
  rewrite R. cbn [option_map]. now rewrite map_map.
Qed.

Lemma scanDirectory_without_exclusions_witness :
  option_map (map remote) (scanDirectory sourceTree "/work" noExclusions "/work")
  = Some (map (fun segments => replaceAll "\" "/" (String.concat "/" segments))
              (allFilesIn sourceTree))
  /\ scanDirectory sourceTree "/work" noExclusions "/work"
     = Some (map (entryOf "/work") (allFilesIn sourceTree)).
Proof.
  destruct (scanDirectory_without_exclusions sourceTree "/work" eq_refl) as [A B].
  split; [exact A | apply B; reflexivity].
Defined.

(** X16. On patterns made of [*] and of characters that mean nothing in a
    regular expression, and for file names without line terminators,
    [matchesPattern] decides glob matching: a [*] stands for any run of
    characters, every other character for itself, and the whole name has to
    match. *)
Theorem matchesPattern_is_glob_on_literal_patterns
  (filename : string) (patterns : list string) :
  forallb literalPattern patterns = true -> singleLine filename = true ->
  matchesPattern filename patterns
  = Some (existsb (fun p => globMatches p filename) patterns).
Proof. exact (matchesPattern_on_literal_patterns filename patterns). Qed.

Lemma matchesPattern_is_glob_on_literal_patterns_witness :
  matchesPattern "notes~" ["*~"; "Thumbs-db"]
  = Some (existsb (fun p => globMatches p "notes~") ["*~"; "Thumbs-db"]).
Proof.
  apply (matchesPattern_is_glob_on_literal_patterns "notes~" ["*~"; "Thumbs-db"]);
    reflexivity.
Defined.

(** ** Nothing but ancestors is planned *)

Lemma startsWith_prefix (p rest : string) : startsWith p (p ++ rest) = true.
Proof.
  induction p as [| a p IH]; [reflexivity |]. cbn. now rewrite Ascii.eqb_refl.
Qed.

Lemma concat_app (a b : list string) :
  a <> [] -> b <> [] ->
  String.concat "/" (a ++ b) = String.concat "/" a ++ "/" ++ String.concat "/" b.
Proof.
  intros Ha Hb. induction a as [| x a IH]; [contradiction |].
  destruct a as [| y a].
  - destruct b; [contradiction | reflexivity].
  - change (String.concat "/" ((x :: y :: a) ++ b))
      with (x ++ "/" ++ String.concat "/" ((y :: a) ++ b)).
    rewrite IH by discriminate.
    change (String.concat "/" (x :: y :: a)) with (x ++ "/" ++ String.concat "/" (y :: a)).
    now rewrite !append_assoc.
Qed.

Lemma addParents_only (parts : list string) :
  Forall (fun p => nonEmpty p = true) parts ->
  forall current dirs x,
    In x (addParents parts current dirs) ->
    In x dirs
    \/ exists k,
         0 < k <= List.length parts
         /\ x = if nonEmpty current
                then current ++ "/" ++ String.concat "/" (firstn k parts)
                else String.concat "/" (firstn k parts).
Proof.
  induction 1 as [| p rest Hp _ IH]; intros current dirs x H; cbn [addParents] in H.
  - now left.
  - set (current' := if nonEmpty current then current ++ "/" ++ p else p) in *.
    assert (C : nonEmpty current' = true).
    { subst current'. destruct current; [assumption | reflexivity]. }
    destruct (IH current' (Set_add current' dirs) x H) as [Hin | (k & Hk & ->)].
    + apply Set_add_In in Hin as [-> | Hin]; [right | now left].
      exists 1. split; [cbn; lia |]. subst current'. cbn [firstn String.concat].
      reflexivity.
    + right. exists (S k). split; [cbn; lia |]. rewrite C.
      cbn [firstn]. destruct (firstn k rest) as [| q l] eqn:E.
      * exfalso. destruct k; [lia |]. destruct rest; [cbn in Hk; lia | discriminate].
      * change (String.concat "/" (p :: q :: l))
          with (p ++ "/" ++ String.concat "/" (q :: l)).
        subst current'. destruct (nonEmpty current); [| reflexivity].
        now rewrite !append_assoc.
Qed.

(** The shape of a relative path: all segments but the last make up its
    directory. *)
Lemma relative_shape (r : string) :
  relativePath r = true ->
  exists init name,
    Forall (fun p => nonEmpty p = true) init
    /\ ((init = [] /\ Path.dirname r = ".")
        \/ (init <> []
            /\ Path.dirname r = String.concat "/" init
            /\ split "/" (String.concat "/" init) = init
            /\ r = String.concat "/" init ++ "/" ++ name)).
Proof.
  intros WF. pose proof (split_pieces r) as SF. unfold relativePath in WF.
  rewrite forallb_forall in WF. rewrite Forall_forall in SF.
  destruct (exists_last (split_not_nil "/" r)) as (init & name & S).
  exists init, name.
  assert (In_init : forall p, In p init -> In p (split "/" r))
    by (intros p Hp; rewrite S; apply in_or_app; now left).
  assert (In_name : In name (split "/" r))
    by (rewrite S; apply in_or_app; right; now left).
  assert (Hname : nonEmpty name = true)
    by (specialize (WF name In_name); now apply andb_prop in WF as []).
  split.
  { apply Forall_forall. intros p Hp. specialize (WF p (In_init p Hp)).
    now apply andb_prop in WF as []. }
  destruct init as [| p ps] eqn:I.
  - left. split; [reflexivity |].
    assert (R : r = name) by (rewrite <- (concat_split r), S; reflexivity).
    rewrite R. apply dirname_plain; [assumption |]. now apply SF.
  - right. rewrite <- I in *.
    assert (NN : init <> []) by (rewrite I; discriminate).
    assert (Fsf : Forall (fun piece => includes piece "/" = false) init)
      by (apply Forall_forall; intros q Hq; apply SF; now apply In_init).
    assert (R : r = String.concat "/" init ++ "/" ++ name)
      by (rewrite <- (concat_split r) at 1; rewrite S; now apply concat_snoc).
    split; [assumption |]. split; [| split; [now apply split_concat | assumption]].
    assert (Hp : nonEmpty p = true).
    { assert (X : In p init) by (rewrite I; now left).
      specialize (WF p (In_init p X)). now apply andb_prop in WF as []. }
    destruct p as [| c p']; [discriminate |].
    assert (Hc : Path.isSlash c = false).
    { assert (X : includes (String c p') "/" = false).
      { apply SF, In_init. rewrite I. now left. }
      apply slash_free_chars in X. now inversion X. }
    destruct (concat_head (String c p') ps c p' eq_refl) as [body B].
    rewrite R at 1. rewrite I at 1. rewrite B.
    rewrite dirname_child; [now rewrite <- B, <- I | assumption | assumption |].
    now apply SF.
Qed.

Lemma collectDirs_only (files : list FileEntry) :
  (forall f, In f files -> relativePath (remote f) = true) ->
  forall dirs x,
    In x (collectDirs files dirs) ->
    In x dirs \/ exists f, In f files /\ ancestorOf x (remote f) = true.
Proof.
  induction files as [| f0 files IH]; intros WF dirs x H; [now left |].
  cbn [collectDirs] in H.
  assert (WF' : forall f, In f files -> relativePath (remote f) = true)
    by (intros f Hf; apply WF; now right).
  assert (Later : forall dirs',
             In x (collectDirs files dirs') ->
             In x dirs' \/ exists f, In f (f0 :: files) /\ ancestorOf x (remote f) = true).
  { intros dirs' H'. destruct (IH WF' dirs' x H') as [? | (f & Hf & A)];
      [now left | right]. exists f. split; [now right | assumption]. }
  destruct (relative_shape (remote f0) (WF f0 (or_introl eq_refl)))
    as (init & name & F & [[-> D] | (NN & D & S & R)]); rewrite D in H.
  - cbn in H. now apply Later.
  - destruct (_ && _); [| now apply Later]. rewrite S in H.
    destruct (Later _ H) as [Hin | ?]; [| now right].
    destruct (addParents_only init F "" dirs x Hin) as [? | (k & Hk & ->)]; [now left |].
    right. exists f0. split; [now left |]. cbn [nonEmpty].
    unfold ancestorOf. rewrite R.
    rewrite <- (firstn_skipn k init) at 2.
    destruct (skipn k init) as [| q l] eqn:E.
    + rewrite app_nil_r, <- append_assoc. apply startsWith_prefix.
    + rewrite concat_app.
      * rewrite !append_assoc. rewrite <- (append_assoc _ "/").
        apply startsWith_prefix.
      * destruct k; [lia |]. destruct init; [contradiction | discriminate].
      * discriminate.
Qed.

(** X17. For entries whose remote paths are relative paths,
    [getRemoteDirectories] plans nothing but ancestors: every directory it
    returns is an ancestor directory of some entry.  In particular it
    returns the empty list when every file lies directly in the source
    directory. *)
Theorem getRemoteDirectories_only_ancestors (files : list FileEntry) :
  (forall f, In f files -> relativePath (remote f) = true) ->
  (forall d,
     In d (getRemoteDirectories files) ->
     exists f, In f files /\ ancestorOf d (remote f) = true)
  /\ ((forall f, In f files -> includes (remote f) "/" = false) ->
      getRemoteDirectories files = []).
Proof.
  intros WF.
  assert (Only : forall d,
             In d (getRemoteDirectories files) ->
             exists f, In f files /\ ancestorOf d (remote f) = true).
  { intros d H. unfold getRemoteDirectories in H.
    apply (Permutation_in _ (Array_sort_perm byDepth _)) in H.
    destruct (collectDirs_only files WF [] d H) as [[] | ?]. assumption. }
  split; [exact Only |].
  intros Flat. destruct (getRemoteDirectories files) as [| d l] eqn:E; [reflexivity |].
  exfalso. destruct (Only d (or_introl eq_refl)) as (f & Hf & A).
  unfold ancestorOf in A. apply startsWith_append in A as [rest R].
  specialize (Flat f Hf). rewrite R, !includes_char_append in Flat.
  cbn in Flat. rewrite orb_true_r in Flat. discriminate.
Qed.

Lemma getRemoteDirectories_only_ancestors_witness :
  (forall d,
     In d (getRemoteDirectories planned) ->
     exists f, In f planned /\ ancestorOf d (remote f) = true)
  /\ ((forall f, In f planned -> includes (remote f) "/" = false) ->
      getRemoteDirectories planned = []).
Proof.
  apply (getRemoteDirectories_only_ancestors planned).
  intros f [<- | [<- | []]]; reflexivity.
Defined.

(** ** The order of the stages of deployCommand *)

Section StageOf.

Variable P : Event -> bool.

Lemma stageOf_ret {A : Type} (a : A) : stageOf P (ret a).
Proof.
  intros w. exists (Normal a), []. rewrite app_nil_r, world_eta.
  repeat split; discriminate.
Qed.

Lemma stageOf_throw {A : Type} (e : Error) : stageOf P (@throw A e).
Proof.
  intros w. exists (Throw e), []. rewrite app_nil_r, world_eta.
  repeat split; discriminate.
Qed.

Lemma stageOf_emit (ev : Event) : P ev = true -> stageOf P (emit ev).
Proof.
  intros Q w. exists (Normal tt), [ev]. cbn. rewrite Q.
  repeat split; discriminate.
Qed.

Lemma stageOf_bind {A B : Type} (m : M A) (k : A -> M B) :
  stageOf P m -> (forall a, stageOf P (k a)) -> stageOf P (bind m k).
Proof.
  intros Hm Hk w. destruct (Hm w) as (r & ev1 & E1 & Q1 & N1).
  unfold bind. rewrite E1. destruct r as [a | e | c].
  - destruct (Hk a {| connected := connected w; trace := (trace w ++ ev1)%list |})
      as (r2 & ev2 & E2 & Q2 & N2).
    exists r2, (ev1 ++ ev2)%list. rewrite E2. cbn [connected trace].
    rewrite app_assoc, forallb_app, Q1, Q2. now repeat split.
  - exists (Throw e), ev1. repeat split; [assumption | discriminate].
  - now elim (N1 c).
Qed.

Lemma stageOf_tryCatch {A : Type} (body : M A) (handler : Error -> M A) :
  stageOf P body -> (forall e, stageOf P (handler e)) -> stageOf P (tryCatch body handler).
Proof.
  intros Hb Hh w. destruct (Hb w) as (r & ev1 & E1 & Q1 & N1).
  unfold tryCatch. rewrite E1. destruct r as [a | e | c].
  - exists (Normal a), ev1. repeat split; [assumption | discriminate].
  - destruct (Hh e {| connected := connected w; trace := (trace w ++ ev1)%list |})
      as (r2 & ev2 & E2 & Q2 & N2).
    exists r2, (ev1 ++ ev2)%list. rewrite E2. cbn [connected trace].
    rewrite app_assoc, forallb_app, Q1, Q2. now repeat split.
  - now elim (N1 c).
Qed.

Lemma stageOf_execCommand (env : Env) (command : string) (cwd : option string) :
  P (SshExecCommand command cwd) = true ->
  stageOf P (awaitExecCommand env command cwd).
Proof.
  intros Q w. unfold awaitExecCommand.
  destruct (ssh_execCommand env (trace w) command cwd) as [e | r];
    [exists (Throw e) | exists (Normal r)];
    exists [SshExecCommand command cwd]; cbn [forallb]; rewrite Q;
    repeat split; discriminate.
Qed.

Lemma stageOf_putFile (env : Env) (localFile remoteFile : string) :
  P (SshPutFile localFile remoteFile) = true ->
  stageOf P (awaitPutFile env localFile remoteFile).
Proof.
  intros Q w. unfold awaitPutFile.
  destruct (ssh_putFile env (trace w) localFile remoteFile) as [e |];
    [exists (Throw e) | exists (Normal tt)];
    exists [SshPutFile localFile remoteFile]; cbn [forallb]; rewrite Q;
    repeat split; discriminate.
Qed.

Lemma stageOf_calling {A : Type} (m : Method) (body : M A) :
  P (Call m) = true -> stageOf P body -> stageOf P (calling m body).
Proof.
  intros Q Hb. unfold calling. apply stageOf_bind; [now apply stageOf_emit | now intros _].
Qed.

End StageOf.

Create HintDb ordered.

#[local] Hint Resolve stageOf_ret stageOf_throw stageOf_bind stageOf_tryCatch
  stageOf_calling : ordered.

Lemma serverInfo_of_neither (env : Env) :
  stageOf neither
    (tryCatch (_ <- calling MGetServerInfo (getServerInfo env) ;; ret tt)
              (fun _ => ret tt)).
Proof.
  unfold getServerInfo.
  repeat (first [ apply stageOf_tryCatch | apply stageOf_bind | apply stageOf_calling
                | apply stageOf_execCommand | apply stageOf_ret | intros ? ]);
    reflexivity.
Qed.

Lemma createDirectories_of_noTransfer (env : Env) (baseDir : string)
  (directories : list string) :
  stageOf noTransfer (createDirectories env baseDir directories None).
Proof.
  unfold createDirectories.
  apply stageOf_bind; [now apply stageOf_execCommand |]. intros _.
  induction directories as [| d rest IH]; cbn [createEach]; [apply stageOf_ret |].
  apply stageOf_bind; [now apply stageOf_execCommand |]. intros _.
  apply stageOf_bind; [apply stageOf_ret | now intros _].
Qed.

Lemma uploadFiles_of_noMkdir (env : Env) (loc : Local) (baseDir : string)
  (files : list FileEntry) :
  stageOf noMkdir (uploadFiles env baseDir files (Some (drawProgress loc))).
Proof.
  unfold uploadFiles. generalize (List.length files) as total, 0 as i.
  induction files as [| f rest IH]; intros total i; cbn [uploadFrom];
    [apply stageOf_ret |].
  apply stageOf_bind; [now apply stageOf_putFile |]. intros _.
  apply stageOf_bind; [| intros _; apply IH].
  unfold drawProgress. destruct (progressBar loc _ _ _);
    [apply stageOf_throw | apply stageOf_ret].
Qed.

Lemma runScript_of_neither (env : Env) (config : Config) (options : Options) :
  stageOf neither (runScript env config options).
Proof.
  unfold runScript.
  assert (G : forall name,
             stageOf neither
               (executeScript env (template (targetDirectory (connection config))) name)).
  { intros name. unfold executeScript.
    apply stageOf_bind; [now apply stageOf_execCommand |]. intros check.
    destruct (negb _); [apply stageOf_throw |].
    apply stageOf_bind; [now apply stageOf_execCommand |]. intros _.
    apply stageOf_bind; [now apply stageOf_execCommand |]. intros result.
    apply stageOf_ret. }
  destruct (opt_run options); [apply stageOf_ret | |];
    (apply stageOf_tryCatch; [| intros _; apply stageOf_ret]);
    (apply stageOf_bind; [| intros _; apply stageOf_ret]);
    (apply stageOf_calling; [reflexivity | apply G]).
Qed.

Lemma stageOf_weaken {A : Type} (P Q : Event -> bool) (m : M A) :
  (forall ev, P ev = true -> Q ev = true) -> stageOf P m -> stageOf Q m.
Proof.
  intros I H w. destruct (H w) as (r & ev & E & F & N).
  exists r, ev. repeat split; try assumption.
  apply forallb_forall. intros x Hx. apply I.
  rewrite forallb_forall in F. now apply F.
Qed.

Lemma neither_noTransfer (ev : Event) : neither ev = true -> noTransfer ev = true.
Proof. unfold neither. intros H. now apply andb_prop in H as []. Qed.

Lemma neither_noMkdir (ev : Event) : neither ev = true -> noMkdir ev = true.
Proof. unfold neither. intros H. now apply andb_prop in H as []. Qed.

Lemma disconnect_events (w : World) :
  exists events,
    calling MDisconnect disconnect w
    = (Normal tt, {| connected := false; trace := (trace w ++ events)%list |})
    /\ forallb neither events = true.
Proof.
  destruct w as [[|] tr].
  - exists [Call MDisconnect; SshDispose]. split; [| reflexivity].
    cbv [calling bind emit disconnect getConnected sshDispose setConnected ret
         connected trace]. now list_assoc.
  - exists [Call MDisconnect]. split; reflexivity.
Qed.

Lemma catch_events (w : World) :
  exists events,
    (calling MDisconnect disconnect ;; processExit 1) w
    = (@Exit unit 1, {| connected := false; trace := (trace w ++ events)%list |})
    /\ forallb neither events = true.
Proof.
  rewrite catch_block.
  exists (Call MDisconnect :: (if connected w then [SshDispose] else []) ++ [ProcessExit 1%Z])%list.
  split; [reflexivity | now destruct (connected w)].
Qed.

Lemma forallb_weaken (P Q : Event -> bool) (l : list Event) :
  (forall ev, P ev = true -> Q ev = true) -> forallb P l = true -> forallb Q l = true.
Proof.
  intros I F. apply forallb_forall. intros x Hx. apply I.
  rewrite forallb_forall in F. now apply F.
Qed.

Lemma afterConnect_ordered (env : Env) (loc : Local) (options : Options)
  (config : Config) (files : list FileEntry) (directories : list string) (w : World) :
  exists pre post,
    trace (snd (afterConnect env loc options config files directories w))
    = (trace w ++ pre ++ post)%list
    /\ forallb noTransfer pre = true
    /\ forallb noMkdir post = true
    /\ (directories = [] -> forallb noMkdir pre = true)
    /\ (forall c, fst (afterConnect env loc options config files directories w) <> Exit c).
Proof.
  remember (afterConnect env loc options config files directories w) as res eqn:R.
  unfold afterConnect in R.
  pose proof (serverInfo_of_neither env) as S1.
  set (Pdirs := match directories with [] => neither | _ => noTransfer end).
  assert (S2 : stageOf Pdirs
                 (if Nat.ltb 0 (List.length directories)
                  then calling MCreateDirectories
                         (createDirectories env
                            (template (targetDirectory (connection config)))
                            directories None)
                  else ret tt)).
  { subst Pdirs. destruct directories as [| d ds]; [apply stageOf_ret |].
    apply stageOf_calling; [reflexivity | apply createDirectories_of_noTransfer]. }
  assert (Pdirs_noTransfer : forall ev, Pdirs ev = true -> noTransfer ev = true).
  { subst Pdirs. destruct directories; [apply neither_noTransfer | trivial]. }
  assert (Pdirs_flat : directories = [] -> forall ev, Pdirs ev = true -> noMkdir ev = true).
  { intros ->. apply neither_noMkdir. }
  assert (S3 : stageOf noMkdir
                 (calling MUploadFiles
                    (uploadFiles env (template (targetDirectory (connection config)))
                       files (Some (drawProgress loc)))))
    by (apply stageOf_calling; [reflexivity | apply uploadFiles_of_noMkdir]).
  pose proof (runScript_of_neither env config options) as S4.
  run_stage S1 R.
  2:{ exists ev, []. subst res. cbn [fst snd trace]. rewrite app_nil_r.
      repeat split; try discriminate.
      - now apply (forallb_weaken neither noTransfer _ neither_noTransfer).
      - intros _. now apply (forallb_weaken neither noMkdir _ neither_noMkdir). }
  assert (T1 : forallb noTransfer ev = true)
    by now apply (forallb_weaken neither noTransfer _ neither_noTransfer).
  assert (M1 : forallb noMkdir ev = true)
    by now apply (forallb_weaken neither noMkdir _ neither_noMkdir).
  run_stage S2 R.
  2:{ exists (ev ++ ev0)%list, []. subst res. cbn [fst snd trace].
      rewrite app_nil_r, <- app_assoc, !forallb_app, T1, M1.
      repeat split; try discriminate.
      - now apply (forallb_weaken Pdirs noTransfer _ Pdirs_noTransfer).
      - intros F. now apply (forallb_weaken Pdirs noMkdir _ (Pdirs_flat F)). }
  assert (T2 : forallb noTransfer ev0 = true)
    by now apply (forallb_weaken Pdirs noTransfer _ Pdirs_noTransfer).
  run_stage S3 R.
  2:{ exists (ev ++ ev0)%list, ev1. subst res. cbn [fst snd trace].
      rewrite <- !app_assoc, !forallb_app, T1, T2, M1.
      repeat split; try discriminate; try assumption.
      intros F. now apply (forallb_weaken Pdirs noMkdir _ (Pdirs_flat F)). }
  assert (M4 : forall l, forallb neither l = true -> forallb noMkdir l = true)
    by (intros l; apply (forallb_weaken neither noMkdir _ neither_noMkdir)).
  run_stage S4 R.
  2:{ exists (ev ++ ev0)%list, (ev1 ++ ev2)%list. subst res. cbn [fst snd trace].
      rewrite <- !app_assoc, !forallb_app, T1, T2, M1, Q1, (M4 _ Q2).
      repeat split; try discriminate.
      intros F. now apply (forallb_weaken Pdirs noMkdir _ (Pdirs_flat F)). }
  match type of R with
  | _ = calling MDisconnect disconnect ?w' =>
      destruct (disconnect_events w') as (ev3 & E3 & Q3); rewrite E3 in R
  end.
  exists (ev ++ ev0)%list, (ev1 ++ ev2 ++ ev3)%list. subst res. cbn [fst snd trace].
  rewrite <- !app_assoc, !forallb_app, T1, T2, M1, Q1, (M4 _ Q2), (M4 _ Q3).
  repeat split; try discriminate.
  intros F. now apply (forallb_weaken Pdirs noMkdir _ (Pdirs_flat F)).
Qed.

Lemma deployBody_ordered (env : Env) (loc : Local) (options : Options) :
  exists pre post,
    trace (snd (deployBody env loc options newDeployer)) = (pre ++ post)%list
    /\ forallb noTransfer pre = true
    /\ forallb noMkdir post = true
    /\ (forall loaded files,
          loadConfig_ loc
            (template (or_else (opt_config options) (Some "deployment-config.json")))
          = inr loaded ->
          scanSource loc (deploy (mergeWithCliOptions loaded options)) newDeployer
          = (Normal files, newDeployer) ->
          getRemoteDirectories files = [] ->
          forallb noMkdir pre = true).
Proof.
  remember (deployBody env loc options newDeployer) as res eqn:R.
  unfold deployBody in R. unfold bind at 1 in R.
  destruct (loadConfig_ loc _) as [e | loaded] eqn:L; cbn [ofSum throw ret] in R.
  { exists [], []. subst res. now repeat split. }
  set (config := mergeWithCliOptions loaded options) in R.
  cbv zeta in R. unfold bind at 1 in R.
  destruct (isValid (validateConfig config)); cbn [negb] in R;
    [| exists [], [ProcessExit 1%Z]; subst res; now repeat split].
  cbn [ret] in R. unfold bind at 1 in R.
  destruct (scanSource_run loc (deploy config) newDeployer) as [[e Sc] | [files Sc]];
    rewrite Sc in R.
  { exists [], []. subst res. now repeat split. }
  unfold bind at 1 in R.
  destruct (Nat.eqb (List.length files) 0);
    [exists [], [ProcessExit 0%Z]; subst res; now repeat split |].
  cbn [ret] in R. unfold bind at 1 in R. unfold calling at 1 in R.
  unfold bind at 1 in R. cbn [emit newDeployer connected trace app] in R.
  set (w1 := {| connected := false; trace := [Call MConnect] |}) in R.
  destruct (connect_run env (connection config) w1)
    as [[e E] | [(c & e & S & E) | (c & S & E)]]; rewrite E in R.
  - exists [], [Call MConnect]. subst res. now repeat split.
  - exists [], [Call MConnect; SshConnect c]. subst res. now repeat split.
  - set (w2 := {| connected := true; trace := (trace w1 ++ [SshConnect c])%list |}) in R.
    destruct (afterConnect_ordered env loc options config files
                (getRemoteDirectories files) w2)
      as (pre & post & T & Q1 & Q2 & Flat & _).
    exists ([Call MConnect; SshConnect c] ++ pre)%list, post.
    subst res. rewrite T. cbn [w2 w1 trace app]. repeat split; try assumption.
    intros loaded' files' L' Sc' F. cbn [forallb noMkdir andb]. apply Flat.
    injection L' as <-. fold config in Sc'. rewrite Sc in Sc'.
    now injection Sc' as <-.
Qed.

(** X18. In every run of [deployCommand] the directories come before the
    files: the history splits into a first part without any transfer and a
    second part without any [mkdir].  No directory is created after the
    first file has been sent. *)
Theorem deploy_creates_directories_first (env : Env) (loc : Local) (options : Options) :
  exists pre post,
    trace (snd (deployCommand env loc options)) = (pre ++ post)%list
    /\ forallb noTransfer pre = true
    /\ forallb noMkdir post = true.
Proof.
  destruct (deployBody_ordered env loc options) as (pre & post & T & Q1 & Q2 & _).
  unfold deployCommand, tryCatch.
  destruct (deployBody env loc options newDeployer) as [[[] | e | c] w'] eqn:B;
    cbn [snd] in T.
  - exists pre, post. now repeat split.
  - destruct (catch_events w') as (ev & E & Q). rewrite E. cbn [snd trace]. rewrite T.
    exists pre, (post ++ ev)%list. rewrite <- app_assoc, forallb_app, Q2.
    repeat split; [assumption |].
    now apply (forallb_weaken neither noMkdir _ neither_noMkdir).
  - exists pre, post. now repeat split.
Qed.

(** X19. When the planner returns no directory (every file to deploy lies
    directly in the source directory), [deployCommand] sends no [mkdir] at
    all: [createDirectories] is skipped, and with it the [mkdir -p] of the
    target directory itself. *)
Theorem deploy_flat_sends_no_mkdir
  (env : Env) (loc : Local) (options : Options) (loaded : Config)
  (items : list node) (files : list FileEntry) :
  loadConfig_ loc (template (or_else (opt_config options) (Some "deployment-config.json")))
  = inr loaded ->
  sourceFiles loc = inr items ->
  scanDirectory items (cwd loc) (deploy (mergeWithCliOptions loaded options)) (cwd loc)
  = Some files ->
  getRemoteDirectories files = [] ->
  forallb noMkdir (trace (snd (deployCommand env loc options))) = true.
Proof.
  intros L S Z F.
  destruct (deployBody_ordered env loc options) as (pre & post & T & _ & Q2 & Flat).
  assert (Q1 : forallb noMkdir pre = true).
  { apply (Flat loaded files L); [| assumption].
    unfold scanSource. now rewrite S, Z. }
  unfold deployCommand, tryCatch.
  destruct (deployBody env loc options newDeployer) as [[[] | e | c] w'] eqn:B;
    cbn [snd] in T.
  - cbn [snd]. now rewrite T, forallb_app, Q1, Q2.
  - destruct (catch_events w') as (ev & E & Q). rewrite E. cbn [snd trace].
    rewrite T, !forallb_app, Q1, Q2.
    now apply (forallb_weaken neither noMkdir _ neither_noMkdir).
  - cbn [snd]. now rewrite T, forallb_app, Q1, Q2.
Qed.

Lemma deploy_flat_sends_no_mkdir_witness :
  forallb noMkdir
    (trace (snd (deployCommand (remoteHost never never never) flatProject fullOptions)))
  = true.
Proof.
  apply (deploy_flat_sends_no_mkdir (remoteHost never never never) flatProject fullOptions
           defaultConfig [File "index.html"; File "app.js"]
           [entry "index.html"; entry "app.js"]); reflexivity.
Defined.

(** ** loadConfig *)

(** X20. Without a configuration file [loadConfig] returns the defaults,
    and so it does for the empty document.  Whenever it throws, the file
    exists and the message is 'Failed to parse config file: ' followed by
    the message of what went wrong, be it the reading or the parsing. *)
Theorem loadConfig_defaults_and_failures
  (env : Env) (parse : string -> Error + UserConfig) (configPath : string) :
  (fs_existsSync env (path_resolve env configPath) = false ->
   loadConfig env parse configPath = inr DEFAULT_CONFIG)
  /\ (forall content,
        fs_existsSync env (path_resolve env configPath) = true ->
        fs_readFileSync env (path_resolve env configPath) = inr content ->
        parse content = inr emptyDocument ->
        loadConfig env parse configPath = inr DEFAULT_CONFIG)
  /\ (forall e,
        loadConfig env parse configPath = inl e ->
        fs_existsSync env (path_resolve env configPath) = true
        /\ exists cause,
             message e = "Failed to parse config file: " ++ message cause
             /\ (fs_readFileSync env (path_resolve env configPath) = inl cause
                 \/ exists content,
                      fs_readFileSync env (path_resolve env configPath) = inr content
                      /\ parse content = inl cause)).
Proof.
  unfold loadConfig. split; [| split].
  - intros H. now rewrite H.
  - intros content H R P. now rewrite H, R, P.
  - intros e H. destruct (fs_existsSync env _); [| discriminate].
    split; [reflexivity |]. cbn [negb] in H.
    destruct (fs_readFileSync env _) as [cause | content] eqn:R.
    + injection H as <-. exists cause. split; [reflexivity | now left].
    + destruct (parse content) as [cause | u] eqn:P; [| discriminate].
      injection H as <-. exists cause. split; [reflexivity |].
      right. now exists content.
Qed.

Lemma loadConfig_defaults_and_failures_witness :
  loadConfig (remoteHost never never never) noJson "deployment-config.json"
  = inr DEFAULT_CONFIG.
Proof.
  destruct (loadConfig_defaults_and_failures (remoteHost never never never) noJson
              "deployment-config.json") as [H _].
  apply H. reflexivity.
Defined.

(** In the configuration that [loadConfig] returns the script name is a
    string: the default, or the one of the document. *)
Lemma loadConfig_script_is_a_string
  (env : Env) (parse : string -> Error + UserConfig) (configPath : string)
  (config : FileConfig) :
  loadConfig env parse configPath = inr config ->
  exists script, afterDeploy (base config) = Some script.
Proof.
  unfold loadConfig. intros H.
  destruct (negb _); [injection H as <-; now exists "deploy.sh" |].
  destruct (fs_readFileSync env _) as [cause | content]; [discriminate |].
  destruct (parse content) as [cause | userConfig]; [discriminate |].
  injection H as <-. cbn [base afterDeploy].
  destruct (u_afterDeploy userConfig) as [script |]; cbn; eauto.
Qed.

(** In a directory without configuration file, [deploy] without [-ip]
    ends the process with status 1 at once, whatever the other options:
    nothing is scanned and the session provider is never called. *)
Theorem deploy_needs_a_host
  (env fsEnv : Env) (parse : string -> Error + UserConfig) (loc : Local)
  (options : Options) :
  fs_existsSync fsEnv
    (path_resolve fsEnv
       (template (or_else (opt_config options) (Some "deployment-config.json"))))
  = false ->
  truthy (opt_ip options) = false ->
  deployCommand env (localWith fsEnv parse loc) options
  = (Exit 1, {| connected := false; trace := [ProcessExit 1] |}).
Proof.
  intros X H. unfold deployCommand, tryCatch, deployBody.
  unfold bind at 1. cbn [localWith loadConfig_]. unfold loadConfig. rewrite X.
  cbn [negb configOf ofSum ret]. cbv zeta.
  unfold bind at 1. rewrite isValid_truthy.
  unfold mergeWithCliOptions. cbn [connection host base DEFAULT_CONFIG].
  unfold or_else at 1. rewrite H. reflexivity.
Qed.

Lemma deploy_needs_a_host_witness :
  deployCommand (remoteHost never never never)
    (localWith (remoteHost never never never) noJson flatProject) plainOptions
  = (Exit 1, {| connected := false; trace := [ProcessExit 1] |}).
Proof.
  apply (deploy_needs_a_host (remoteHost never never never) (remoteHost never never never)
           noJson flatProject plainOptions); reflexivity.
Defined.

(** ** createProjectCommand *)

Lemma dropGitSuffix_unfold (c : ascii) (s : string) :
  dropGitSuffix (String c s)
  = if String.eqb (String c s) ".git" then "" else String c (dropGitSuffix s).
Proof. reflexivity. Qed.

Lemma dropGitSuffix_append (name : string) : dropGitSuffix (name ++ ".git") = name.
Proof.
  induction name as [| c n IH]; [reflexivity |].
  change (String c n ++ ".git") with (String c (n ++ ".git")).
  rewrite dropGitSuffix_unfold, IH.
  destruct (String.eqb_spec (String c (n ++ ".git")) ".git") as [E |]; [| reflexivity].
  apply (f_equal String.length) in E. cbn [String.length] in E.
  rewrite length_append in E. cbn in E. lia.
Qed.

Lemma dropGitSuffix_slash_free (s : string) :
  includes s "/" = false -> includes (dropGitSuffix s) "/" = false.
Proof.
  induction s as [| c s IH]; [trivial |]. intros H.
  rewrite dropGitSuffix_unfold. destruct (String.eqb _ _); [reflexivity |].
  change (String c s) with (String c "" ++ s) in H.
  change (String c (dropGitSuffix s)) with (String c "" ++ dropGitSuffix s).
  rewrite includes_char_append in *. apply orb_false_elim in H as [H1 H2].
  now rewrite H1, IH.
Qed.

Lemma last_segment (base name : string) :
  includes name "/" = false ->
  last (split "/" (base ++ "/" ++ name)) "" = name.
Proof.
  intros H. change ("/" ++ name) with (String "/" name).
  rewrite split_append, (split_slash_free name H). apply last_last.
Qed.

(** X21. The directory name [createProjectCommand] derives from a
    repository URL never contains a slash.  For a URL that ends in
    [/<name>.git] it is [<name>]; for one that ends in [/<name>] it is
    [<name>] without a final [.git]; and for a URL that ends in a slash it
    is the empty string. *)
Theorem nameFromUrl_is_last_segment (repoUrl base name : string) :
  includes (nameFromUrl repoUrl) "/" = false
  /\ (includes name "/" = false ->
      nameFromUrl (base ++ "/" ++ name ++ ".git") = name
      /\ nameFromUrl (base ++ "/" ++ name) = dropGitSuffix name)
  /\ nameFromUrl (base ++ "/") = "".
Proof.
  unfold nameFromUrl. split; [| split].
  - apply dropGitSuffix_slash_free.
    pose proof (split_pieces repoUrl) as F. rewrite Forall_forall in F.
    apply F. pose proof (split_not_nil "/" repoUrl) as NN.
    destruct (exists_last NN) as (init & final & ->).
    rewrite last_last. apply in_or_app. right. now left.
  - intros H. split.
    + rewrite last_segment; [apply dropGitSuffix_append |].
      rewrite includes_char_append, H. reflexivity.
    + now rewrite last_segment.
  - change (base ++ "/") with (base ++ "/" ++ "").
    now rewrite (last_segment base "" eq_refl).
Qed.

Lemma nameFromUrl_is_last_segment_witness :
  nameFromUrl ("https://github.com/user" ++ "/" ++ "repo" ++ ".git") = "repo"
  /\ nameFromUrl ("https://github.com/user" ++ "/" ++ "repo") = dropGitSuffix "repo".
Proof.
  destruct (nameFromUrl_is_last_segment "" "https://github.com/user" "repo")
    as (_ & H & _).
  apply H. reflexivity.
Defined.

(** X22. [createProjectCommand] runs at most three commands, in this
    order: [git --version], the clone in the current directory, and [npm
    install] in the cloned directory.  The clone is only run after [git
    --version] succeeded and only for a non-empty repository URL, from the
    option or else from the configuration; [npm install] is only run after a
    successful clone and with [-i].  The command ends normally exactly when
    the clone succeeded (a failing [npm install] does not change that),
    and with status 1 otherwise. *)
Theorem createProject_runs_in_order (shell : Shell) (options : CloneOptions) :
  let r := fst (createProjectCommand shell options) in
  let events := snd (createProjectCommand shell options) in
  (r = Exit 1 /\ events = [Exited 1])
  \/ (r = Exit 1 /\ events = [gitVersion; Exited 1])
  \/ exists config repoUrl,
       sh_loadConfig shell (template (or_else (c_config options) (Some "config.json")))
       = inr config
       /\ or_else (c_repo options) (repositoryUrl (projectSection config)) = Some repoUrl
       /\ nonEmpty repoUrl = true
       /\ sh_execSync shell [] "git --version" None = None
       /\ let clone := ExecSync (gitCommand options repoUrl) (Some (sh_cwd shell)) in
          (r = Exit 1
           /\ sh_execSync shell [gitVersion] (gitCommand options repoUrl)
                (Some (sh_cwd shell)) <> None
           /\ events = [gitVersion; clone; Exited 1])
          \/ (sh_execSync shell [gitVersion] (gitCommand options repoUrl)
                (Some (sh_cwd shell)) = None
              /\ r = Normal tt
              /\ (events = [gitVersion; clone]
                  \/ (c_install options = InstallTrue
                      /\ events
                         = [gitVersion; clone;
                            ExecSync "npm install"
                              (Some (sh_resolve shell (clonedDirName options repoUrl)))]))).
Proof.
  cbv zeta. unfold createProjectCommand.
  destruct (sh_loadConfig shell _) as [e | config] eqn:L; [now left |].
  unfold given.
  destruct (truthy (or_else (c_repo options) (repositoryUrl (projectSection config))))
    eqn:T; [| now left].
  destruct (or_else (c_repo options) (repositoryUrl (projectSection config)))
    as [repoUrl |] eqn:U; [| discriminate].
  destruct (sh_execSync shell [] "git --version" None) eqn:V; [right; now left |].
  right; right. exists config, repoUrl.
  split; [reflexivity |]. split; [exact U |]. split; [exact T |].
  split; [reflexivity |].
  destruct (sh_execSync shell [gitVersion] _ _) eqn:C.
  - left. split; [reflexivity |]. split; [discriminate | reflexivity].
  - right. split; [reflexivity |].
    destruct (sh_existsSync shell _ _).
    + destruct (c_install options); (split; [reflexivity |]).
      * now left.
      * right. now split.
      * now left.
    + split; [reflexivity | now left].
Qed.

(** X23. Without a repository URL (none on the command line, none or an
    empty one in the configuration) [createProjectCommand] ends the process
    with status 1 before running any command, [git --version] included. *)
Theorem createProject_needs_a_url
  (shell : Shell) (options : CloneOptions) (config : FileConfig) :
  sh_loadConfig shell (template (or_else (c_config options) (Some "config.json")))
  = inr config ->
  truthy (c_repo options) = false ->
  truthy (repositoryUrl (projectSection config)) = false ->
  createProjectCommand shell options = (Exit 1, [Exited 1]).
Proof.
  intros L R U. unfold createProjectCommand. rewrite L.
  unfold given, or_else. now rewrite R, U.
Qed.

Lemma createProject_needs_a_url_witness :
  createProjectCommand workstation bareOptions = (Exit 1, [Exited 1]).
Proof.
  apply (createProject_needs_a_url workstation bareOptions DEFAULT_CONFIG); reflexivity.
Defined.

(** ** scan.js: the addresses to scan *)

Example Number_toString_254 : Number_toString 254 = "254".
Proof. reflexivity. Qed.

Lemma split_without_separator (sep : ascii) (s : string) :
  includes s (String sep "") = false -> split sep s = [s].
Proof.
  rewrite includes_char.
  induction s as [| a s IH]; [reflexivity |].
  cbn [list_ascii_of_string existsb split]. intros H.
  apply orb_false_elim in H as [H1 H2].
  rewrite (IH H2), Ascii.eqb_sym, H1. reflexivity.
Qed.

(** X24. For an address [a.b.c.<rest>] [generateMask] returns [a.b.c], so
    that the mask followed by a dot and the rest gives the address back; for
    an address without dots the missing parts come out as [undefined]. *)
Theorem generateMask_first_three (a b c rest : string) :
  (includes a "." = false -> includes b "." = false -> includes c "." = false ->
   generateMask (a ++ "." ++ b ++ "." ++ c ++ "." ++ rest) = a ++ "." ++ b ++ "." ++ c
   /\ generateMask (a ++ "." ++ b ++ "." ++ c ++ "." ++ rest) ++ "." ++ rest
      = a ++ "." ++ b ++ "." ++ c ++ "." ++ rest)
  /\ (includes a "." = false -> generateMask a = a ++ ".undefined.undefined").
Proof.
  split.
  - intros Ha Hb Hc.
    assert (E : generateMask (a ++ "." ++ b ++ "." ++ c ++ "." ++ rest)
                = a ++ "." ++ b ++ "." ++ c).
    { unfold generateMask.
      change (a ++ "." ++ b ++ "." ++ c ++ "." ++ rest)
        with (a ++ String "." (b ++ String "." (c ++ String "." rest))).
      rewrite !split_append, (split_without_separator "." a Ha),
        (split_without_separator "." b Hb), (split_without_separator "." c Hc).
      reflexivity. }
    split; [exact E |]. rewrite E. now rewrite !append_assoc.
  - intros Ha. unfold generateMask. rewrite (split_without_separator "." a Ha).
    reflexivity.
Qed.

Lemma generateMask_first_three_witness :
  generateMask ("192" ++ "." ++ "168" ++ "." ++ "1" ++ "." ++ "17") = "192" ++ "." ++ "168" ++ "." ++ "1"
  /\ generateMask ("192" ++ "." ++ "168" ++ "." ++ "1" ++ "." ++ "17") ++ "." ++ "17"
     = "192" ++ "." ++ "168" ++ "." ++ "1" ++ "." ++ "17".
Proof.
  destruct (generateMask_first_three "192" "168" "1" "17") as [H _].
  apply H; reflexivity.
Defined.

Lemma Number_toString_injective (i j : nat) :
  Number_toString i = Number_toString j -> i = j.
Proof.
  unfold Number_toString. intros H.
  apply DecimalNat.Unsigned.to_uint_inj.
  apply (f_equal DecimalString.NilEmpty.uint_of_string) in H.
  rewrite !DecimalString.NilEmpty.usu in H. now injection H.
Qed.

Lemma append_cancel (a b c : string) : a ++ b = a ++ c -> b = c.
Proof.
  induction a as [| x a IH]; cbn; [trivial |]. intros H. injection H as H. now apply IH.
Qed.

Lemma generateIPRange_filter (mask localIP : string) :
  generateIPRange mask localIP
  = filter (fun ip => negb (String.eqb ip localIP))
           (map (fun i => mask ++ "." ++ Number_toString i) (seq 1 254)).
Proof.
  unfold generateIPRange. induction (seq 1 254) as [| i l IH]; [reflexivity |].
  cbn [flat_map map filter]. rewrite IH. unfold candidate.
  now destruct (negb _).
Qed.

Lemma candidates_NoDup (mask : string) (l : list nat) :
  NoDup l -> NoDup (map (fun i => mask ++ "." ++ Number_toString i) l).
Proof.
  induction 1 as [| i l Hi _ IH]; cbn [map]; constructor; [| assumption].
  intros H. apply in_map_iff in H as (j & E & Hj).
  apply append_cancel in E. apply append_cancel in E.
  apply Number_toString_injective in E. now subst.
Qed.

Lemma filter_out_length (y : string) (l : list string) :
  NoDup l ->
  (In y l -> S (List.length (filter (fun x => negb (String.eqb x y)) l)) = List.length l)
  /\ (~ In y l -> List.length (filter (fun x => negb (String.eqb x y)) l) = List.length l).
Proof.
  induction 1 as [| x l Hx _ IH]; [split; [intros [] | reflexivity] |].
  destruct IH as [IH1 IH2]. cbn [filter].
  destruct (String.eqb_spec x y) as [-> | NE]; cbn [negb List.length].
  - split; [intros _; now rewrite (IH2 Hx) | intros N; elim N; now left].
  - split.
    + intros [E | H]; [contradiction | now rewrite (IH1 H)].
    + intros N. rewrite IH2; [reflexivity |]. intros H. apply N. now right.
Qed.

(** X25. [generateIPRange] returns the addresses [mask.1] to [mask.254] in
    this order, without the local address: it is the list of these 254
    addresses, in ascending order of the last number, from which the
    entries equal to the local address are taken out.  So it has no
    duplicates, never contains the local address, contains every other
    [mask.i], and has 253 entries when the local address is one of them and
    254 otherwise. *)
Theorem generateIPRange_subnet (mask localIP : string) :
  generateIPRange mask localIP
  = filter (fun ip => negb (String.eqb ip localIP))
           (map (fun i => mask ++ "." ++ Number_toString i) (seq 1 254))
  /\ NoDup (generateIPRange mask localIP)
  /\ ~ In localIP (generateIPRange mask localIP)
  /\ (forall ip,
        In ip (generateIPRange mask localIP) <->
        ip <> localIP
        /\ exists i, 1 <= i <= 254 /\ ip = mask ++ "." ++ Number_toString i)
  /\ (forall k, 1 <= k <= 254 -> localIP = mask ++ "." ++ Number_toString k ->
        List.length (generateIPRange mask localIP) = 253)
  /\ ((forall k, 1 <= k <= 254 -> localIP <> mask ++ "." ++ Number_toString k) ->
        List.length (generateIPRange mask localIP) = 254).
Proof.
  split; [apply generateIPRange_filter |].
  rewrite generateIPRange_filter.
  pose proof (candidates_NoDup mask (seq 1 254) (seq_NoDup 254 1)) as ND.
  assert (Mem : forall ip,
             In ip (map (fun i => mask ++ "." ++ Number_toString i) (seq 1 254)) <->
             exists i, 1 <= i <= 254 /\ ip = mask ++ "." ++ Number_toString i).
  { intros ip. rewrite in_map_iff. split.
    - intros (i & <- & Hi). apply in_seq in Hi. exists i. split; [lia | reflexivity].
    - intros (i & Hi & ->). exists i. split; [reflexivity |]. apply in_seq. lia. }
  split; [now apply NoDup_filter |]. split; [| split; [| split]].
  - intros H. apply filter_In in H as [_ H]. now rewrite String.eqb_refl in H.
  - intros ip. rewrite filter_In, Mem, negb_true_iff, String.eqb_neq. tauto.
  - intros k Hk E.
    destruct (filter_out_length localIP _ ND) as [H _].
    assert (I : In localIP (map (fun i => mask ++ "." ++ Number_toString i) (seq 1 254)))
      by (apply Mem; now exists k).
    specialize (H I). rewrite length_map, length_seq in H. lia.
  - intros N. destruct (filter_out_length localIP _ ND) as [_ H].
    rewrite H; [now rewrite length_map, length_seq |].
    intros I. apply Mem in I as (k & Hk & E). now apply (N k).
Qed.

Lemma generateIPRange_subnet_witness :
  List.length (generateIPRange "192.168.1" ("192.168.1" ++ "." ++ Number_toString 17)) = 253.
Proof.
  destruct (generateIPRange_subnet "192.168.1" ("192.168.1" ++ "." ++ Number_toString 17))
    as (_ & _ & _ & _ & H & _).
  apply (H 17); [lia | reflexivity].
Defined.

(** ** scan.js: the batch loop *)

Lemma Array_slice_batch {A : Type} (xs : list A) (n : nat) (batchSize : Z) :
  (1 <= batchSize)%Z -> n <= List.length xs ->
  Array_slice (Z.of_nat n) (Z.of_nat n + batchSize) xs
  = firstn (Z.to_nat batchSize) (skipn n xs).
Proof.
  intros Hb Hn. unfold Array_slice.
  destruct (Z.ltb_spec (Z.of_nat n) 0); [lia |].
  destruct (Z.ltb_spec (Z.of_nat n + batchSize) 0); [lia |].
  replace (Z.min (Z.of_nat n) (Z.of_nat (List.length xs))) with (Z.of_nat n) by lia.
  rewrite Nat2Z.id.
  destruct (Z.le_gt_cases (Z.of_nat n + batchSize) (Z.of_nat (List.length xs))) as [L | G].
  - f_equal. lia.
  - rewrite !firstn_all2; [reflexivity | |]; rewrite length_skipn; lia.
Qed.

Lemma open_ports_of_batch (portOpen : string -> bool) (batch : list string) :
  map fst (filter snd (map (fun ip => (ip, portOpen ip)) batch)) = filter portOpen batch.
Proof.
  induction batch as [| ip batch IH]; [reflexivity |].
  cbn [map filter snd]. destruct (portOpen ip); cbn [map fst]; now rewrite IH.
Qed.

Lemma scanLoop_from (portOpen : string -> bool) (ips : list string) (batchSize : Z) :
  (1 <= batchSize)%Z ->
  forall fuel n foundHosts,
    List.length ips - n < fuel ->
    scanLoop fuel portOpen ips batchSize (Z.of_nat n) foundHosts
    = Some (foundHosts ++ filter portOpen (skipn n ips))%list.
Proof.
  intros Hb. induction fuel as [| fuel IH]; intros n foundHosts Hf; [lia |].
  cbn [scanLoop]. destruct (Z.ltb_spec (Z.of_nat n) (Z.of_nat (List.length ips))) as [L | G].
  - rewrite Array_slice_batch by lia. rewrite open_ports_of_batch.
    replace (Z.of_nat n + batchSize)%Z with (Z.of_nat (n + Z.to_nat batchSize)) by lia.
    rewrite IH by lia. rewrite <- app_assoc, <- filter_app. do 3 f_equal.
    rewrite <- (firstn_skipn (Z.to_nat batchSize) (skipn n ips)) at 2.
    f_equal. rewrite skipn_skipn. f_equal. lia.
  - rewrite skipn_all2 by lia. now rewrite app_nil_r.
Qed.

(** X26. The batch size is one for a missing, unreadable or zero
    [--threads], and the number given for any other.  When [--threads] is
    not negative, the batch loop of [scanCommand] ends, after at most one
    turn per address, and has collected exactly the addresses whose port is
    open, in the order of the range, whatever the batch size. *)
Theorem scanLoop_collects_open_ports (portOpen : string -> bool) (ips : list string)
  (threads : option Z) (fuel : nat) :
  (forall n, threads = Some n -> (0 <= n)%Z) ->
  List.length ips < fuel ->
  (threads = None \/ threads = Some 0%Z -> batchSizeOf threads = 1%Z)
  /\ (forall n, threads = Some n -> n <> 0%Z -> batchSizeOf threads = n)
  /\ scanLoop fuel portOpen ips (batchSizeOf threads) 0 [] = Some (filter portOpen ips).
Proof.
  intros Hn Hf.
  assert (Hb : (1 <= batchSizeOf threads)%Z).
  { unfold batchSizeOf. destruct threads as [n |]; [| lia].
    specialize (Hn n eq_refl). destruct (Z.eqb_spec n 0); lia. }
  split; [| split].
  - intros [-> | ->]; reflexivity.
  - intros n -> N. unfold batchSizeOf. now destruct (Z.eqb_spec n 0).
  - change 0%Z with (Z.of_nat 0).
    rewrite scanLoop_from by (trivial; lia). reflexivity.
Qed.

Lemma scanLoop_collects_open_ports_witness :
  batchSizeOf (Some 2%Z) = 2%Z
  /\ scanLoop 4 (fun ip => String.eqb ip "10.0.0.2") ["10.0.0.1"; "10.0.0.2"; "10.0.0.3"]
       (batchSizeOf (Some 2%Z)) 0 []
     = Some (filter (fun ip => String.eqb ip "10.0.0.2") ["10.0.0.1"; "10.0.0.2"; "10.0.0.3"]).
Proof.
  destruct (scanLoop_collects_open_ports (fun ip => String.eqb ip "10.0.0.2")
              ["10.0.0.1"; "10.0.0.2"; "10.0.0.3"] (Some 2%Z) 4) as (_ & B & S).
  - intros n [= <-]. lia.
  - cbn. lia.
  - split; [apply (B 2%Z); [reflexivity | discriminate] | exact S].
Defined.

Lemma scanLoop_backwards (portOpen : string -> bool) (ips : list string) (batchSize : Z) :
  (batchSize < 0)%Z -> ips <> [] ->
  forall fuel i foundHosts,
    (i <= 0)%Z -> scanLoop fuel portOpen ips batchSize i foundHosts = None.
Proof.
  intros Hb Hne. induction fuel as [| fuel IH]; intros i foundHosts Hi; [reflexivity |].
  cbn [scanLoop].
  assert (0 < List.length ips) by (destruct ips; [contradiction | cbn; lia]).
  destruct (Z.ltb_spec i (Z.of_nat (List.length ips))); [| lia].
  apply IH. lia.
Qed.

(** X27. With a negative [--threads] the batch loop of [scanCommand] never
    ends when there is an address to scan: the index only decreases, and
    however many turns are allowed the loop is still running. *)
Theorem scanLoop_negative_threads_never_ends (portOpen : string -> bool)
  (ips : list string) (threads : option Z) :
  (batchSizeOf threads < 0)%Z -> ips <> [] ->
  forall fuel, scanLoop fuel portOpen ips (batchSizeOf threads) 0 [] = None.
Proof.
  intros Hb Hne fuel. apply scanLoop_backwards; trivial. lia.
Qed.

Lemma scanLoop_negative_threads_never_ends_witness :
  scanLoop 1000 (fun _ => true) (generateIPRange "10.0.0" "10.0.0.7")
    (batchSizeOf (Some (-1)%Z)) 0 [] = None.
Proof.
  apply (scanLoop_negative_threads_never_ends (fun _ => true)
           (generateIPRange "10.0.0" "10.0.0.7") (Some (-1)%Z));
    [reflexivity | discriminate].
Defined.

(** ** scan.js and ping.js: the login attempt *)

Lemma trySSHConnection_shape (connectTo : ProbeConfig -> option Error)
  (authSock : option string) (ip : string) (username password : option string)
  (timeout : Z) :
  exists config,
    snd (NetworkScan.trySSHConnection connectTo authSock ip username password timeout)
    = [ProbeConnect config; ProbeDispose]
    /\ p_host config = ip.
Proof.
  unfold NetworkScan.trySSHConnection.
  set (config := if truthy password then _ else _).
  exists config. split.
  - destruct (connectTo config) as [error |];
      [destruct (mentionsAuthentication (message error)) |]; reflexivity.
  - subst config. now destruct (truthy password).
Qed.

(** X28. [trySSHConnection] makes one connection attempt and disposes of
    the client once, after it, whatever the answer.  The password is sent
    only when it is non-empty, otherwise the agent socket is offered.  The
    result is authenticated exactly when the connection resolves, an
    authenticated result is a success, and a rejected attempt is a success
    exactly when the message of the error mentions authentication. *)
Theorem trySSHConnection_disposes (connectTo : ProbeConfig -> option Error)
  (authSock : option string) (ip : string) (username password : option string)
  (timeout : Z) :
  exists config,
    snd (NetworkScan.trySSHConnection connectTo authSock ip username password timeout)
    = [ProbeConnect config; ProbeDispose]
    /\ p_host config = ip /\ p_username config = username
    /\ p_readyTimeout config = timeout
    /\ (if truthy password
        then p_password config = password /\ p_agent config = None
        else p_password config = None /\ p_agent config = Some authSock)
    /\ let result :=
         fst (NetworkScan.trySSHConnection connectTo authSock ip username password timeout) in
       (authenticated result = true <-> connectTo config = None)
       /\ (authenticated result = true -> success result = true)
       /\ (forall error, connectTo config = Some error ->
             success result = mentionsAuthentication (message error)).
Proof.
  unfold NetworkScan.trySSHConnection.
  set (config := if truthy password then _ else _).
  exists config.
  assert (F : p_host config = ip /\ p_username config = username
              /\ p_readyTimeout config = timeout
              /\ (if truthy password
                  then p_password config = password /\ p_agent config = None
                  else p_password config = None /\ p_agent config = Some authSock)).
  { subst config. destruct (truthy password); cbn; auto. }
  destruct F as (F1 & F2 & F3 & F4).
  destruct (connectTo config) as [error |] eqn:C.
  - destruct (mentionsAuthentication (message error)) eqn:M; cbn;
      repeat split; auto; try discriminate; intros e [= <-]; now rewrite M.
  - cbn. repeat split; auto; discriminate.
Qed.

(** The login attempt of ping.js is the one of scan.js, with the message
    of the error kept in the result. *)
Lemma ping_trySSHConnection (connectTo : ProbeConfig -> option Error)
  (authSock : option string) (ip : string) (username password : option string)
  (timeout : Z) :
  let r := NetworkScan.trySSHConnection connectTo authSock ip username password timeout in
  let r' := Ping.trySSHConnection connectTo authSock ip username password timeout in
  snd r' = snd r
  /\ Ping.r_success (fst r') = success (fst r)
  /\ Ping.r_authenticated (fst r') = authenticated (fst r).
Proof.
  unfold NetworkScan.trySSHConnection, Ping.trySSHConnection.
  destruct (connectTo _) as [error |]; [destruct (mentionsAuthentication _) |];
    cbn; auto.
Qed.

(** ** ping.js *)

(** X29. [pingCommand] returns normally exactly when a non-empty host is
    given and its port check succeeds; otherwise it ends the process with
    status 1 without any login attempt.  A login is attempted only with a
    user name, once, after the port check, and the client is disposed of;
    whether the login succeeds does not change how the command ends. *)
Theorem pingCommand_exit_status (checkSSHPort : string -> Z -> bool)
  (connectTo : ProbeConfig -> option Error) (authSock : option string)
  (host : option string) (options : Ping.PingOptions) :
  let run := Ping.pingCommand checkSSHPort connectTo authSock host options in
  (fst run = Normal tt <->
   exists h, host = Some h /\ nonEmpty h = true
             /\ checkSSHPort h (Ping.timeoutOf options) = true)
  /\ (fst run <> Normal tt ->
      fst run = Exit 1%Z /\ forall e, ~ In (Ping.Probe e) (snd run))
  /\ (forall config, In (Ping.Probe (ProbeConnect config)) (snd run) ->
        truthy (Ping.po_user options) = true
        /\ exists h, host = Some h /\ p_host config = h
             /\ snd run = [Ping.PortCheck h (Ping.timeoutOf options);
                           Ping.Probe (ProbeConnect config); Ping.Probe ProbeDispose]).
Proof.
  unfold Ping.pingCommand.
  destruct host as [h |].
  { cbn [fst snd]. destruct (nonEmpty h) eqn:N; cbn [negb].
    - destruct (checkSSHPort h (Ping.timeoutOf options)) eqn:P; cbn [negb].
      + destruct (truthy (Ping.po_user options)) eqn:U.
        * destruct (Ping.trySSHConnection connectTo authSock h (Ping.po_user options)
                      (Ping.po_password options) (Ping.timeoutOf options))
            as [result events] eqn:T.
          pose proof (ping_trySSHConnection connectTo authSock h (Ping.po_user options)
                        (Ping.po_password options) (Ping.timeoutOf options)) as (E & _).
          rewrite T in E. cbn [snd] in E.
          destruct (trySSHConnection_shape connectTo authSock h (Ping.po_user options)
                      (Ping.po_password options) (Ping.timeoutOf options))
            as (config & S & Hh).
          rewrite S in E. subst events. cbn [fst snd map].
          split; [| split].
          -- split; [intros _; now exists h | reflexivity].
          -- intros F. now elim F.
          -- intros config' [[=] | [[= <-] | [[=] | []]]].
             split; [reflexivity |]. exists h. auto.
        * cbn [fst snd]. split; [| split].
          -- split; [intros _; now exists h | reflexivity].
          -- intros F. now elim F.
          -- intros config [[=] | []].
      + cbn [fst snd]. split; [| split].
        * split; [discriminate |]. intros (h' & [= <-] & _ & P'). congruence.
        * intros _. split; [reflexivity |]. intros e [[=] | [[=] | []]].
        * intros config [[=] | [[=] | []]].
    - cbn [fst snd]. split; [| split].
      + split; [discriminate |]. intros (h' & [= <-] & N' & _). congruence.
      + intros _. split; [reflexivity |]. intros e [[=] | []].
      + intros config [[=] | []]. }
  cbn [fst snd]. split; [| split].
  - split; [discriminate |]. intros (h' & [=] & _).
  - intros _. split; [reflexivity |]. intros e [[=] | []].
  - intros config [[=] | []].
Qed.

(** ** init.js *)

(** X30. [initCommand] never writes a file that it has just seen to exist:
    when deployment-config.json exists it ends the process with status 1 and
    writes nothing, and every write goes to a path whose check, made after
    the writes before it, said that the path does not exist.  When it returns
    normally it has written the configuration first, and the sample script
    exactly when that was absent. *)
Theorem initCommand_never_overwrites (disk : Init.Disk) :
  let run := Init.initCommand disk in
  let configPath := Init.d_resolve disk "deployment-config.json" in
  let deployShPath := Init.d_resolve disk "deploy.sh" in
  (Init.d_existsSync disk [] configPath = true ->
   run = (Exit 1%Z, [Init.InitExited 1%Z]))
  /\ (forall pre path content post,
        snd run = (pre ++ Init.WriteFile path content :: post)%list ->
        Init.d_existsSync disk pre path = false)
  /\ (fst run = Normal tt ->
      snd run
      = (Init.WriteFile configPath Init.ConfigTemplate
         :: if Init.d_existsSync disk [Init.WriteFile configPath Init.ConfigTemplate]
                 deployShPath
            then [] else [Init.WriteFile deployShPath Init.DeployScript])%list).
Proof.
  unfold Init.initCommand. cbn zeta.
  set (configPath := Init.d_resolve disk "deployment-config.json").
  set (deployShPath := Init.d_resolve disk "deploy.sh").
  assert (One : forall (w : Init.InitEvent) pre path content post,
             [w] = (pre ++ Init.WriteFile path content :: post)%list ->
             pre = [] /\ w = Init.WriteFile path content).
  { intros w [| x [| y pre]] path content post [=]; auto. }
  assert (Two : forall (w1 w2 : Init.InitEvent) pre path content post,
             [w1; w2] = (pre ++ Init.WriteFile path content :: post)%list ->
             (pre = [] /\ w1 = Init.WriteFile path content)
             \/ (pre = [w1] /\ w2 = Init.WriteFile path content)).
  { intros w1 w2 [| x [| y [| z pre]]] path content post [=]; subst; auto. }
  destruct (Init.d_existsSync disk [] configPath) eqn:E1.
  { cbn. repeat split; try discriminate.
    intros pre path content post H. apply One in H as [_ [=]]. }
  destruct (Init.d_writeFileSync disk [] configPath) as [e |] eqn:W1.
  { cbn. repeat split; try discriminate.
    intros pre path content post H. apply One in H as [-> [= <- _]]. exact E1. }
  destruct (Init.d_existsSync disk [Init.WriteFile configPath Init.ConfigTemplate]
              deployShPath) eqn:E2; cbn [negb].
  { cbn. repeat split; try discriminate.
    intros pre path content post H. apply One in H as [-> [= <- _]]. exact E1. }
  assert (W : forall pre path content post,
             [Init.WriteFile configPath Init.ConfigTemplate;
              Init.WriteFile deployShPath Init.DeployScript]
             = (pre ++ Init.WriteFile path content :: post)%list ->
             Init.d_existsSync disk pre path = false).
  { intros pre path content post H.
    apply Two in H as [[-> [= <- _]] | [-> [= <- _]]]; assumption. }
  destruct (Init.d_writeFileSync disk _ deployShPath) as [e |];
    cbn; repeat split; try discriminate; auto.
Qed.

Lemma initCommand_never_overwrites_witness :
  Init.initCommand
    {| Init.d_resolve := fun p => "/work/" ++ p;
       Init.d_existsSync := fun _ p => String.eqb p "/work/deployment-config.json";
       Init.d_writeFileSync := fun _ _ => None |}
  = (Exit 1%Z, [Init.InitExited 1%Z]).
Proof.
  destruct (initCommand_never_overwrites
              {| Init.d_resolve := fun p => "/work/" ++ p;
                 Init.d_existsSync := fun _ p => String.eqb p "/work/deployment-config.json";
                 Init.d_writeFileSync := fun _ _ => None |}) as (H & _).
  apply H. reflexivity.
Defined.
